(** * ColECM: the 2-D force field and Langevin integrator of [sim_tools_2D.py]

    A shallow embedding of [cos_sin_theta], [calc_energy_forces],
    [velocity_verlet_alg] and [velocity_verlet_alg_mpi], and of the choice
    of the modules in [main.py].

    Conventions of the embedding.
    - Floating-point numbers are modelled by the real numbers [R]: rounding,
      infinities and NaN are outside the model, and division is the total
      division of [R].  A statement over [R] is a statement about the
      arithmetic the code is written in, exact up to rounding, and not about
      the binary64 results; the module [B64] has [cos_sin_theta] over the
      binary64 numbers themselves, to show where the two differ.
    - The 64-bit integers of numpy are modelled by [Z]: a conversion of a
      float to an integer is faithful while the float lies within the range
      of a 64-bit integer.
    - A one-dimensional array is a [list]; a two-dimensional array is the
      list of its rows, all of the same length; an array of shape (n, 2) is
      a list of pairs.  An index tuple [(rows, cols)] of two equally long
      integer arrays is the list of its (row, col) pairs; indices are
      natural numbers.
    - Python exceptions are explicit: a computation returns [Ok v] or
      [Raise e] with [e] one of the two exceptions numpy raises on the paths
      modelled here, [IndexError] and [ValueError]. *)

From Stdlib Require Import Floats.
From Stdlib Require Import Reals Lra Lia ZArith.
From stdpp Require Import base option list strings.
Open Scope R_scope.

(** ** Exceptions *)

Inductive exn := IndexError | ValueError.

Inductive result (A : Type) := Ok (a : A) | Raise (e : exn).
Arguments Ok {A} a.
Arguments Raise {A} e.

Global Instance result_ret : MRet result := fun A a => Ok a.
Global Instance result_bind : MBind result := fun A B f m =>
  match m with Ok a => f a | Raise e => Raise e end.
Global Instance result_fmap : FMap result := fun A B f m =>
  match m with Ok a => Ok (f a) | Raise e => Raise e end.

Global Instance R_inhabited : Inhabited R := populate 0.

(** ** The fragment of numpy the program uses *)

Module Np.

Definition Rltb (a b : R) : bool := if Rlt_dec a b then true else false.
Definition Rnonzero (x : R) : bool := if Req_dec_T x 0 then false else true.

(** [np.array(x, dtype=int)]: conversion of a float to an integer
    truncates toward zero.  The result is an unbounded integer: it is the
    result of numpy for [- 2^63 < x < 2^63], and outside this range, where
    the conversion of numpy overflows, the model says nothing about the
    code. *)
Definition int (x : R) : Z := if Rle_dec 0 x then Zfloor x else Zceil x.

(** [np.sum] of a one-dimensional array. *)
Definition sum (l : list R) : R := foldr Rplus 0 l.

Definition zeros (n : nat) : list R := replicate n 0.
Definition zeros2 (a b : nat) : list (list R) := replicate a (zeros b).

(** [a[i]], with numpy's bounds check. *)
Definition getitem {A} (a : list A) (i : nat) : result A :=
  match a !! i with Some x => Ok x | None => Raise IndexError end.

(** [a[idx]] for an integer index array [idx]. *)
Definition take {A} (a : list A) (idx : list nat) : result (list A) :=
  mapM (getitem a) idx.

Definition getitem2 {A} (m : list (list A)) (ij : nat * nat) : result A :=
  row ← getitem m ij.1; getitem row ij.2.

(** [m[(rows, cols)]] for a two-dimensional array [m]. *)
Definition take2 {A} (m : list (list A)) (idx : list (nat * nat))
  : result (list A) :=
  mapM (getitem2 m) idx.

(** Broadcasting of a one-dimensional operand to length [n]: an array of
    length [n] is kept, an array of length one is repeated, anything else
    is a shape error. *)
Definition broadcast_to {A} (n : nat) (v : list A) : result (list A) :=
  if (length v =? n)%nat then Ok v
  else match v with
       | [x] => Ok (replicate n x)
       | _ => Raise ValueError
       end.

(** [a op b] for arrays along their first axis. *)
Definition zip_with {A B C} (f : A → B → C) (a : list A) (b : list B)
  : result (list C) :=
  if (length a =? length b)%nat then Ok (stdpp.base.zip_with f a b)
  else match a, b with
       | _, [y] => Ok (fmap (λ x, f x y) a)
       | [x], _ => Ok (fmap (f x) b)
       | _, _ => Raise ValueError
       end.

(** [a op= b]: in place, so only [b] can be broadcast. *)
Definition izip_with {A B} (f : A → B → A) (a : list A) (b : list B)
  : result (list A) :=
  b' ← broadcast_to (length a) b; Ok (stdpp.base.zip_with f a b').

(** [a[idx] = vals], element by element: of two assignments to the same
    index the later one stays. *)
Definition setitems {A} (a : list A) (idx : list nat) (vals : list A)
  : list A :=
  foldl (λ acc iv, <[iv.1 := iv.2]> acc) a (zip idx vals).

Definition setitems2 {A} (m : list (list A)) (idx : list (nat * nat))
  (vals : list A) : list (list A) :=
  foldl (λ acc iv, alter (λ row, <[iv.1.2 := iv.2]> row) iv.1.1 acc)
        m (zip idx vals).

(** [a[idx] op= v] with an index array: numpy reads [a[idx]], combines the
    copy with [v] and writes the copy back, so that repeated indices do
    not accumulate. *)
Definition iop_at {A B} (f : A → B → A) (a : list A) (idx : list nat)
  (v : list B) : result (list A) :=
  cur ← take a idx;
  new ← izip_with f cur v;
  Ok (setitems a idx new).

Definition iadd_at := iop_at Rplus.

Definition iadd_at2 (m : list (list R)) (idx : list (nat * nat))
  (v : list R) : result (list (list R)) :=
  cur ← take2 m idx;
  new ← izip_with Rplus cur v;
  Ok (setitems2 m idx new).

(** The array [a] with [x] added to its entry [i]. *)
Definition add_at (i : nat) (x : R) (a : list R) : list R :=
  <[i := a !!! i + x]> a.

(** [np.nonzero] of a two-dimensional array: the (row, col) pairs of the
    non-zero entries, in row-major order. *)
Fixpoint nonzero_from (b : nat) (row : list R) : list nat :=
  match row with
  | [] => []
  | x :: row' =>
      if Rnonzero x then b :: nonzero_from (S b) row'
      else nonzero_from (S b) row'
  end.

Fixpoint nonzero2_from (a : nat) (m : list (list R)) : list (nat * nat) :=
  match m with
  | [] => []
  | row :: m' =>
      ((λ b, (a, b)) <$> nonzero_from 0 row) ++ nonzero2_from (S a) m'
  end.

Definition nonzero2 (m : list (list R)) : list (nat * nat) :=
  nonzero2_from 0 m.

(** [np.arange(start, stop, 2)] for [start] 0 or 1. *)
Fixpoint arange2 (start : nat) (count : nat) : list nat :=
  match count with
  | O => []
  | S c => start :: arange2 (S (S start)) c
  end.

(** [np.repeat(l, k)]. *)
Definition repeat {A} (l : list A) (k : nat) : list A :=
  l ≫= replicate k.

(** The rows of [np.reshape(l, (len(l)/2, 2))]. *)
Fixpoint chunk2 {A} (l : list A) : list (A * A) :=
  match l with
  | a :: b :: l' => (a, b) :: chunk2 l'
  | _ => []
  end.

(** [np.reshape(l, (k, 2))]: the sizes have to agree. *)
Definition reshape2 {A} (k : nat) (l : list A) : result (list (A * A)) :=
  if (length l =? 2 * k)%nat then Ok (chunk2 l) else Raise ValueError.

(** Element-wise product of two-dimensional arrays of one shape. *)
Definition mul2 (a b : list (list R)) : list (list R) :=
  stdpp.base.zip_with (stdpp.base.zip_with Rmult) a b.

(** [np.sum(m, axis=1)] and [np.sum(m, axis=0)].  An array without rows
    is given as many columns as the array its column sums are added to. *)
Definition sum_axis1 (m : list (list R)) : list R := fmap sum m.

Definition sum_axis0 (ncols : nat) (m : list (list R)) : list R :=
  match m with
  | [] => zeros ncols
  | row :: m' => foldl (stdpp.base.zip_with Rplus) row m'
  end.

End Np.

(** ** The helpers of [utilities.py] that the force field calls *)

Module Ut.

(** Modelled from the spec: [ut.pot_harmonic], the harmonic bond potential
    [0.5 * k0 * (r - r0)^2]. *)
Definition pot_harmonic (x x0 k : R) : R := 0.5 * k * (x - x0) ^ 2.

(** Modelled from the spec: [ut.force_harmonic], the radial force
    [- k0 * (r - r0)] of the harmonic bond potential. *)
Definition force_harmonic (x x0 k : R) : R := - k * (x - x0).

(** Modelled from the spec: [ut.check_cutoff], the mask of the entries that
    lie below the threshold (1.0 where [r2 < thresh], else 0.0).  The
    comparison is strict because the spec says below; whether the source
    keeps an entry equal to the threshold is not known, and of the
    statements below only [pair_at_cutoff_masked] rests on it. *)
Definition check_cutoff (r2 thresh : R) : R :=
  if Np.Rltb r2 thresh then 1 else 0.

(** The integer nearest to [x]. *)
Definition nearest (x : R) : Z := Zfloor (x + 1 / 2).

(** Modelled from the spec: the minimum-image displacement of the geometry
    kernel, which subtracts the nearest integer multiple of the box length. *)
Definition minimum_image (L d : R) : R := d - L * IZR (nearest (d / L)).

(** Modelled from the spec: [ut.get_distances_mpi], which returns for each
    index pair of [pos_indices] the minimum-image displacement between the
    two beads, one array per axis.  [calc_energy_forces] uses each of the
    two as a two-dimensional array whose columns are the beads, so
    [pos_indices] is the two-dimensional array of the index pairs.
    [pair_displacement] is the displacement of one pair. *)
Definition pair_displacement (pos : list (R * R)) (cell_dim : R * R)
  (ij : nat * nat) : result (R * R) :=
  pi ← Np.getitem pos ij.1;
  pj ← Np.getitem pos ij.2;
  Ok (minimum_image cell_dim.1 (pi.1 - pj.1),
      minimum_image cell_dim.2 (pi.2 - pj.2)).

Definition get_distances_mpi (pos : list (R * R))
  (pos_indices : list (list (nat * nat))) (cell_dim : R * R)
  : result (list (list R) * list (list R)) :=
  d ← mapM (mapM (pair_displacement pos cell_dim)) pos_indices;
  Ok (fmap (M := list) (fmap (M := list) fst) d,
      fmap (M := list) (fmap (M := list) snd) d).

(** Modelled from the spec: a Lennard-Jones potential and force in the
    squared distance, the instance of [ut.pot_vdw] and [ut.force_vdw] used
    where a concrete potential is needed. *)
Definition lj_pot_vdw (r2 sigma epsilon : R) : R :=
  4 * epsilon * ((sigma ^ 2 / r2) ^ 6 - (sigma ^ 2 / r2) ^ 3).

Definition lj_force_vdw (r2 sigma epsilon : R) : R :=
  - 24 * epsilon * (2 * (sigma ^ 2 / r2) ^ 6 - (sigma ^ 2 / r2) ^ 3).

End Ut.

(** ** Data *)

(** The parameter bundle [param]. *)
Record param := {
  mass : R; n_dim : nat; n_bead : nat;
  vdw_sigma : R; vdw_epsilon : R; rc : R;
  bond_r0 : R; bond_k0 : R; angle_k0 : R;
  sigma : R; gamma : R; lambda_p : R; P_0 : R
}.

(** The accumulators [pot_energy], [f_beads_x] and [f_beads_y] of
    [calc_energy_forces]. *)
Record acc := {
  pot_energy : R; f_beads_x : list R; f_beads_y : list R
}.

(** A 2x2 array, row by row. *)
Definition tensor : Type := (R * R) * (R * R).

Definition tensor_zero : tensor := ((0, 0), (0, 0)).

Definition tensor_add (a b : tensor) : tensor :=
  ((a.1.1 + b.1.1, a.1.2 + b.1.2), (a.2.1 + b.2.1, a.2.2 + b.2.2)).

Definition vadd (a b : R * R) : R * R := (a.1 + b.1, a.2 + b.2).
Definition vsub (a b : R * R) : R * R := (a.1 - b.1, a.2 - b.2).

(** Lines 166 and 173: the length [np.sqrt(np.sum(v**2))] of a vector. *)
Definition norm (v : R * R) : R := sqrt (v.1 ^ 2 + v.2 ^ 2).

(** ** [cos_sin_theta] *)

(** Lines 49-66 over the reals: the products, the sums and the two
    divisions are exact, [np.linalg.det] of a pair of vectors is the
    cofactor formula, and a division by a zero [r_prod], which gives NaN or
    an infinity in the code, is the total division of [R]. *)
Definition cos_sin_theta (vector : list (R * R)) (r_vector : list R)
  : result (list R * list R * list R) :=
  let n_vector := length vector in
  temp_vector ← Np.reshape2 (n_vector / 2) vector;
  r_pairs ← Np.reshape2 (n_vector / 2) r_vector;
  let r_prod := fmap (λ p : R * R, p.1 * p.2) r_pairs in
  let dot_prod :=
    fmap (λ p : (R * R) * (R * R), p.1.1 * p.2.1 + p.1.2 * p.2.2)
        temp_vector in
  let cross_prod :=
    fmap (λ p : (R * R) * (R * R), p.1.1 * p.2.2 - p.1.2 * p.2.1)
        temp_vector in
  let cos_the := zip_with Rdiv dot_prod r_prod in
  let sin_the := zip_with Rdiv cross_prod r_prod in
  Ok (cos_the, sin_the, r_prod).

(** ** [cos_sin_theta] in binary64 *)

(** The same lines over the binary64 numbers numpy computes with, each
    operation rounded to nearest.  [np.linalg.det] is a LAPACK routine
    whose rounding is not that of the cofactor formula, so the determinant
    of a pair of vectors is a parameter [det] of the model; [det2] is the
    cofactor formula.  [norm] is the length of lines 166 and 173. *)
Module B64.

Definition norm (v : float * float) : float :=
  PrimFloat.sqrt (v.1 * v.1 + v.2 * v.2)%float.

Definition det2 (a b : float * float) : float :=
  (a.1 * b.2 - a.2 * b.1)%float.

Definition cos_sin_theta (det : float * float → float * float → float)
  (vector : list (float * float)) (r_vector : list float)
  : result (list float * list float * list float) :=
  let n_vector := length vector in
  temp_vector ← Np.reshape2 (n_vector / 2) vector;
  r_pairs ← Np.reshape2 (n_vector / 2) r_vector;
  let r_prod := fmap (λ p : float * float, (p.1 * p.2)%float) r_pairs in
  let dot_prod :=
    fmap (λ p : (float * float) * (float * float),
            (p.1.1 * p.2.1 + p.1.2 * p.2.2)%float) temp_vector in
  let cross_prod :=
    fmap (λ p : (float * float) * (float * float), det p.1 p.2)
        temp_vector in
  let cos_the := zip_with PrimFloat.div dot_prod r_prod in
  let sin_the := zip_with PrimFloat.div cross_prod r_prod in
  Ok (cos_the, sin_the, r_prod).

End B64.

(** ** [calc_energy_forces] *)

Section force_field.

(** [ut.pot_vdw] and [ut.force_vdw] as functions of the squared distance,
    [vdw_sigma] and [vdw_epsilon]: the force field is modelled for any
    choice of the two. *)
Variables pot_vdw force_vdw : R → R → R → R.

Variable prm : param.

(** Lines 140-157, the bonded block. *)
Definition bond_block (n : nat) (pair_dist : list (list R) * list (list R))
  (pair_r2 : list (list R)) (bond_indices frc_indices : list (nat * nat))
  (st : acc) : result acc :=
  bond_r ← fmap sqrt <$> Np.take2 pair_r2 bond_indices;
  let bond_pot :=
    fmap (λ r, Ut.pot_harmonic r (bond_r0 prm) (bond_k0 prm)) bond_r in
  let pe := pot_energy st + 0.5 * Np.sum bond_pot in
  let bond_frc :=
    fmap (λ r, Ut.force_harmonic r (bond_r0 prm) (bond_k0 prm)) bond_r in
  d0 ← Np.take2 pair_dist.1 bond_indices;
  t0 ← Np.iadd_at2 (Np.zeros2 n n) frc_indices
         (zip_with Rdiv (zip_with Rmult bond_frc d0) bond_r);
  d1 ← Np.take2 pair_dist.2 bond_indices;
  t1 ← Np.iadd_at2 (Np.zeros2 n n) frc_indices
         (zip_with Rdiv (zip_with Rmult bond_frc d1) bond_r);
  Ok {| pot_energy := pe;
        f_beads_x := zip_with Rplus (f_beads_x st) (Np.sum_axis1 t0);
        f_beads_y := zip_with Rplus (f_beads_y st) (Np.sum_axis1 t1) |}.

(** Line 165: the wrap of one component of an angle bond vector. *)
Definition angle_wrap (L d : R) : R := d - L * IZR (Np.int (2 * d / L)).

(** Lines 164-169: the array [vector] of the bond vectors of the angles. *)
Definition angle_vectors (pos : list (R * R)) (cell_dim : R * R)
  (angle_bond_indices : list (list nat)) : result (list (R * R)) :=
  i0 ← Np.getitem angle_bond_indices 0;
  p0 ← Np.take pos i0;
  i1 ← Np.getitem angle_bond_indices 1;
  p1 ← Np.take pos i1;
  d ← Np.zip_with vsub p0 p1;
  match n_dim prm with
  | 0%nat => Ok d
  | 1%nat =>
      Ok (fmap (M := list)
               (λ v : R * R, (angle_wrap cell_dim.1 v.1, v.2)) d)
  | 2%nat =>
      Ok (fmap (M := list) (λ v : R * R,
                 (angle_wrap cell_dim.1 v.1, angle_wrap cell_dim.2 v.2)) d)
  | _ => Raise IndexError
  end.

(** Lines 178-195: the forces [frc_angle_ij] on the outer beads and
    [frc_angle_k] on the middle bead of each angle. *)
Definition angle_forces (vector : list (R * R)) (r_vector sin_the r_prod : list R)
  : result (list (R * R) * list (R * R)) :=
  let n_vector := length vector in
  let r_array := Np.chunk2 (Np.repeat r_vector 2) in
  let sin_the_array := Np.chunk2 (Np.repeat sin_the 4) in
  let r_prod_array := Np.chunk2 (Np.repeat r_prod 4) in
  let r_left :=
    zip_with (λ v p : R * R, (v.1 / p.1, v.2 / p.2)) vector r_prod_array in
  let r_right :=
    zip_with (λ sv r : R * R, (sv.1 / r.1 ^ 2, sv.2 / r.2 ^ 2))
      (zip_with (λ s v : R * R, (s.1 * v.1, s.2 * v.2)) sin_the_array vector)
      r_array in
  let ij_indices := Np.arange2 0 (Nat.div2 (S n_vector)) in
  let jk_indices := Np.arange2 1 (Nat.div2 n_vector) in
  rjk ← Np.take r_right jk_indices;
  r_left ← Np.iop_at vsub r_left ij_indices rjk;
  rij ← Np.take r_right ij_indices;
  r_left ← Np.iop_at vsub r_left jk_indices rij;
  let frc_angle_ij :=
    fmap (M := list)
         (λ v : R * R, (angle_k0 prm * v.1, angle_k0 prm * v.2)) r_left in
  pairs ← Np.reshape2 (n_vector / 2) frc_angle_ij;
  let frc_angle_k :=
    fmap (M := list)
         (λ p : (R * R) * (R * R), (- (p.1.1 + p.2.1), - (p.1.2 + p.2.2)))
         pairs in
  Ok (frc_angle_ij, frc_angle_k).

(** One statement of a [try] body at a time: the accumulators as they are
    when the body ends or raises. *)
Fixpoint run_stmts (stmts : list (acc → result acc)) (st : acc)
  : acc * option exn :=
  match stmts with
  | [] => (st, None)
  | s :: stmts' =>
      match s st with
      | Ok st' => run_stmts stmts' st'
      | Raise e => (st, Some e)
      end
  end.

Definition iadd_x (idx : list nat) (v : list R) (st : acc) : result acc :=
  fx ← Np.iadd_at (f_beads_x st) idx v;
  Ok {| pot_energy := pot_energy st; f_beads_x := fx;
        f_beads_y := f_beads_y st |}.

Definition iadd_y (idx : list nat) (v : list R) (st : acc) : result acc :=
  fy ← Np.iadd_at (f_beads_y st) idx v;
  Ok {| pot_energy := pot_energy st; f_beads_x := f_beads_x st;
        f_beads_y := fy |}.

(** Lines 164-204, the body of the [try]: the accumulators it leaves behind
    and the exception, if any, that ended it. *)
Definition angle_block (pos : list (R * R)) (cell_dim : R * R)
  (angle_indices : list (nat * nat * nat))
  (angle_bond_indices : list (list nat)) (st : acc) : acc * option exn :=
  match angle_vectors pos cell_dim angle_bond_indices with
  | Raise e => (st, Some e)
  | Ok vector =>
      let r_vector := fmap norm vector in
      match cos_sin_theta vector r_vector with
      | Raise e => (st, Some e)
      | Ok (cos_the, sin_the, r_prod) =>
          let st1 :=
            {| pot_energy :=
                 pot_energy st
                 + angle_k0 prm * Np.sum (fmap (λ c, c + 1) cos_the);
               f_beads_x := f_beads_x st; f_beads_y := f_beads_y st |} in
          match angle_forces vector r_vector sin_the r_prod with
          | Raise e => (st1, Some e)
          | Ok (frc_angle_ij, frc_angle_k) =>
              let n_vector := length vector in
              let ij_indices := Np.arange2 0 (Nat.div2 (S n_vector)) in
              let jk_indices := Np.arange2 1 (Nat.div2 n_vector) in
              match Np.take frc_angle_ij ij_indices,
                    Np.take frc_angle_ij jk_indices with
              | Ok f_ij, Ok f_jk =>
                  run_stmts
                    [ iadd_x (fmap (λ t, t.1.1) angle_indices) (fmap fst f_ij);
                      iadd_x (fmap (λ t, t.1.2) angle_indices)
                             (fmap fst frc_angle_k);
                      iadd_x (fmap (λ t, t.2) angle_indices) (fmap fst f_jk);
                      iadd_y (fmap (λ t, t.1.1) angle_indices) (fmap snd f_ij);
                      iadd_y (fmap (λ t, t.1.2) angle_indices)
                             (fmap snd frc_angle_k);
                      iadd_y (fmap (λ t, t.2) angle_indices) (fmap snd f_jk) ]
                    st1
              | Raise e, _ | _, Raise e => (st1, Some e)
              end
          end
      end
  end.

(** Lines 208-209: [non_zero], the pairs inside the cutoff radius. *)
Definition masked_r2 (pair_r2 : list (list R)) : list (list R) :=
  let verlet_list :=
    fmap (fmap (M := list) (λ r2, Ut.check_cutoff r2 (rc prm ^ 2)))
         pair_r2 in
  Np.mul2 pair_r2 verlet_list.

Definition cutoff_pairs (pair_r2 : list (list R)) : list (nat * nat) :=
  Np.nonzero2 (masked_r2 pair_r2).

(** Lines 130-131. *)
Definition cut_frc : R :=
  force_vdw (rc prm ^ 2) (vdw_sigma prm) (vdw_epsilon prm).
Definition cut_pot : R :=
  pot_vdw (rc prm ^ 2) (vdw_sigma prm) (vdw_epsilon prm).

(** Line 211: [nonbond_pot], one term for each pair of [non_zero]. *)
Definition nonbond_pot (pair_r2 vdw_coeff : list (list R))
  : result (list R) :=
  c ← Np.take2 vdw_coeff (cutoff_pairs pair_r2);
  m ← Np.take2 (masked_r2 pair_r2) (cutoff_pairs pair_r2);
  Ok (zip_with
        (λ c r2, c * pot_vdw r2 (vdw_sigma prm) (vdw_epsilon prm) - cut_pot)
        c m).

(** Line 214: [nonbond_frc]. *)
Definition nonbond_frc (pair_r2 vdw_coeff : list (list R))
  : result (list R) :=
  c ← Np.take2 vdw_coeff (cutoff_pairs pair_r2);
  m ← Np.take2 (masked_r2 pair_r2) (cutoff_pairs pair_r2);
  Ok (zip_with
        (λ c r2, c * force_vdw r2 (vdw_sigma prm) (vdw_epsilon prm) - cut_frc)
        c m).

(** Lines 215 and 218: [temp_xy[i]] for the axis whose displacements are
    [dist]. *)
Definition nonbond_temp (dist pair_r2 : list (list R)) (frc : list R)
  : result (list (list R)) :=
  let temp_xy := fmap (fmap (M := list) (λ _, 0)) dist in
  d ← Np.take2 dist (cutoff_pairs pair_r2);
  r ← Np.take2 pair_r2 (cutoff_pairs pair_r2);
  Np.iadd_at2 temp_xy (cutoff_pairs pair_r2)
    (zip_with Rmult frc (zip_with Rdiv d r)).

(** Line 220: one entry of the virial tensor. *)
Definition virial_entry (temp dist_i dist_j : list (list R))
  (virial_indicies : list (nat * nat)) : result R :=
  Np.sum <$> Np.take2 (Np.mul2 (Np.mul2 temp dist_i) dist_j) virial_indicies.

(** Lines 208-223, the non-bonded block and the virial tensor. *)
Definition nonbond_block (pair_dist : list (list R) * list (list R))
  (pair_r2 vdw_coeff : list (list R)) (virial_indicies : list (nat * nat))
  (st : acc) : result (acc * tensor) :=
  pot ← nonbond_pot pair_r2 vdw_coeff;
  let pe := pot_energy st + Np.sum pot / 2 in
  frc ← nonbond_frc pair_r2 vdw_coeff;
  t0 ← nonbond_temp pair_dist.1 pair_r2 frc;
  v00 ← virial_entry t0 pair_dist.1 pair_dist.1 virial_indicies;
  v01 ← virial_entry t0 pair_dist.1 pair_dist.2 virial_indicies;
  t1 ← nonbond_temp pair_dist.2 pair_r2 frc;
  v10 ← virial_entry t1 pair_dist.2 pair_dist.1 virial_indicies;
  v11 ← virial_entry t1 pair_dist.2 pair_dist.2 virial_indicies;
  fx ← Np.izip_with Rplus (f_beads_x st)
         (Np.sum_axis0 (length (f_beads_x st)) t0);
  fy ← Np.izip_with Rplus (f_beads_y st)
         (Np.sum_axis0 (length (f_beads_y st)) t1);
  Ok ({| pot_energy := pe; f_beads_x := fx; f_beads_y := fy |},
      ((v00, v01), (v10, v11))).

(** Lines 138-206: the bonded block and, inside it, the angular block in
    its [try ... except IndexError: pass]. *)
Definition bonded_blocks (pos : list (R * R)) (cell_dim : R * R)
  (pair_dist : list (list R) * list (list R)) (pair_r2 : list (list R))
  (bond_indices frc_indices : list (nat * nat))
  (angle_indices : list (nat * nat * nat))
  (angle_bond_indices : list (list nat)) (st : acc) : result acc :=
  if (0 <? length bond_indices)%nat then
    st1 ← bond_block (length pos) pair_dist pair_r2 bond_indices
            frc_indices st;
    match angle_block pos cell_dim angle_indices angle_bond_indices st1 with
    | (st2, None) => Ok st2
    | (st2, Some IndexError) => Ok st2
    | (_, Some ValueError) => Raise ValueError
    end
  else Ok st.

Definition calc_energy_forces (pos : list (R * R)) (cell_dim : R * R)
  (pos_indices : list (list (nat * nat)))
  (bond_indices frc_indices : list (nat * nat))
  (angle_indices : list (nat * nat * nat))
  (angle_bond_indices : list (list nat))
  (vdw_coeff : list (list R)) (virial_indicies : list (nat * nat))
  : result (R * list (R * R) * tensor) :=
  let st0 := {| pot_energy := 0; f_beads_x := Np.zeros (length pos);
                f_beads_y := Np.zeros (length pos) |} in
  pair_dist ← Ut.get_distances_mpi pos pos_indices cell_dim;
  let pair_r2 :=
    zip_with (zip_with (λ dx dy, dx ^ 2 + dy ^ 2)) pair_dist.1 pair_dist.2 in
  st1 ← bonded_blocks pos cell_dim pair_dist pair_r2 bond_indices
          frc_indices angle_indices angle_bond_indices st0;
  '(st2, virial_tensor) ← nonbond_block pair_dist pair_r2 vdw_coeff
                            virial_indicies st1;
  Ok (pot_energy st2, zip (f_beads_x st2) (f_beads_y st2), virial_tensor).

End force_field.

(** ** The integrators *)

(** The index structures one process passes to [calc_energy_forces]. *)
Record topology := {
  pos_indices : list (list (nat * nat));
  bond_indices : list (nat * nat);
  frc_indices : list (nat * nat);
  angle_indices : list (nat * nat * nat);
  angle_bond_indices : list (list nat);
  vdw_coeff : list (list R);
  virial_indicies : list (nat * nat)
}.

Section integrator.

Variables pot_vdw force_vdw : R → R → R → R.

(** [ut.kin_energy] and [ut.get_distances], which the integrators call but
    whose results no index structure depends on. *)
Variable kin_energy : list (R * R) → R → nat → R.
Variable get_distances : list (R * R) → R * R → list (list R) * list (list R).

Variable prm : param.

Definition calc_on (pos : list (R * R)) (cell_dim : R * R) (tp : topology)
  : result (R * list (R * R) * tensor) :=
  calc_energy_forces pot_vdw force_vdw prm pos cell_dim
    (pos_indices tp) (bond_indices tp) (frc_indices tp) (angle_indices tp)
    (angle_bond_indices tp) (vdw_coeff tp) (virial_indicies tp).

(** Lines 323 and 430: the periodic wrap of one position component, in
    exact arithmetic and with the unbounded integer of [Np.int]: the shift
    of the code when [(p + c) / c] lies within the range of a 64-bit
    integer, up to the rounding of the quotient, of the product and of the
    sum. *)
Definition wrap_shift (c p : R) : R := c * IZR (1 - Np.int ((p + c) / c)).

(** Lines 307-320 and 414-427: the kick and the drift, with the Gaussian
    draw [beta] of line 306 (or the broadcast draw of line 412) given.  The
    scale factor [mu] is used under [NPT] only.  Two limits of the model:
    the arrays are lists of pairs, so the definition follows the code for
    [n_dim = 2], and for another [n_dim] the draw of line 306 has [n_dim]
    columns and line 314 of the code raises a [ValueError] that the model
    does not have; [Rpower] is the cube root of line 312 for a positive
    base, and for a base that is zero or negative, where the code yields 0
    or NaN, the model says nothing about the code. *)
Definition kick_drift (beta pos vel frc : list (R * R))
  (virial_tensor : tensor) (dt : R) (cell_dim : R * R) (NPT : bool)
  : result (list (R * R) * list (R * R) * (R * R)) :=
  vel ← Np.izip_with vadd vel
          (fmap (λ f : R * R, (f.1 / mass prm * dt, f.2 / mass prm * dt)) frc);
  let mu :=
    let kin := kin_energy vel (mass prm) (n_dim prm) in
    let P_t := 1 / (cell_dim.1 * cell_dim.2 * INR (n_dim prm))
               * (kin - 0.5 * (virial_tensor.1.1 + virial_tensor.2.2)) in
    Rpower (1 + lambda_p prm * (P_t - P_0 prm)) (1 / 3) in
  d_vel ← Np.zip_with
            (λ b v : R * R, (sigma prm * b.1 - gamma prm * v.1,
                             sigma prm * b.2 - gamma prm * v.2)) beta vel;
  step ← Np.zip_with
           (λ v d : R * R, ((v.1 + 0.5 * d.1) * dt, (v.2 + 0.5 * d.2) * dt))
           vel d_vel;
  pos ← Np.izip_with vadd pos step;
  vel ← Np.izip_with vadd vel d_vel;
  if NPT then
    Ok (fmap (M := list) (λ p : R * R, (mu * p.1, mu * p.2)) pos, vel,
        (mu * cell_dim.1, mu * cell_dim.2))
  else Ok (pos, vel, cell_dim).

(** Lines 322-323 and 429-430: the periodic wrap. *)
Definition periodic_wrap (pos : list (R * R)) (cell_dim : R * R)
  : result (list (R * R)) :=
  let cell := replicate (n_bead prm) cell_dim in
  shift ← Np.zip_with
            (λ p c : R * R, (wrap_shift c.1 p.1, wrap_shift c.2 p.2))
            pos cell;
  Np.izip_with vadd pos shift.

(** Lines 307-323 and 414-430. *)
Definition kinematic_update (beta pos vel frc : list (R * R))
  (virial_tensor : tensor) (dt : R) (cell_dim : R * R) (NPT : bool)
  : result (list (R * R) * list (R * R) * (R * R)) :=
  '(pos, vel, cell_dim) ← kick_drift beta pos vel frc virial_tensor dt
                            cell_dim NPT;
  pos ← periodic_wrap pos cell_dim;
  Ok (pos, vel, cell_dim).

Definition velocity_verlet_alg (beta pos vel frc : list (R * R))
  (virial_tensor : tensor) (tp : topology) (dt sqrt_dt : R)
  (cell_dim : R * R) (NPT : bool)
  : result (list (R * R) * list (R * R) * list (R * R) * (R * R) * R
            * tensor * list (list R)) :=
  '(pos, vel, cell_dim) ← kinematic_update beta pos vel frc virial_tensor
                            dt cell_dim NPT;
  let distances := get_distances pos cell_dim in
  let r2 :=
    zip_with (zip_with (λ dx dy, dx ^ 2 + dy ^ 2)) distances.1 distances.2 in
  '(pot_energy, frc, virial_tensor) ← calc_on pos cell_dim tp;
  Ok (pos, vel, frc, cell_dim, pot_energy, virial_tensor, r2).

(** *** The SPMD step: every rank runs [velocity_verlet_alg_mpi] *)

(** What one rank passes in: its copy of the replicated state and its slice
    of the index structures. *)
Record rank_state := {
  rk_pos : list (R * R); rk_vel : list (R * R); rk_frc : list (R * R);
  rk_virial : tensor; rk_topology : topology; rk_cell_dim : R * R
}.

(** What one rank returns.  [out_pot_energy] is [None] where Python has the
    value [None] instead of a number. *)
Record rank_out := {
  out_pos : list (R * R); out_vel : list (R * R); out_frc : list (R * R);
  out_cell_dim : R * R; out_pot_energy : option R; out_virial : tensor
}.

(** [comm.gather(x, root)]: the list of all contributions on the root,
    [None] on every other rank. *)
Definition comm_gather {A} (root rank : nat) (xs : list A)
  : option (list A) :=
  if (rank =? root)%nat then Some xs else None.

(** [comm.allreduce(x, op=MPI.SUM)] on arrays of shape (n, 2): the sum of
    all contributions, on every rank. *)
Fixpoint allreduce_frc (xs : list (list (R * R))) : result (list (R * R)) :=
  match xs with
  | [] => Raise ValueError
  | [x] => Ok x
  | x :: xs' => s ← allreduce_frc xs'; Np.zip_with vadd x s
  end.

Definition allreduce_tensor (xs : list tensor) : tensor :=
  foldr tensor_add tensor_zero xs.

(** Lines 410-433 on one rank, with the draw broadcast from rank 0. *)
Definition local_step (beta : list (R * R)) (dt : R) (NPT : bool)
  (s : rank_state)
  : result (list (R * R) * list (R * R) * (R * R)
            * (R * list (R * R) * tensor)) :=
  '(pos, vel, cell_dim) ← kinematic_update beta (rk_pos s) (rk_vel s)
                            (rk_frc s) (rk_virial s) dt (rk_cell_dim s) NPT;
  part ← calc_on pos cell_dim (rk_topology s);
  Ok (pos, vel, cell_dim, part).

(** Lines 435-437 on rank [rank]: the reduction of the partial results of
    all ranks. *)
Definition reduce_on (rank : nat)
  (locals : list (list (R * R) * list (R * R) * (R * R)
                  * (R * list (R * R) * tensor)))
  (mine : list (R * R) * list (R * R) * (R * R)
          * (R * list (R * R) * tensor)) : result rank_out :=
  let pot_energy :=
    Np.sum <$> comm_gather 0 rank (fmap (λ l, l.2.1.1) locals) in
  frc ← allreduce_frc (fmap (λ l, l.2.1.2) locals);
  let virial_tensor := allreduce_tensor (fmap (λ l, l.2.2) locals) in
  Ok {| out_pos := mine.1.1.1; out_vel := mine.1.1.2; out_frc := frc;
        out_cell_dim := mine.1.2; out_pot_energy := pot_energy;
        out_virial := virial_tensor |}.

(** The step of the whole communicator: the result of every rank, in rank
    order.  A rank that raises before the reduction leaves the collective
    without its partner, and the step as a whole fails. *)
Definition velocity_verlet_alg_mpi (beta : list (R * R))
  (ranks : list rank_state) (dt sqrt_dt : R) (NPT : bool)
  : result (list rank_out) :=
  locals ← mapM (local_step beta dt NPT) ranks;
  mapM (λ im, reduce_on im.1 locals im.2) (zip (seq 0 (length locals)) locals).

End integrator.

(** ** Slices of the index structures

    A process owns a block of rows of the pair arrays.  Its [bond_indices]
    and [virial_indicies] point into its own block, its [frc_indices] and
    its angle arrays name beads.  [join] is the index structure of the two
    blocks put one after the other. *)

Definition shift (k : nat) (idx : list nat) : list nat :=
  (λ i, (k + i)%nat) <$> idx.

Definition shift_rows (k : nat) (idx : list (nat * nat)) : list (nat * nat) :=
  fmap (λ ij : nat * nat, ((k + ij.1)%nat, ij.2)) idx.

Definition join (s1 s2 : topology) : topology :=
  {| pos_indices := pos_indices s1 ++ pos_indices s2;
     bond_indices :=
       bond_indices s1
       ++ shift_rows (length (pos_indices s1)) (bond_indices s2);
     frc_indices := frc_indices s1 ++ frc_indices s2;
     angle_indices := angle_indices s1 ++ angle_indices s2;
     angle_bond_indices :=
       zip_with app (angle_bond_indices s1) (angle_bond_indices s2);
     vdw_coeff := vdw_coeff s1 ++ vdw_coeff s2;
     virial_indicies :=
       virial_indicies s1
       ++ shift_rows (length (pos_indices s1)) (virial_indicies s2) |}.

Definition no_topology : topology :=
  {| pos_indices := []; bond_indices := []; frc_indices := [];
     angle_indices := []; angle_bond_indices := [[]; []];
     vdw_coeff := []; virial_indicies := [] |}.

Definition join_all (slices : list topology) : topology :=
  foldr join no_topology slices.

Definition in_shape (a b : nat) (ij : nat * nat) : Prop :=
  (ij.1 < a)%nat ∧ (ij.2 < b)%nat.

(** A two-dimensional array of shape (a, b). *)
Definition shape (a b : nat) (m : list (list R)) : Prop :=
  length m = a ∧ Forall (λ row, length row = b) m.

(** The entry [m[a][b]], if there is one. *)
Definition entry (m : list (list R)) (a b : nat) : option R :=
  m !! a ≫= λ row, row !! b.

(** A slice that fits [n] beads: the arrays have the shapes the force field
    expects, every index is in range, no entry of [frc_indices] and no bead
    in a column of [angle_indices] occurs twice, and angles come with
    bonds. *)
Record wf_slice (n : nat) (tp : topology) : Prop := {
  wf_grid_cols : Forall (λ row, length row = n) (pos_indices tp);
  wf_grid_rng : Forall (Forall (in_shape n n)) (pos_indices tp);
  wf_vdw_rows : length (vdw_coeff tp) = length (pos_indices tp);
  wf_vdw_cols : Forall (λ row, length row = n) (vdw_coeff tp);
  wf_virial :
    Forall (in_shape (length (pos_indices tp)) n) (virial_indicies tp);
  wf_bond : Forall (in_shape (length (pos_indices tp)) n) (bond_indices tp);
  wf_frc : Forall (in_shape n n) (frc_indices tp);
  wf_frc_len : length (frc_indices tp) = length (bond_indices tp);
  wf_frc_nodup : NoDup (frc_indices tp);
  wf_abi :
    ∃ i0 i1, angle_bond_indices tp = [i0; i1]
      ∧ length i0 = (2 * length (angle_indices tp))%nat
      ∧ length i1 = (2 * length (angle_indices tp))%nat
      ∧ Forall (λ i, (i < n)%nat) i0 ∧ Forall (λ i, (i < n)%nat) i1;
  wf_angle_rng :
    Forall (λ t : nat * nat * nat, (t.1.1 < n ∧ t.1.2 < n ∧ t.2 < n)%nat)
           (angle_indices tp);
  wf_angle_nodup :
    NoDup (fmap (λ t : nat * nat * nat, t.1.1) (angle_indices tp))
    ∧ NoDup (fmap (λ t : nat * nat * nat, t.1.2) (angle_indices tp))
    ∧ NoDup (fmap (λ t : nat * nat * nat, t.2) (angle_indices tp));
  wf_gate : bond_indices tp = [] → angle_indices tp = []
}.

(** No pair of [frc_indices] and no bead in a column of [angle_indices]
    is a target of the same scatter twice. *)
Definition scatter_once (tp : topology) : Prop :=
  NoDup (frc_indices tp)
  ∧ NoDup (fmap (λ t : nat * nat * nat, t.1.1) (angle_indices tp))
  ∧ NoDup (fmap (λ t : nat * nat * nat, t.1.2) (angle_indices tp))
  ∧ NoDup (fmap (λ t : nat * nat * nat, t.2) (angle_indices tp)).

(** [np.add.at(f, idx, vals)]: the scatter that accumulates, one entry
    after the other. *)
Definition accum (idx : list nat) (vals : list R) (f : list R) : list R :=
  foldl (λ f iv, Np.add_at iv.1 iv.2 f) f (zip idx vals).

(** The entry-wise sum of two sets of accumulators. *)
Definition acc_add (a b : acc) : acc :=
  {| pot_energy := pot_energy a + pot_energy b;
     f_beads_x := zip_with Rplus (f_beads_x a) (f_beads_x b);
     f_beads_y := zip_with Rplus (f_beads_y a) (f_beads_y b) |}.

(** The sum of two results of [calc_energy_forces]. *)
Definition result_add (r1 r2 : R * list (R * R) * tensor)
  : R * list (R * R) * tensor :=
  (r1.1.1 + r2.1.1, zip_with vadd r1.1.2 r2.1.2, tensor_add r1.2 r2.2).

(** The sums the reduction forms. *)
Definition frc_sum (n : nat) (fs : list (list (R * R))) : list (R * R) :=
  foldr (zip_with vadd) (replicate n (0, 0)) fs.

Definition tensor_sum (vs : list tensor) : tensor :=
  foldr tensor_add tensor_zero vs.

(** A position inside the cell. *)
Definition in_cell (cell_dim p : R * R) : Prop :=
  (0 <= p.1 < cell_dim.1) ∧ (0 <= p.2 < cell_dim.2).

(** ** Example configurations *)

(** Stand-ins for [ut.kin_energy] and [ut.get_distances] in the examples;
    with [NPT] off no result depends on the first, and the second only
    yields the returned squared distances. *)
Definition kin_energy_demo : list (R * R) → R → nat → R := λ _ _ _, 0.
Definition get_distances_demo
  : list (R * R) → R * R → list (list R) * list (list R) := λ _ _, ([], []).

(** One free bead, no thermostat. *)
Definition prm_one_bead : param :=
  {| mass := 1; n_dim := 2; n_bead := 1; vdw_sigma := 1; vdw_epsilon := 1;
     rc := 1; bond_r0 := 1; bond_k0 := 100; angle_k0 := 10;
     sigma := 0; gamma := 0; lambda_p := 0; P_0 := 0 |}.

(** Two beads one unit apart, each the other's pair, inside a cutoff of
    three units. *)
Definition prm_two_beads : param :=
  {| mass := 1; n_dim := 2; n_bead := 2; vdw_sigma := 1; vdw_epsilon := 1;
     rc := 3; bond_r0 := 1; bond_k0 := 100; angle_k0 := 10;
     sigma := 0; gamma := 0; lambda_p := 0; P_0 := 0 |}.

Definition grid_two_beads : list (list (nat * nat)) :=
  [[(0, 0); (0, 1)]; [(1, 0); (1, 1)]]%nat.

(** Two beads at (0, 0) and (3, 4), with [vdw_sigma] 5 and a cutoff of ten
    units. *)
Definition prm_oblique : param :=
  {| mass := 1; n_dim := 2; n_bead := 2; vdw_sigma := 5; vdw_epsilon := 1;
     rc := 10; bond_r0 := 1; bond_k0 := 100; angle_k0 := 10;
     sigma := 0; gamma := 0; lambda_p := 0; P_0 := 0 |}.

(** One rank of a communicator: a single bead at rest and no interactions. *)
Definition rank_at_rest : rank_state :=
  {| rk_pos := [(1, 1)]; rk_vel := [(0, 0)]; rk_frc := [(0, 0)];
     rk_virial := tensor_zero; rk_topology := no_topology;
     rk_cell_dim := (2, 2) |}.

(** Three beads on a corner, (0, 0), (1, 0) and (1, 1), in a cell of ten
    units, with a cutoff of half a unit: one angle at the middle bead. *)
Definition prm_corner : param :=
  {| mass := 1; n_dim := 2; n_bead := 3; vdw_sigma := 1; vdw_epsilon := 1;
     rc := 1 / 2; bond_r0 := 1; bond_k0 := 100; angle_k0 := 10;
     sigma := 0; gamma := 0; lambda_p := 0; P_0 := 0 |}.

Definition pos_corner : list (R * R) := [(0, 0); (1, 0); (1, 1)].

Definition cell_corner : R * R := (10, 10).

(** The rows of the first bead, with its bond to the second bead and the
    angle; and the rows of the other two beads with their bonds. *)
Definition slice_head : topology :=
  {| pos_indices := [[(0, 0); (0, 1); (0, 2)]]%nat;
     bond_indices := [(0, 1)]%nat;
     frc_indices := [(0, 1)]%nat;
     angle_indices := [(0, 1, 2)]%nat;
     angle_bond_indices := [[1; 1]; [0; 2]]%nat;
     vdw_coeff := [[0; 1; 1]];
     virial_indicies := [(0, 1); (0, 2)]%nat |}.

Definition slice_tail : topology :=
  {| pos_indices := [[(1, 0); (1, 1); (1, 2)]; [(2, 0); (2, 1); (2, 2)]]%nat;
     bond_indices := [(0, 0); (0, 2); (1, 1)]%nat;
     frc_indices := [(1, 0); (1, 2); (2, 1)]%nat;
     angle_indices := [];
     angle_bond_indices := [[]; []];
     vdw_coeff := [[1; 0; 1]; [1; 1; 0]];
     virial_indicies := [] |}.

(** The same three beads cut so that one slice holds the bond of the first
    bead and the other holds the angle and no bond. *)
Definition slice_bonds : topology :=
  {| pos_indices := [[(0, 0); (0, 1); (0, 2)]]%nat;
     bond_indices := [(0, 1)]%nat;
     frc_indices := [(0, 1)]%nat;
     angle_indices := [];
     angle_bond_indices := [[]; []];
     vdw_coeff := [[0; 0; 0]];
     virial_indicies := [] |}.

Definition slice_angles : topology :=
  {| pos_indices := [];
     bond_indices := [];
     frc_indices := [];
     angle_indices := [(0, 1, 2)]%nat;
     angle_bond_indices := [[1; 1]; [0; 2]]%nat;
     vdw_coeff := [];
     virial_indicies := [] |}.

(** One bead and its pair with itself, as a slice of its own. *)
Definition slice_one_bead : topology :=
  {| pos_indices := [[(0, 0)]]%nat; bond_indices := []; frc_indices := [];
     angle_indices := []; angle_bond_indices := [[]; []];
     vdw_coeff := [[0]]; virial_indicies := [(0, 0)]%nat |}.

(** ** The vectors of every pair exchanged

    The array of bond vectors holds the two vectors of an angle one after
    the other; [swap_pairs] exchanges the two of every angle. *)
Fixpoint swap_pairs {A} (l : list A) : list A :=
  match l with
  | a :: b :: l' => b :: a :: swap_pairs l'
  | _ => l
  end.

(** ** [main.py]: which modules run, and in which order *)

Module Main.

(** The calls the script makes into the rest of the program, and its
    prompt. *)
Inductive call :=
| logo
| input_modules
| simulation (current_dir : string) (input_file_name : option string)
| analysis (current_dir : string) (input_file_name : option string)
| editor (current_dir : string) (input_file_name : option string)
| learning (current_dir : string)
| speed_test (current_dir : string) (input_file_name : option string)
| experimental_image (current_dir : string) (input_file_name : string).

Definition module_names : list string :=
  ["simulation"; "analysis"; "editor"; "learning"; "speed"; "experimental"]%string.

(** Lines 17-24: the modules named in [sys.argv], in the order of the six
    tests. *)
Definition argv_modules (argv : list string) : list string :=
  filter (λ m, m ∈ argv) module_names.

(** [l.index(x)]: the first position of [x]. *)
Fixpoint index (x : string) (l : list string) : result nat :=
  match l with
  | [] => Raise ValueError
  | y :: l' => if decide (y = x) then Ok 0%nat else S <$> index x l'
  end.

(** [sys.argv[sys.argv.index(flag) + 1]]. *)
Definition argument_of (flag : string) (argv : list string) : result string :=
  i ← index flag argv; Np.getitem argv (i + 1).

(** Lines 30-31; [None] is the value [False]. *)
Definition input_file (current_dir : string) (argv : list string)
  : result (option string) :=
  if decide ("-input"%string ∈ argv) then
    name ← argument_of "-input" argv;
    Ok (Some (current_dir +:+ "/" +:+ name))
  else Ok None.

(** [s.endswith(suffix)]. *)
Definition endswith (s suffix : string) : Prop :=
  String.list_ascii_of_string suffix `suffix_of` String.list_ascii_of_string s.

Global Instance endswith_dec s suffix : Decision (endswith s suffix).
Proof. unfold endswith. apply _. Defined.

(** Lines 48-57, with the directory listing [os.listdir(current_dir)]
    given. *)
Definition experimental (current_dir : string) (argv listing : list string)
  : list call * option exn :=
  if decide ("-all"%string ∈ argv) then
    (experimental_image current_dir
       <$> filter (λ f, endswith f ".tif") listing, None)
  else if decide ("-name"%string ∈ argv) then
    match argument_of "-name" argv with
    | Ok name => ([experimental_image current_dir name], None)
    | Raise e => ([], Some e)
    end
  else ([], None).

Definition when (b : Prop) `{Decision b} (c : call) : list call :=
  if decide b then [c] else [].

(** The script: the calls it makes, in order, and the exception that ends
    it, if any.  [typed] is the line the user enters at the prompt,
    lower-cased and split at white space. *)
Definition main (argv : list string) (current_dir : string)
  (typed listing : list string) : list call * option exn :=
  let named := argv_modules argv in
  let modules := if (length named =? 0)%nat then typed else named in
  let start :=
    logo :: (if (length named =? 0)%nat then [input_modules] else []) in
  match input_file current_dir argv with
  | Raise e => (start, Some e)
  | Ok input_file_name =>
      let before :=
        start
        ++ when ("simulation"%string ∈ modules)
             (simulation current_dir input_file_name)
        ++ when ("analysis"%string ∈ modules)
             (analysis current_dir input_file_name)
        ++ when ("editor"%string ∈ modules)
             (editor current_dir input_file_name)
        ++ when ("learning"%string ∈ modules) (learning current_dir)
        ++ when ("speed"%string ∈ modules)
             (speed_test current_dir input_file_name) in
      if decide ("experimental"%string ∈ modules) then
        let '(calls, e) := experimental current_dir argv listing in
        (before ++ calls, e)
      else (before, None)
  end.

End Main.

(** * Properties *)

(** ** Facts about the numpy fragment *)

Module NpFacts.

Lemma bind_ok {A B} (m : result A) (f : A → result B) b :
  m ≫= f = Ok b ↔ ∃ a, m = Ok a ∧ f a = Ok b.
Proof.
  destruct m as [a|e]; cbn; split.
  - eauto.
  - by intros (? & [= ->] & ?).
  - done.
  - by intros (? & ? & ?).
Qed.

Lemma Rltb_true a b : a < b → Np.Rltb a b = true.
Proof. unfold Np.Rltb. destruct (Rlt_dec a b); [done|contradiction]. Qed.

Lemma Rltb_false a b : b <= a → Np.Rltb a b = false.
Proof. unfold Np.Rltb. destruct (Rlt_dec a b); [lra|done]. Qed.

Lemma Rnonzero_true x : x ≠ 0 → Np.Rnonzero x = true.
Proof. unfold Np.Rnonzero. destruct (Req_dec_T x 0); [contradiction|done]. Qed.

Lemma Rnonzero_false x : x = 0 → Np.Rnonzero x = false.
Proof. unfold Np.Rnonzero. destruct (Req_dec_T x 0); [done|contradiction]. Qed.

Lemma nearest_eq z x : IZR z <= x + 1 / 2 < IZR z + 1 → Ut.nearest x = z.
Proof. intros. unfold Ut.nearest. by apply Zfloor_eq. Qed.

Lemma int_eq_nonneg z x : 0 <= x → IZR z <= x < IZR z + 1 → Np.int x = z.
Proof.
  intros. unfold Np.int. destruct (Rle_dec 0 x); [|lra]. by apply Zfloor_eq.
Qed.

Lemma int_eq_neg z x : x < 0 → IZR z - 1 < x <= IZR z → Np.int x = z.
Proof.
  intros. unfold Np.int. destruct (Rle_dec 0 x); [lra|]. by apply Zceil_eq.
Qed.

(** Truncation: the integer between [x] and 0 that is nearest to [x]. *)
Lemma int_bounds x :
  (0 <= x → IZR (Np.int x) <= x < IZR (Np.int x) + 1)
  ∧ (x < 0 → IZR (Np.int x) - 1 < x <= IZR (Np.int x)).
Proof.
  unfold Np.int. destruct (Rle_dec 0 x); split; intros; try lra.
  - apply Zfloor_bound.
  - apply Zceil_bound.
Qed.

(** *** Sums *)

Lemma sum_app l1 l2 : Np.sum (l1 ++ l2) = Np.sum l1 + Np.sum l2.
Proof.
  unfold Np.sum. induction l1 as [|x l1 IH]; cbn; [lra|]. rewrite IH. lra.
Qed.

Lemma sum_cons x l : Np.sum (x :: l) = x + Np.sum l.
Proof. done. Qed.

Lemma sum_zeros n : Np.sum (Np.zeros n) = 0.
Proof.
  unfold Np.sum, Np.zeros. induction n as [|n IH]; cbn; [done|].
  rewrite IH. lra.
Qed.

Lemma sum_insert (l : list R) i x y :
  l !! i = Some x → Np.sum (<[i := y]> l) = Np.sum l + y - x.
Proof.
  unfold Np.sum. revert i.
  induction l as [|a l IH]; intros [|i] H; simpl in *; try done.
  - injection H as ->. lra.
  - rewrite (IH _ H). lra.
Qed.

(** *** Pairs of consecutive elements *)

Lemma list_ind2 {A} (P : list A → Prop) :
  P [] → (∀ a, P [a]) → (∀ a b l, P l → P (a :: b :: l)) → ∀ l, P l.
Proof.
  intros H0 H1 H2 l. cut (P l ∧ ∀ a, P (a :: l)); [tauto|].
  induction l as [|b l [IH1 IH2]]; split; auto.
Qed.

Lemma chunk2_map {A B} (f : A → B) l :
  Np.chunk2 (f <$> l) = (λ p, (f p.1, f p.2)) <$> Np.chunk2 l.
Proof.
  induction l as [|a|a b l IH] using list_ind2; cbn; [done..|]. by rewrite IH.
Qed.

Lemma length_chunk2 {A} (l : list A) :
  length (Np.chunk2 l) = (length l / 2)%nat.
Proof.
  induction l as [|a|a b l IH] using list_ind2; cbn [Np.chunk2 length];
    [done..|].
  rewrite IH. change (S (S (length l))) with (1 * 2 + length l)%nat.
  by rewrite Nat.div_add_l.
Qed.

Lemma elem_of_chunk2 {A} (l : list A) p :
  p ∈ Np.chunk2 l → p.1 ∈ l ∧ p.2 ∈ l.
Proof.
  induction l as [|a|a b l IH] using list_ind2; cbn; try by inversion 1.
  intros [->|H]%elem_of_cons; cbn.
  - split; [left|right; left].
  - destruct (IH H). split; by do 2 right.
Qed.

Lemma chunk2_app {A} (l1 l2 : list A) :
  Nat.Even (length l1) →
  Np.chunk2 (l1 ++ l2) = Np.chunk2 l1 ++ Np.chunk2 l2.
Proof.
  induction l1 as [|a|a b l1 IH] using list_ind2; cbn; [done|..].
  - intros [k Hk]. lia.
  - intros [k Hk]. rewrite IH; [done|]. exists (k - 1)%nat. lia.
Qed.

Lemma reshape2_even {A} (l : list A) :
  Nat.Even (length l) → Np.reshape2 (length l / 2) l = Ok (Np.chunk2 l).
Proof.
  intros [k Hk]. unfold Np.reshape2. rewrite Hk.
  replace (2 * k / 2)%nat with k by (rewrite Nat.mul_comm, Nat.div_mul; lia).
  by rewrite Nat.eqb_refl.
Qed.

Lemma reshape2_ok {A} k (l : list A) ps :
  Np.reshape2 k l = Ok ps → length l = (2 * k)%nat ∧ ps = Np.chunk2 l.
Proof.
  unfold Np.reshape2. destruct (Nat.eqb_spec (length l) (2 * k)); [|done].
  by intros [= <-].
Qed.

(** *** Index arrays *)

Lemma mapM_ok {A B} (f : A → result B) l k :
  mapM f l = Ok k ↔ Forall2 (λ x y, f x = Ok y) l k.
Proof.
  revert k. induction l as [|x l IH]; intros k; cbn.
  - split; [intros [= <-]; constructor | by inversion 1].
  - split.
    + intros (y & Hy & H)%bind_ok. apply bind_ok in H as (k' & Hk & [= <-]).
      constructor; [done|]. by apply IH.
    + inversion 1 as [|? y ? k' Hy Hk]; subst. rewrite Hy. cbn.
      apply IH in Hk. rewrite Hk. done.
Qed.

Lemma mapM_fmap {A B} (f : A → result B) (g : A → B) l :
  Forall (λ x, f x = Ok (g x)) l → mapM f l = Ok (g <$> l).
Proof.
  intros H. apply mapM_ok. induction H; constructor; auto.
Qed.

Lemma mapM_app {A B} (f : A → result B) l1 l2 k1 k2 :
  mapM f l1 = Ok k1 → mapM f l2 = Ok k2 → mapM f (l1 ++ l2) = Ok (k1 ++ k2).
Proof. rewrite !mapM_ok. apply Forall2_app. Qed.

Lemma getitem_ok {A} (a : list A) i x :
  Np.getitem a i = Ok x ↔ a !! i = Some x.
Proof.
  unfold Np.getitem. destruct (a !! i); split; intros H; by inversion H.
Qed.

Lemma getitem_total `{Inhabited A} (a : list A) i :
  (i < length a)%nat → Np.getitem a i = Ok (a !!! i).
Proof.
  intros Hi. apply getitem_ok. by apply list_lookup_lookup_total_lt.
Qed.

Lemma take_total `{Inhabited A} (a : list A) idx :
  Forall (λ i, (i < length a)%nat) idx →
  Np.take a idx = Ok ((λ i, a !!! i) <$> idx).
Proof.
  intros Hr. apply mapM_fmap. eapply Forall_impl; [done|].
  intros i Hi. by apply getitem_total.
Qed.

Lemma take_inv `{Inhabited A} (a : list A) idx v :
  Np.take a idx = Ok v →
  Forall (λ i, (i < length a)%nat) idx ∧ v = (λ i, a !!! i) <$> idx.
Proof.
  intros Hv. apply mapM_ok in Hv.
  induction Hv as [|i x idx v Hx _ [IH1 IH2]]; [done|].
  apply getitem_ok in Hx. split.
  - constructor; [by eapply lookup_lt_Some|done].
  - cbn. f_equal; [|done]. symmetry. by apply list_lookup_total_correct.
Qed.

Lemma getitem2_total (m : list (list R)) a b ij :
  length m = a → Forall (λ row, length row = b) m → in_shape a b ij →
  Np.getitem2 m ij = Ok ((m !!! ij.1) !!! ij.2).
Proof.
  intros <- Hm [Hi Hj]. unfold Np.getitem2.
  rewrite getitem_total by done. cbn. apply getitem_total.
  rewrite Forall_lookup in Hm. erewrite Hm; [done|].
  by apply list_lookup_lookup_total_lt.
Qed.

Lemma take2_total (m : list (list R)) a b idx :
  length m = a → Forall (λ row, length row = b) m →
  Forall (in_shape a b) idx →
  Np.take2 m idx = Ok ((λ ij, (m !!! ij.1) !!! ij.2) <$> idx).
Proof.
  intros Ha Hm Hr. apply mapM_fmap. eapply Forall_impl; [done|].
  intros ij Hij. by eapply getitem2_total.
Qed.

Lemma zip_with_eq_len {A B C} (f : A → B → C) a b :
  length a = length b → Np.zip_with f a b = Ok (zip_with f a b).
Proof. intros E. unfold Np.zip_with. by rewrite E, Nat.eqb_refl. Qed.

Lemma broadcast_to_eq_len {A} n (v : list A) :
  length v = n → Np.broadcast_to n v = Ok v.
Proof. intros <-. unfold Np.broadcast_to. by rewrite Nat.eqb_refl. Qed.

Lemma izip_with_eq_len {A B} (f : A → B → A) a b :
  length a = length b → Np.izip_with f a b = Ok (zip_with f a b).
Proof.
  intros E. unfold Np.izip_with. by rewrite broadcast_to_eq_len.
Qed.

End NpFacts.

Import NpFacts.

(** ** Evaluation of the model on concrete arrays *)

Ltac np_cbv :=
  cbv -[Rplus Rminus Rmult Rdiv Rinv Ropp IZR sqrt pow Rpower Zfloor Zceil
        Np.Rltb Np.Rnonzero Np.int Ut.nearest Rlt_dec Rle_dec Req_dec_T
        Ut.lj_pot_vdw Ut.lj_force_vdw].

Ltac try_z tac :=
  first [tac 0%Z | tac 1%Z | tac (-1)%Z | tac 2%Z | tac (-2)%Z
        | tac 3%Z | tac (-3)%Z].

Ltac np_decide :=
  match goal with
  | |- context [Ut.nearest ?x] =>
      try_z ltac:(fun z => rewrite (nearest_eq z x) by (simpl; lra))
  | |- context [Np.int ?x] =>
      try_z ltac:(fun z =>
        first [rewrite (int_eq_nonneg z x) by (simpl; lra)
              | rewrite (int_eq_neg z x) by (simpl; lra)])
  | |- context [Np.Rltb ?a ?b] =>
      first [rewrite (Rltb_true a b) by lra
            | rewrite (Rltb_false a b) by lra]
  | |- context [Np.Rnonzero ?a] =>
      first [rewrite (Rnonzero_true a) by lra
            | rewrite (Rnonzero_false a) by lra]
  end.

Ltac np_eval := np_cbv; repeat (progress (repeat np_decide); np_cbv).

(** ** The periodic wrap *)

Lemma wrap_shift_in_cell c p :
  0 < c → - c <= p → 0 <= p + wrap_shift c p < c.
Proof.
  intros Hc Hp. unfold wrap_shift. rewrite minus_IZR.
  set (x := (p + c) / c).
  assert (Hx : x * c = p + c) by (unfold x; field; lra).
  assert (H0 : 0 <= x).
  { unfold x. apply Rmult_le_pos; [lra|]. left. by apply Rinv_0_lt_compat. }
  destruct (int_bounds x) as [Hb _]. specialize (Hb H0).
  set (t := IZR (Np.int x)) in *. nra.
Qed.

Lemma angle_wrap_minimum_image L d :
  0 < L → - L < d < L →
  - (L / 2) <= angle_wrap L d <= L / 2
  ∧ ∃ z : Z, angle_wrap L d = d - L * IZR z.
Proof.
  intros HL Hd. split; [|by eexists]. unfold angle_wrap.
  set (x := 2 * d / L).
  assert (Hx : x * L = 2 * d) by (unfold x; field; lra).
  assert (Hx2 : -2 < x < 2) by (split; nra).
  destruct (int_bounds x) as [Hp Hn].
  destruct (Rle_dec 0 x) as [H0|H0].
  - specialize (Hp H0).
    assert (Ht : Np.int x = 0%Z ∨ Np.int x = 1%Z).
    { assert (-1 < Np.int x)%Z by (apply lt_IZR; lra).
      assert (Np.int x < 2)%Z by (apply lt_IZR; lra). lia. }
    destruct Ht as [Ht|Ht]; rewrite Ht in *; nra.
  - assert (H0' : x < 0) by lra. specialize (Hn H0').
    assert (Ht : Np.int x = 0%Z ∨ Np.int x = (-1)%Z).
    { assert (-2 < Np.int x)%Z by (apply lt_IZR; lra).
      assert (Np.int x < 1)%Z by (apply lt_IZR; lra). lia. }
    destruct Ht as [Ht|Ht]; rewrite Ht in *; nra.
Qed.

Lemma periodic_wrap_total prm pos cell_dim :
  length pos = n_bead prm →
  periodic_wrap prm pos cell_dim
  = Ok ((λ p : R * R, (p.1 + wrap_shift cell_dim.1 p.1,
                       p.2 + wrap_shift cell_dim.2 p.2)) <$> pos).
Proof.
  intros Hn. unfold periodic_wrap.
  rewrite zip_with_eq_len by (by rewrite length_replicate).
  cbn [mbind result_bind].
  rewrite izip_with_eq_len
    by (rewrite length_zip_with_l_eq; [done|by rewrite length_replicate]).
  f_equal. rewrite <- Hn, zip_with_replicate_r_eq by done.
  rewrite zip_with_fmap_r, zip_with_diag. done.
Qed.

Lemma wrap_shift_image c p :
  0 < c → - c <= p → (p + c) / c < 2 ^ 63 →
  ∃ k : Z,
    (- 2 ^ 63 < k <= 1)%Z
    ∧ wrap_shift c p = c * IZR k
    ∧ 0 <= p + c * IZR k < c.
Proof.
  intros Hc Hp Hq. exists (1 - Np.int ((p + c) / c))%Z.
  pose proof (wrap_shift_in_cell c p Hc Hp) as Hin.
  unfold wrap_shift in *. split; [|by split].
  set (x := (p + c) / c) in *.
  assert (Hx : x * c = p + c) by (unfold x; field; lra).
  assert (H0 : 0 <= x) by nra.
  destruct (int_bounds x) as [Hb _]. specialize (Hb H0).
  assert (0 <= Np.int x)%Z.
  { apply Z.lt_succ_r, lt_IZR. rewrite succ_IZR. lra. }
  assert (Np.int x < 2 ^ 63)%Z.
  { apply lt_IZR. change (2 ^ 63)%Z with (2 ^ Z.of_nat 63)%Z.
    rewrite <- pow_IZR. lra. }
  lia.
Qed.

(** C6, as the code has it, in exact arithmetic: the wrap of lines 322-323
    and 429-430 is applied to whatever positions the kick and the drift
    leave, so the statement is about the wrap alone, for any pre-wrap
    positions [pos].  When the box lengths are positive, [pos] has
    [n_bead] rows, no component lies more than one box length below zero
    and every quotient [(p + cell) / cell] lies below 2^63, so that its
    conversion to a 64-bit integer does not overflow, the wrap returns
    positions inside the cell, each one the pre-wrap position moved by a
    whole number of box lengths.  The arithmetic is that of the reals: the
    rounding of the quotient, of the product and of the sum is not
    modelled, and a binary64 result may miss the cell by a rounding
    error. *)
Theorem wrap_within_cell prm pos cell_dim :
  0 < cell_dim.1 → 0 < cell_dim.2 →
  length pos = n_bead prm →
  Forall (λ p : R * R,
            (- cell_dim.1 <= p.1 ∧ (p.1 + cell_dim.1) / cell_dim.1 < 2 ^ 63)
            ∧ (- cell_dim.2 <= p.2
               ∧ (p.2 + cell_dim.2) / cell_dim.2 < 2 ^ 63)) pos →
  ∃ pos',
    periodic_wrap prm pos cell_dim = Ok pos'
    ∧ length pos' = length pos
    ∧ Forall (in_cell cell_dim) pos'
    ∧ Forall2 (λ p p' : R * R,
                 ∃ kx ky : Z,
                   (- 2 ^ 63 < kx <= 1)%Z ∧ (- 2 ^ 63 < ky <= 1)%Z
                   ∧ p'.1 = p.1 + cell_dim.1 * IZR kx
                   ∧ p'.2 = p.2 + cell_dim.2 * IZR ky) pos pos'.
Proof.
  intros Hx Hy Hn Hlow. rewrite (periodic_wrap_total _ _ _ Hn).
  eexists. split; [reflexivity|]. split; [by rewrite length_fmap|]. split.
  - apply Forall_fmap. eapply Forall_impl; [exact Hlow|].
    intros p [[H1 _] [H2 _]]. split; cbn; by apply wrap_shift_in_cell.
  - apply Forall2_fmap_r, Forall_Forall2_diag.
    eapply Forall_impl; [exact Hlow|].
    intros p [[H1 Q1] [H2 Q2]].
    destruct (wrap_shift_image cell_dim.1 p.1 Hx H1 Q1) as (kx & Kx & Ex & _).
    destruct (wrap_shift_image cell_dim.2 p.2 Hy H2 Q2) as (ky & Ky & Ey & _).
    exists kx, ky. cbn [fst snd]. rewrite Ex, Ey. done.
Qed.

Lemma wrap_within_cell_witness :
  ∃ pos',
    periodic_wrap prm_one_bead [(-1, 3)] (2, 2) = Ok pos'
    ∧ length pos' = 1%nat
    ∧ Forall (in_cell (2, 2)) pos'.
Proof.
  destruct (wrap_within_cell prm_one_bead [(-1, 3)] (2, 2))
    as (pos' & H1 & H2 & H3 & _).
  - cbn; lra.
  - cbn; lra.
  - reflexivity.
  - repeat constructor; cbn; lra.
  - exists pos'. auto.
Defined.

(** C6 as stated fails: a bead that the kinematic update moves more than
    one box length below zero is returned outside the cell. *)
Lemma wrap_leaves_cell :
  ∃ pos vel frc pe vir r2,
    velocity_verlet_alg Ut.lj_pot_vdw Ut.lj_force_vdw kin_energy_demo
      get_distances_demo prm_one_bead [(0, 0)] [(1, 1)] [(-4, 0)] [(0, 0)]
      tensor_zero no_topology 1 1 (2, 2) false
    = Ok (pos, vel, frc, (2, 2), pe, vir, r2)
    ∧ ¬ Forall (in_cell (2, 2)) pos.
Proof.
  do 6 eexists. split.
  - np_eval. reflexivity.
  - intros H. apply Forall_cons in H as [[[H _] _] _]. cbn in H. lra.
Qed.

(** ** The minimum image of the angle bond vectors *)

(** C7, as the code has it: for beads inside the cell, so that no
    displacement reaches one box length, line 165 yields a periodic image
    of the displacement with every component in [-cell_dim/2, cell_dim/2]. *)
Theorem angle_vectors_minimum_image prm pos cell_dim i0 i1 :
  n_dim prm = 2%nat → 0 < cell_dim.1 → 0 < cell_dim.2 →
  Forall (in_cell cell_dim) pos →
  length i0 = length i1 →
  Forall (λ i, (i < length pos)%nat) i0 →
  Forall (λ i, (i < length pos)%nat) i1 →
  ∃ vector,
    angle_vectors prm pos cell_dim [i0; i1] = Ok vector
    ∧ length vector = length i0
    ∧ ∀ k a b v,
        i0 !! k = Some a → i1 !! k = Some b → vector !! k = Some v →
        (- (cell_dim.1 / 2) <= v.1 <= cell_dim.1 / 2)
        ∧ (- (cell_dim.2 / 2) <= v.2 <= cell_dim.2 / 2)
        ∧ ∃ zx zy : Z,
            v.1 = (pos !!! a).1 - (pos !!! b).1 - cell_dim.1 * IZR zx
            ∧ v.2 = (pos !!! a).2 - (pos !!! b).2 - cell_dim.2 * IZR zy.
Proof.
  intros Hnd Hx Hy Hpos Hlen H0 H1. unfold angle_vectors.
  cbn [Np.getitem lookup list_lookup mbind result_bind].
  rewrite (take_total pos i0 H0). cbn [mbind result_bind].
  rewrite (take_total pos i1 H1). cbn [mbind result_bind].
  rewrite zip_with_eq_len by (by rewrite !length_fmap).
  cbn [mbind result_bind]. rewrite Hnd.
  eexists. split; [reflexivity|]. split.
  { rewrite length_fmap, length_zip_with_l_eq; rewrite !length_fmap; done. }
  intros k a b v Ha Hb Hv.
  rewrite list_lookup_fmap, lookup_zip_with, !list_lookup_fmap, Ha, Hb in Hv.
  cbn in Hv. injection Hv as <-. cbn.
  assert (Hin : ∀ i, (i < length pos)%nat → in_cell cell_dim (pos !!! i)).
  { intros i Hi. rewrite Forall_lookup in Hpos. eapply Hpos.
    by apply list_lookup_lookup_total_lt. }
  destruct (Hin a) as [Ha1 Ha2].
  { rewrite Forall_lookup in H0. by eapply H0. }
  destruct (Hin b) as [Hb1 Hb2].
  { rewrite Forall_lookup in H1. by eapply H1. }
  destruct (angle_wrap_minimum_image cell_dim.1
              ((pos !!! a).1 - (pos !!! b).1)) as [Bx [zx Ex]]; [lra..|].
  destruct (angle_wrap_minimum_image cell_dim.2
              ((pos !!! a).2 - (pos !!! b).2)) as [By [zy Ey]]; [lra..|].
  split; [done|]. split; [done|]. by exists zx, zy.
Qed.

Lemma angle_vectors_minimum_image_witness :
  ∃ vector,
    angle_vectors prm_one_bead [(3, 0); (0, 0)] (4, 4) [[0]; [1]]%nat
    = Ok vector
    ∧ length vector = 1%nat.
Proof.
  destruct (angle_vectors_minimum_image prm_one_bead [(3, 0); (0, 0)] (4, 4)
              [0%nat] [1%nat]) as (vector & H1 & H2 & _).
  - reflexivity.
  - cbn; lra.
  - cbn; lra.
  - repeat constructor; cbn; lra.
  - reflexivity.
  - repeat constructor.
  - repeat constructor.
  - exists vector. auto.
Defined.

(** C7 as stated fails: a displacement of more than one box length is not
    mapped to its image of smallest magnitude. *)
Lemma angle_wrap_not_minimum_image :
  ∃ v,
    angle_vectors prm_one_bead [(5, 0); (0, 0)] (4, 4) [[0]; [1]]%nat
    = Ok [v]
    ∧ ¬ (- (4 / 2) <= v.1 <= 4 / 2).
Proof.
  eexists. split.
  - np_eval. reflexivity.
  - cbn. lra.
Qed.

(** ** [cos_sin_theta] *)

Lemma norm_sq v : norm v ^ 2 = v.1 ^ 2 + v.2 ^ 2.
Proof. unfold norm. apply pow2_sqrt. nra. Qed.

Lemma unit_pair (a b : R * R) :
  norm a ≠ 0 → norm b ≠ 0 →
  ((a.1 * b.1 + a.2 * b.2) / (norm a * norm b)) ^ 2
  + ((a.1 * b.2 - a.2 * b.1) / (norm a * norm b)) ^ 2 = 1.
Proof.
  intros Ha Hb.
  pose proof (norm_sq a) as Ea. pose proof (norm_sq b) as Eb.
  set (na := norm a) in *. set (nb := norm b) in *.
  transitivity (((a.1 ^ 2 + a.2 ^ 2) * (b.1 ^ 2 + b.2 ^ 2))
                / (na ^ 2 * nb ^ 2)); [field; done|].
  rewrite <- Ea, <- Eb. field. done.
Qed.

(** C10, as the code has it, in exact arithmetic: when [r_vector] holds the
    lengths of the vectors, as its docstring says and as line 173 computes
    it, and no vector has length zero, [cos_sin_theta] returns one cosine
    and one sine for each pair of vectors, and their squares add up to one.
    The arithmetic is that of the reals; the binary64 results are
    normalized up to rounding only, as the evaluation of [B64.cos_sin_theta]
    below shows. *)
Theorem cos_sin_theta_normalized (vector : list (R * R)) (r_vector : list R) :
  Nat.Even (length vector) →
  r_vector = fmap norm vector →
  Forall (λ v, norm v ≠ 0) vector →
  ∃ cos_the sin_the r_prod,
    cos_sin_theta vector r_vector = Ok (cos_the, sin_the, r_prod)
    ∧ length cos_the = (length vector / 2)%nat
    ∧ length sin_the = (length vector / 2)%nat
    ∧ ∀ t c s, cos_the !! t = Some c → sin_the !! t = Some s →
               c ^ 2 + s ^ 2 = 1.
Proof.
  intros Hev -> Hnz. unfold cos_sin_theta.
  rewrite (reshape2_even vector Hev). cbn [mbind result_bind].
  assert (Hr : Np.reshape2 (length vector / 2) (fmap norm vector)
               = Ok (Np.chunk2 (fmap norm vector))).
  { rewrite <- (length_fmap norm vector) at 1. apply reshape2_even.
    by rewrite length_fmap. }
  rewrite Hr. cbn [mbind result_bind]. clear Hr.
  do 3 eexists. split; [reflexivity|].
  rewrite chunk2_map, <- !list_fmap_compose.
  rewrite !zip_with_fmap_l, !zip_with_fmap_r, !zip_with_diag.
  rewrite !length_fmap, length_chunk2. do 2 (split; [done|]).
  intros t c s Hc Hs.
  rewrite list_lookup_fmap in Hc, Hs.
  destruct (Np.chunk2 vector !! t) as [[a b]|] eqn:Hp; [|done].
  cbn in Hc, Hs. injection Hc as <-. injection Hs as <-.
  apply list_elem_of_lookup_2, elem_of_chunk2 in Hp. cbn in Hp.
  destruct Hp as [Ha Hb]. rewrite Forall_forall in Hnz.
  apply unit_pair; auto.
Qed.

Lemma norm_3_4 : norm (3, 4) = 5.
Proof. unfold norm. cbn. apply sqrt_lem_1; lra. Qed.

Lemma norm_4_3 : norm (4, 3) = 5.
Proof. unfold norm. cbn. apply sqrt_lem_1; lra. Qed.

Lemma cos_sin_theta_normalized_witness :
  ∃ cos_the sin_the r_prod,
    cos_sin_theta [(3, 4); (4, 3)] (norm <$> [(3, 4); (4, 3)])
    = Ok (cos_the, sin_the, r_prod)
    ∧ length cos_the = 1%nat
    ∧ length sin_the = 1%nat
    ∧ ∀ t c s, cos_the !! t = Some c → sin_the !! t = Some s →
               c ^ 2 + s ^ 2 = 1.
Proof.
  apply (cos_sin_theta_normalized [(3, 4); (4, 3)]).
  - by exists 1%nat.
  - reflexivity.
  - repeat constructor; [rewrite norm_3_4|rewrite norm_4_3]; lra.
Defined.

(** C10 as stated fails: in binary64 the returned pair is not exactly
    normalized.  For the two vectors (3, 2) and (-3, -2) of a straight
    chain, with the lengths of line 173 as [r_vector], the product of the
    two lengths is rounded to 12.999999999999998 and the cosine returned is
    -1.0000000000000002, below -1 whatever [np.linalg.det] returns, so that
    no sine completes it to a normalized pair; with the determinant of the
    cofactor formula, which is exactly zero here, the rounded sum of the
    squares is not 1 either. *)
Lemma cos_sin_theta_binary64_not_normalized :
  (∀ det, ∃ c s p,
     B64.cos_sin_theta det [(3, 2); (-3, -2)]%float
       [B64.norm (3, 2)%float; B64.norm (-3, -2)%float] = Ok ([c], [s], [p])
     ∧ (c <? -1)%float = true)
  ∧ ∃ c s p,
      B64.cos_sin_theta B64.det2 [(3, 2); (-3, -2)]%float
        [B64.norm (3, 2)%float; B64.norm (-3, -2)%float] = Ok ([c], [s], [p])
      ∧ (c <? -1)%float = true
      ∧ (c * c + s * s =? 1)%float = false.
Proof.
  split.
  - intros det. do 3 eexists. split; vm_compute; reflexivity.
  - do 3 eexists. split; [vm_compute; reflexivity|].
    split; vm_compute; reflexivity.
Qed.

(** ** The angular block *)




Lemma length_add_at (f : list R) i x : length (Np.add_at i x f) = length f.
Proof. apply length_insert. Qed.






(** ** Missing topology *)

Lemma iadd_at_nil (f : list R) : Np.iadd_at f [] [] = Ok f.
Proof. done. Qed.

Lemma angle_block_no_arrays prm pos cell_dim angle_indices st :
  angle_block prm pos cell_dim angle_indices [] st = (st, Some IndexError).
Proof. done. Qed.

Lemma angle_block_empty_arrays prm pos cell_dim st :
  ∃ e, angle_block prm pos cell_dim [] [[]; []] st = (st, e)
       ∧ e ≠ Some ValueError.
Proof.
  unfold angle_block, angle_vectors.
  cbn [Np.getitem lookup list_lookup mbind result_bind Np.take mapM mret
       result_ret].
  rewrite zip_with_eq_len by done. cbn [mbind result_bind zip_with].
  destruct (n_dim prm) as [|[|[|n]]]; [| | |by eexists];
    (exists None; split; [|done]; destruct st as [pe fx fy]; cbn;
     do 2 f_equal; unfold Np.sum; cbn; lra).
Qed.

(** C9: without bonds the bonded and the angular block are skipped, whatever
    the angle arrays hold, and the result is that of the non-bonded block
    alone; with bonds but without angle triplets (no angle arrays at all,
    or empty ones) the angular block leaves the accumulators as the bonded
    block produced them. *)
Theorem missing_topology_skipped pot_vdw force_vdw prm pos cell_dim
  pos_indices bond_indices frc_indices angle_indices angle_bond_indices
  vdw_coeff virial_indicies pair_dist pair_r2 st :
  bonded_blocks prm pos cell_dim pair_dist pair_r2 [] frc_indices
    angle_indices angle_bond_indices st = Ok st
  ∧ calc_energy_forces pot_vdw force_vdw prm pos cell_dim pos_indices []
      frc_indices angle_indices angle_bond_indices vdw_coeff virial_indicies
    = (pair_dist ← Ut.get_distances_mpi pos pos_indices cell_dim;
       let pair_r2 :=
         zip_with (zip_with (λ dx dy, dx ^ 2 + dy ^ 2))
                  pair_dist.1 pair_dist.2 in
       '(st2, virial_tensor) ←
         nonbond_block pot_vdw force_vdw prm pair_dist pair_r2 vdw_coeff
           virial_indicies
           {| pot_energy := 0; f_beads_x := Np.zeros (length pos);
              f_beads_y := Np.zeros (length pos) |};
       Ok (pot_energy st2, zip (f_beads_x st2) (f_beads_y st2),
           virial_tensor))
  ∧ bonded_blocks prm pos cell_dim pair_dist pair_r2 (bond_indices)
      frc_indices angle_indices [] st
    = (if (0 <? length bond_indices)%nat
       then bond_block prm (length pos) pair_dist pair_r2 bond_indices
              frc_indices st
       else Ok st)
  ∧ bonded_blocks prm pos cell_dim pair_dist pair_r2 (bond_indices)
      frc_indices [] [[]; []] st
    = (if (0 <? length bond_indices)%nat
       then bond_block prm (length pos) pair_dist pair_r2 bond_indices
              frc_indices st
       else Ok st).
Proof.
  split; [done|]. split; [done|]. split.
  - unfold bonded_blocks. destruct (0 <? length bond_indices)%nat; [|done].
    destruct (bond_block _ _ _ _ _ _ _) as [st1|e]; [|done].
    cbn [mbind result_bind]. by rewrite angle_block_no_arrays.
  - unfold bonded_blocks. destruct (0 <? length bond_indices)%nat; [|done].
    destruct (bond_block _ _ _ _ _ _ _) as [st1|e]; [|done].
    cbn [mbind result_bind].
    destruct (angle_block_empty_arrays prm pos cell_dim st1)
      as (e & -> & He).
    by destruct e as [[]|].
Qed.

(** *** Two-dimensional arrays *)

Lemma entry_total m a b i j :
  shape a b m → (i < a)%nat → (j < b)%nat →
  entry m i j = Some ((m !!! i) !!! j).
Proof.
  intros [<- Hm] Hi Hj. unfold entry.
  rewrite (list_lookup_lookup_total_lt m i Hi). cbn.
  apply list_lookup_lookup_total_lt.
  rewrite Forall_lookup in Hm. erewrite Hm; [done|].
  by apply list_lookup_lookup_total_lt.
Qed.

Lemma entry_in_shape m a b i j x :
  shape a b m → entry m i j = Some x → in_shape a b (i, j).
Proof.
  intros [<- Hm]. unfold entry. destruct (m !! i) as [row|] eqn:E; [|done].
  cbn. intros Hj. split; cbn.
  - by eapply lookup_lt_Some.
  - rewrite Forall_lookup in Hm. rewrite <- (Hm _ _ E).
    by eapply lookup_lt_Some.
Qed.

Lemma shape_fmap (f : R → R) a b m :
  shape a b m → shape a b (fmap (M := list) (fmap (M := list) f) m).
Proof.
  intros [<- Hm]. split; [by rewrite length_fmap|].
  apply Forall_fmap. eapply Forall_impl; [done|].
  intros row Hr. cbn. by rewrite length_fmap.
Qed.

Lemma entry_fmap (f : R → R) m i j :
  entry (fmap (M := list) (fmap (M := list) f) m) i j = f <$> entry m i j.
Proof.
  unfold entry. rewrite list_lookup_fmap. destruct (m !! i); [|done]. cbn.
  by rewrite list_lookup_fmap.
Qed.

Lemma elem_of_nonzero_from b row j :
  j ∈ Np.nonzero_from b row →
  ∃ x, (b <= j)%nat ∧ row !! (j - b)%nat = Some x ∧ x ≠ 0.
Proof.
  revert b. induction row as [|y row IH]; intros b; cbn; [by inversion 1|].
  unfold Np.Rnonzero. destruct (Req_dec_T y 0) as [Hy|Hy].
  - intros (x & Hb & Hx & Hnz)%IH. exists x. split; [lia|]. split; [|done].
    replace (j - b)%nat with (S (j - S b)) by lia. done.
  - intros [->|(x & Hb & Hx & Hnz)%IH]%elem_of_cons.
    + exists y. rewrite Nat.sub_diag. done.
    + exists x. split; [lia|]. split; [|done].
      replace (j - b)%nat with (S (j - S b)) by lia. done.
Qed.

Lemma elem_of_nonzero2_from a m i j :
  (i, j) ∈ Np.nonzero2_from a m →
  ∃ x, (a <= i)%nat ∧ entry m (i - a) j = Some x ∧ x ≠ 0.
Proof.
  revert a. induction m as [|row m IH]; intros a; cbn; [by inversion 1|].
  intros [H|H]%elem_of_app.
  - apply list_elem_of_fmap in H as (j' & [= -> ->] & H).
    apply elem_of_nonzero_from in H as (x & _ & Hx & Hnz).
    exists x. rewrite Nat.sub_diag, Nat.sub_0_r in *. done.
  - apply IH in H as (x & Ha & Hx & Hnz). exists x. split; [lia|].
    split; [|done]. replace (i - a)%nat with (S (i - S a)) by lia. done.
Qed.

Lemma elem_of_nonzero2 m i j :
  (i, j) ∈ Np.nonzero2 m → ∃ x, entry m i j = Some x ∧ x ≠ 0.
Proof.
  intros (x & _ & Hx & Hnz)%elem_of_nonzero2_from.
  rewrite Nat.sub_0_r in Hx. eauto.
Qed.

Lemma nonzero2_in_shape a b m :
  shape a b m → Forall (in_shape a b) (Np.nonzero2 m).
Proof.
  intros Hm. apply Forall_forall. intros [i j] Hij.
  apply elem_of_nonzero2 in Hij as (x & Hx & _). by eapply entry_in_shape.
Qed.

(** Assignments leave every other entry as it is. *)
Lemma entry_setitems2_notin m idx vals i j :
  (i, j) ∉ idx → entry (Np.setitems2 m idx vals) i j = entry m i j.
Proof.
  unfold Np.setitems2. revert m vals.
  induction idx as [|[i' j'] idx IH]; intros m vals Hn; [done|].
  destruct vals as [|v vals]; [done|]. cbn [zip zip_with foldl].
  apply not_elem_of_cons in Hn as [Hne Hn]. rewrite IH by done.
  unfold entry. cbn. destruct (decide (i' = i)) as [->|Hi].
  - rewrite list_lookup_alter_eq. destruct (m !! i); [|done]. cbn.
    apply list_lookup_insert_ne. congruence.
  - by rewrite list_lookup_alter_ne.
Qed.

Lemma shape_setitems2 a b m idx vals :
  shape a b m → shape a b (Np.setitems2 m idx vals).
Proof.
  unfold Np.setitems2. revert m vals.
  induction idx as [|[i' j'] idx IH]; intros m vals Hm; [done|].
  destruct vals as [|v vals]; [done|]. cbn [zip zip_with foldl].
  apply IH. destruct Hm as [<- Hm]. split; [by rewrite length_alter|].
  apply Forall_lookup. intros i row. cbn.
  destruct (decide (i' = i)) as [->|Hi].
  - rewrite list_lookup_alter_eq. destruct (m !! i) as [r|] eqn:E; [|done].
    cbn. intros [= <-]. rewrite length_insert.
    rewrite Forall_lookup in Hm. by eapply Hm.
  - rewrite list_lookup_alter_ne by done. rewrite Forall_lookup in Hm.
    apply Hm.
Qed.

Lemma iadd_at2_total a b m idx v :
  shape a b m → Forall (in_shape a b) idx → length v = length idx →
  Np.iadd_at2 m idx v
  = Ok (Np.setitems2 m idx
          (zip_with Rplus ((λ ij, (m !!! ij.1) !!! ij.2) <$> idx) v)).
Proof.
  intros [Ha Hm] Hidx Hv. unfold Np.iadd_at2.
  rewrite (take2_total m a b) by done. cbn [mbind result_bind].
  rewrite izip_with_eq_len by (by rewrite length_fmap). done.
Qed.

(** ** The non-bonded block *)

Lemma masked_r2_fmap prm pair_r2 :
  masked_r2 prm pair_r2
  = fmap (M := list)
      (fmap (M := list) (λ x, x * Ut.check_cutoff x (rc prm ^ 2))) pair_r2.
Proof.
  unfold masked_r2, Np.mul2. rewrite zip_with_fmap_r, zip_with_diag.
  apply list_fmap_ext. intros _ row _.
  by rewrite zip_with_fmap_r, zip_with_diag.
Qed.

Lemma shape_masked_r2 prm a b pair_r2 :
  shape a b pair_r2 → shape a b (masked_r2 prm pair_r2).
Proof. rewrite masked_r2_fmap. apply shape_fmap. Qed.

Lemma cutoff_pairs_in_shape prm a b pair_r2 :
  shape a b pair_r2 → Forall (in_shape a b) (cutoff_pairs prm pair_r2).
Proof. intros H. by apply nonzero2_in_shape, shape_masked_r2. Qed.

Lemma check_cutoff_nonzero x t :
  x * Ut.check_cutoff x t ≠ 0 → x ≠ 0 ∧ x < t.
Proof.
  unfold Ut.check_cutoff, Np.Rltb. destruct (Rlt_dec x t); intros H.
  - split; [|done]. intros ->. apply H. lra.
  - exfalso. apply H. lra.
Qed.

Lemma elem_of_cutoff_pairs prm pair_r2 i j :
  (i, j) ∈ cutoff_pairs prm pair_r2 →
  ∃ r2, entry pair_r2 i j = Some r2 ∧ r2 ≠ 0 ∧ r2 < rc prm ^ 2.
Proof.
  intros (x & Hx & Hnz)%elem_of_nonzero2.
  rewrite masked_r2_fmap, entry_fmap in Hx.
  destruct (entry pair_r2 i j) as [r2|]; [|done].
  apply (inj Some) in Hx. subst x. exists r2. split; [done|].
  by apply check_cutoff_nonzero.
Qed.

Lemma nonbond_pot_total pot_vdw prm a b pair_r2 vdw_coeff :
  shape a b pair_r2 → shape a b vdw_coeff →
  nonbond_pot pot_vdw prm pair_r2 vdw_coeff
  = Ok ((λ ij : nat * nat,
           (vdw_coeff !!! ij.1) !!! ij.2
           * pot_vdw ((masked_r2 prm pair_r2 !!! ij.1) !!! ij.2)
               (vdw_sigma prm) (vdw_epsilon prm)
           - cut_pot pot_vdw prm) <$> cutoff_pairs prm pair_r2).
Proof.
  intros Hr [Hc1 Hc2]. unfold nonbond_pot.
  pose proof (cutoff_pairs_in_shape prm a b pair_r2 Hr) as Hin.
  destruct (shape_masked_r2 prm a b pair_r2 Hr) as [Hm1 Hm2].
  rewrite (take2_total vdw_coeff a b) by done. cbn [mbind result_bind].
  rewrite (take2_total _ a b) by done. cbn [mbind result_bind].
  by rewrite zip_with_fmap_l, zip_with_fmap_r, zip_with_diag.
Qed.

Lemma nonbond_frc_total force_vdw prm a b pair_r2 vdw_coeff :
  shape a b pair_r2 → shape a b vdw_coeff →
  nonbond_frc force_vdw prm pair_r2 vdw_coeff
  = Ok ((λ ij : nat * nat,
           (vdw_coeff !!! ij.1) !!! ij.2
           * force_vdw ((masked_r2 prm pair_r2 !!! ij.1) !!! ij.2)
               (vdw_sigma prm) (vdw_epsilon prm)
           - cut_frc force_vdw prm) <$> cutoff_pairs prm pair_r2).
Proof.
  intros Hr [Hc1 Hc2]. unfold nonbond_frc.
  pose proof (cutoff_pairs_in_shape prm a b pair_r2 Hr) as Hin.
  destruct (shape_masked_r2 prm a b pair_r2 Hr) as [Hm1 Hm2].
  rewrite (take2_total vdw_coeff a b) by done. cbn [mbind result_bind].
  rewrite (take2_total _ a b) by done. cbn [mbind result_bind].
  by rewrite zip_with_fmap_l, zip_with_fmap_r, zip_with_diag.
Qed.

Lemma nonbond_temp_total prm a b dist pair_r2 frc :
  shape a b pair_r2 → shape a b dist →
  length frc = length (cutoff_pairs prm pair_r2) →
  ∃ vals,
    nonbond_temp prm dist pair_r2 frc
    = Ok (Np.setitems2 (fmap (M := list) (fmap (M := list) (λ _, 0)) dist)
            (cutoff_pairs prm pair_r2) vals).
Proof.
  intros Hr Hd Hf. unfold nonbond_temp.
  pose proof (cutoff_pairs_in_shape prm a b pair_r2 Hr) as Hin.
  destruct Hr as [Hr1 Hr2]. destruct (Hd) as [Hd1 Hd2].
  rewrite (take2_total dist a b) by done. cbn [mbind result_bind].
  rewrite (take2_total pair_r2 a b) by done. cbn [mbind result_bind].
  erewrite (iadd_at2_total a b); [by eexists| |done|].
  - by apply shape_fmap.
  - rewrite length_zip_with_l_eq; [done|].
    rewrite length_zip_with_l_eq; by rewrite !length_fmap.
Qed.

(** With the strict mask of [Ut.check_cutoff], a pair whose squared
    distance is exactly [rc^2] is not among the pairs [non_zero] inside the
    cutoff, so that [nonbond_pot] has no term for it and its entries of
    [temp_xy], the forces it adds, are zero.  This is the mask at work, not
    the shift: the lemma holds for every potential and every shift. *)
Lemma pair_at_cutoff_masked pot_vdw force_vdw prm pair_dist pair_r2 vdw_coeff
  nrow ncol a b :
  shape nrow ncol pair_r2 → shape nrow ncol vdw_coeff →
  shape nrow ncol pair_dist.1 → shape nrow ncol pair_dist.2 →
  entry pair_r2 a b = Some (rc prm ^ 2) →
  ∃ pot frc tx ty,
    nonbond_pot pot_vdw prm pair_r2 vdw_coeff = Ok pot
    ∧ nonbond_frc force_vdw prm pair_r2 vdw_coeff = Ok frc
    ∧ nonbond_temp prm pair_dist.1 pair_r2 frc = Ok tx
    ∧ nonbond_temp prm pair_dist.2 pair_r2 frc = Ok ty
    ∧ length pot = length (cutoff_pairs prm pair_r2)
    ∧ ((a, b) ∉ cutoff_pairs prm pair_r2)
    ∧ entry tx a b = Some 0
    ∧ entry ty a b = Some 0.
Proof.
  intros Hr Hc Hd0 Hd1 Hab.
  assert (Hn : (a, b) ∉ cutoff_pairs prm pair_r2).
  { intros (r2 & Hr2 & _ & Hlt)%elem_of_cutoff_pairs.
    rewrite Hab in Hr2. injection Hr2 as <-. lra. }
  destruct (entry_in_shape _ _ _ _ _ _ Hr Hab) as [Ha Hb]. cbn in Ha, Hb.
  set (frc := (λ ij : nat * nat,
                 (vdw_coeff !!! ij.1) !!! ij.2
                 * force_vdw ((masked_r2 prm pair_r2 !!! ij.1) !!! ij.2)
                     (vdw_sigma prm) (vdw_epsilon prm)
                 - cut_frc force_vdw prm) <$> cutoff_pairs prm pair_r2).
  destruct (nonbond_temp_total prm nrow ncol pair_dist.1 pair_r2 frc)
    as [v0 H0]; [done|done|by unfold frc; rewrite length_fmap|].
  destruct (nonbond_temp_total prm nrow ncol pair_dist.2 pair_r2 frc)
    as [v1 H1]; [done|done|by unfold frc; rewrite length_fmap|].
  eexists _, frc, _, _.
  split; [by apply (nonbond_pot_total pot_vdw prm nrow ncol)|].
  split; [by apply (nonbond_frc_total force_vdw prm nrow ncol)|].
  split; [exact H0|]. split; [exact H1|].
  split; [by rewrite length_fmap|]. split; [done|].
  rewrite !entry_setitems2_notin, !entry_fmap by done.
  rewrite (entry_total _ nrow ncol), (entry_total _ nrow ncol) by done.
  done.
Qed.

Lemma pair_at_cutoff_masked_witness :
  ∃ pot frc tx ty,
    nonbond_pot Ut.lj_pot_vdw prm_one_bead [[0; 1]; [1; 0]] [[0; 2]; [2; 0]]
    = Ok pot
    ∧ nonbond_frc Ut.lj_force_vdw prm_one_bead [[0; 1]; [1; 0]]
        [[0; 2]; [2; 0]] = Ok frc
    ∧ nonbond_temp prm_one_bead [[0; -1]; [1; 0]] [[0; 1]; [1; 0]] frc
      = Ok tx
    ∧ nonbond_temp prm_one_bead [[0; 0]; [0; 0]] [[0; 1]; [1; 0]] frc
      = Ok ty
    ∧ ((0, 1)%nat ∉ cutoff_pairs prm_one_bead [[0; 1]; [1; 0]])
    ∧ entry tx 0 1 = Some 0
    ∧ entry ty 0 1 = Some 0.
Proof.
  destruct (pair_at_cutoff_masked Ut.lj_pot_vdw Ut.lj_force_vdw prm_one_bead
              ([[0; -1]; [1; 0]], [[0; 0]; [0; 0]]) [[0; 1]; [1; 0]]
              [[0; 2]; [2; 0]] 2 2 0 1)
    as (pot & frc & tx & ty & H1 & H2 & H3 & H4 & _ & H5 & H6 & H7).
  - split; [reflexivity|repeat constructor].
  - split; [reflexivity|repeat constructor].
  - split; [reflexivity|repeat constructor].
  - split; [reflexivity|repeat constructor].
  - cbn. f_equal. lra.
  - exists pot, frc, tx, ty. auto 10.
Defined.

(** The shifted term of lines 211 and 214 at the cutoff itself: the
    coefficient multiplies the potential and not the shift, so the term is
    [(coeff - 1) * cut_pot] and not zero. *)
Lemma shifted_term_at_cutoff pot_vdw prm coeff :
  coeff * pot_vdw (rc prm ^ 2) (vdw_sigma prm) (vdw_epsilon prm)
  - cut_pot pot_vdw prm
  = (coeff - 1) * cut_pot pot_vdw prm.
Proof. unfold cut_pot. ring. Qed.





(** C4 on the code: a pair inside the cutoff whose coefficient is zero still
    adds the cutoff shift to the energy and to the forces.  Two beads one
    unit apart, all coefficients zero, no bonds. *)
Theorem excluded_pair_contributes :
  ∃ e fx0 fy0 fx1 fy1 v,
    calc_energy_forces Ut.lj_pot_vdw Ut.lj_force_vdw prm_two_beads
      [(0, 0); (1, 0)] (10, 10) grid_two_beads [] [] [] []
      [[0; 0]; [0; 0]] []
    = Ok (e, [(fx0, fy0); (fx1, fy1)], v)
    ∧ e = 2912 / 531441
    ∧ fx0 = - (17448 / 531441)
    ∧ fx1 = 17448 / 531441.
Proof.
  do 6 eexists. split.
  - np_eval. reflexivity.
  - unfold Ut.lj_pot_vdw, Ut.lj_force_vdw. repeat split; field.
Qed.

(** C5 on the code: the virial tensor of two beads at (0, 0) and (3, 4) is
    not symmetric. *)
Theorem virial_not_symmetric :
  ∃ e f v00 v01 v10 v11,
    calc_energy_forces Ut.lj_pot_vdw Ut.lj_force_vdw prm_oblique
      [(0, 0); (3, 4)] (100, 100) grid_two_beads [] [] [] []
      [[0; 1]; [1; 0]] [(0, 1)]%nat
    = Ok (e, f, ((v00, v01), (v10, v11)))
    ∧ v01 = 56133 / 1600
    ∧ v10 = 18711 / 400.
Proof.
  do 6 eexists. split.
  - np_eval. reflexivity.
  - unfold Ut.lj_pot_vdw, Ut.lj_force_vdw. split; field.
Qed.

(** ** The reduction of the SPMD step *)

(** After the reduction every rank holds the summed forces and the summed
    virial tensor, but only rank 0 holds an energy. *)
Lemma reduce_on_energy rank locals mine out :
  reduce_on rank locals mine = Ok out →
  out_pot_energy out
  = if (rank =? 0)%nat then Some (Np.sum ((λ l, l.2.1.1) <$> locals))
    else None.
Proof.
  unfold reduce_on. intros (frc & _ & [= <-])%bind_ok. cbn.
  unfold comm_gather. by destruct (rank =? 0)%nat.
Qed.

(** C2 on the code: in a communicator of two ranks, rank 1 returns no
    potential energy, while rank 0 returns the sum. *)
Theorem energy_only_on_root :
  ∃ out0 out1 e,
    velocity_verlet_alg_mpi Ut.lj_pot_vdw Ut.lj_force_vdw kin_energy_demo
      prm_one_bead [(0, 0)] [rank_at_rest; rank_at_rest] 1 1 false
    = Ok [out0; out1]
    ∧ out_pot_energy out0 = Some e
    ∧ out_pot_energy out1 = None
    ∧ out_frc out0 = out_frc out1
    ∧ out_virial out0 = out_virial out1.
Proof.
  do 3 eexists. split.
  - np_eval. reflexivity.
  - cbn. done.
Qed.

(** ** Sums of arrays *)

Lemma vec_eq (l1 l2 : list R) :
  length l1 = length l2 →
  (∀ i, (i < length l1)%nat → l1 !!! i = l2 !!! i) → l1 = l2.
Proof.
  intros Hl H. apply list_eq_same_length with (length l1); [done..|].
  intros i x y Hi Hx Hy.
  rewrite <- (list_lookup_total_correct _ _ _ Hx).
  rewrite <- (list_lookup_total_correct _ _ _ Hy). by apply H.
Qed.

Lemma lookup_total_zeros n i : Np.zeros n !!! i = 0.
Proof.
  unfold Np.zeros. destruct (decide (i < n)%nat).
  - by apply lookup_total_replicate_2.
  - rewrite list_lookup_total_alt, (proj1 (lookup_replicate_None _ _ _)) by lia.
    done.
Qed.

Lemma length_zeros n : length (Np.zeros n) = n.
Proof. apply length_replicate. Qed.

Lemma lookup_total_vplus (a b : list R) i :
  length a = length b → zip_with Rplus a b !!! i = a !!! i + b !!! i.
Proof.
  intros Hl. destruct (decide (i < length a)%nat) as [Hi|Hi].
  - apply lookup_total_zip_with; lia.
  - rewrite !list_lookup_total_alt.
    rewrite (lookup_ge_None_2 a), (lookup_ge_None_2 b) by lia.
    rewrite lookup_ge_None_2 by (rewrite length_zip_with; lia).
    cbn. lra.
Qed.

Lemma length_vplus (a b : list R) n :
  length a = n → length b = n → length (zip_with Rplus a b) = n.
Proof. intros. rewrite length_zip_with. lia. Qed.

Lemma vplus_interchange (a b c d : list R) n :
  length a = n → length b = n → length c = n → length d = n →
  zip_with Rplus (zip_with Rplus a b) (zip_with Rplus c d)
  = zip_with Rplus (zip_with Rplus a c) (zip_with Rplus b d).
Proof.
  intros Ha Hb Hc Hd. apply vec_eq.
  - rewrite !length_zip_with. lia.
  - intros i _. rewrite !lookup_total_vplus;
      rewrite ?length_zip_with; try lia. lra.
Qed.

Lemma vplus_zeros_r (a : list R) n :
  length a = n → zip_with Rplus a (Np.zeros n) = a.
Proof.
  intros Ha. apply vec_eq.
  - rewrite length_zip_with, length_zeros. lia.
  - intros i _. rewrite lookup_total_vplus, lookup_total_zeros
      by (by rewrite length_zeros). lra.
Qed.

Lemma vplus_zeros_zeros n :
  zip_with Rplus (Np.zeros n) (Np.zeros n) = Np.zeros n.
Proof. apply vplus_zeros_r, length_zeros. Qed.

(** *** The accumulating scatter *)

Lemma lookup_total_add_at (f : list R) i x j :
  (i < length f)%nat →
  Np.add_at i x f !!! j = if decide (i = j) then f !!! j + x else f !!! j.
Proof.
  intros Hi. unfold Np.add_at. rewrite list_lookup_total_insert.
  destruct (decide (i = j)) as [->|]; [rewrite decide_True|rewrite decide_False];
    try done. by intros [? _].
Qed.

Lemma length_accum idx vals f : length (accum idx vals f) = length f.
Proof.
  unfold accum. revert vals f.
  induction idx as [|i idx IH]; intros [|v vals] f; cbn [zip_with foldl];
    try done.
  by rewrite IH, length_add_at.
Qed.

Lemma accum_app i1 i2 v1 v2 f :
  length i1 = length v1 →
  accum (i1 ++ i2) (v1 ++ v2) f = accum i2 v2 (accum i1 v1 f).
Proof.
  intros Hl. unfold accum. rewrite zip_with_app by done. apply foldl_app.
Qed.

Lemma add_at_vplus_l (a b : list R) i x :
  (i < length a)%nat → length a = length b →
  Np.add_at i x (zip_with Rplus a b) = zip_with Rplus (Np.add_at i x a) b.
Proof.
  intros Hi Hl. apply vec_eq.
  - rewrite !length_add_at, !length_zip_with, length_add_at. done.
  - intros j _.
    rewrite lookup_total_add_at by (rewrite length_zip_with; lia).
    rewrite !lookup_total_vplus by (rewrite ?length_add_at; done).
    rewrite lookup_total_add_at by done.
    destruct (decide (i = j)); lra.
Qed.

Lemma add_at_vplus_r (a b : list R) i x :
  (i < length a)%nat → length a = length b →
  Np.add_at i x (zip_with Rplus a b) = zip_with Rplus a (Np.add_at i x b).
Proof.
  intros Hi Hl. apply vec_eq.
  - rewrite !length_add_at, !length_zip_with, length_add_at. done.
  - intros j _.
    rewrite lookup_total_add_at by (rewrite length_zip_with; lia).
    rewrite !lookup_total_vplus by (rewrite ?length_add_at; done).
    rewrite lookup_total_add_at by lia.
    destruct (decide (i = j)); lra.
Qed.

Lemma accum_vplus_l idx vals (a b : list R) :
  Forall (λ i, (i < length a)%nat) idx → length a = length b →
  accum idx vals (zip_with Rplus a b) = zip_with Rplus (accum idx vals a) b.
Proof.
  unfold accum. revert vals a.
  induction idx as [|i idx IH]; intros [|v vals] a Hr Hl;
    cbn [zip_with foldl fst snd]; try done.
  apply Forall_cons in Hr as [Hi Hr].
  rewrite add_at_vplus_l by done. apply IH.
  - by rewrite length_add_at.
  - by rewrite length_add_at.
Qed.

Lemma accum_vplus_r idx vals (a b : list R) :
  Forall (λ i, (i < length a)%nat) idx → length a = length b →
  accum idx vals (zip_with Rplus a b) = zip_with Rplus a (accum idx vals b).
Proof.
  unfold accum. revert vals b.
  induction idx as [|i idx IH]; intros [|v vals] b Hr Hl;
    cbn [zip_with foldl fst snd]; try done.
  apply Forall_cons in Hr as [Hi Hr].
  rewrite add_at_vplus_r by done. apply IH; [done|].
  by rewrite length_add_at.
Qed.

(** Two scatters, one into each summand. *)
Lemma accum_join i1 i2 v1 v2 (a b : list R) :
  length i1 = length v1 →
  Forall (λ i, (i < length a)%nat) i1 →
  Forall (λ i, (i < length a)%nat) i2 →
  length a = length b →
  accum (i1 ++ i2) (v1 ++ v2) (zip_with Rplus a b)
  = zip_with Rplus (accum i1 v1 a) (accum i2 v2 b).
Proof.
  intros Hl H1 H2 Hab. rewrite accum_app by done.
  rewrite accum_vplus_l by done. apply accum_vplus_r.
  - by rewrite length_accum.
  - by rewrite length_accum.
Qed.

(** With no index repeated, [a[idx] += v] accumulates. *)
Lemma setitems_nodup (f g : list R) idx v :
  NoDup idx → length g = length f →
  Forall (λ i, (i < length f)%nat) idx →
  (∀ i, i ∈ idx → g !!! i = f !!! i) →
  Np.setitems g idx (zip_with Rplus ((λ i, f !!! i) <$> idx) v)
  = accum idx v g.
Proof.
  unfold Np.setitems, accum. revert g v.
  induction idx as [|i idx IH]; intros g [|x v] Hnd Hl Hr Hg;
    cbn [zip_with foldl fst snd fmap list_fmap]; try done.
  apply NoDup_cons in Hnd as [Hi Hnd]. apply Forall_cons in Hr as [Hlt Hr].
  replace (Np.add_at i x g) with (<[i := f !!! i + x]> g)
    by (unfold Np.add_at; rewrite (Hg i) by left; done).
  apply IH; [done|by rewrite length_insert|done|].
  intros j Hj. rewrite list_lookup_total_insert_ne; [|by intros ->].
  apply Hg. by right.
Qed.

Lemma iadd_at_nodup (f : list R) idx v :
  NoDup idx → Forall (λ i, (i < length f)%nat) idx →
  length v = length idx →
  Np.iadd_at f idx v = Ok (accum idx v f).
Proof.
  intros Hnd Hr Hl. unfold Np.iadd_at, Np.iop_at.
  rewrite take_total by done. cbn [mbind result_bind].
  rewrite izip_with_eq_len by (by rewrite length_fmap).
  cbn [mbind result_bind]. f_equal. by apply setitems_nodup.
Qed.

(** *** Blocks of rows *)

Lemma getitem2_app_l {A} (m1 m2 : list (list A)) ij x :
  Np.getitem2 m1 ij = Ok x → Np.getitem2 (m1 ++ m2) ij = Ok x.
Proof.
  unfold Np.getitem2. intros (row & Hrow & Hx)%bind_ok.
  apply getitem_ok in Hrow.
  assert (H : Np.getitem (m1 ++ m2) ij.1 = Ok row).
  { apply getitem_ok. by apply lookup_app_l_Some. }
  by rewrite H.
Qed.

Lemma getitem2_app_r {A} (m1 m2 : list (list A)) ij x :
  Np.getitem2 m2 ij = Ok x →
  Np.getitem2 (m1 ++ m2) ((length m1 + ij.1)%nat, ij.2) = Ok x.
Proof.
  unfold Np.getitem2. intros (row & Hrow & Hx)%bind_ok.
  apply getitem_ok in Hrow. cbn [fst snd].
  assert (H : Np.getitem (m1 ++ m2) (length m1 + ij.1) = Ok row).
  { apply getitem_ok. by rewrite lookup_app_r, Nat.add_comm, Nat.add_sub by lia. }
  by rewrite H.
Qed.

Lemma take2_app_shift {A} (m1 m2 : list (list A)) i1 i2 x1 x2 :
  Np.take2 m1 i1 = Ok x1 → Np.take2 m2 i2 = Ok x2 →
  Np.take2 (m1 ++ m2) (i1 ++ shift_rows (length m1) i2) = Ok (x1 ++ x2).
Proof.
  unfold Np.take2. rewrite !mapM_ok. intros H1 H2. apply Forall2_app.
  - eapply Forall2_impl; [done|]. intros ij x. apply getitem2_app_l.
  - unfold shift_rows. apply Forall2_fmap_l.
    eapply Forall2_impl; [done|]. intros ij x. apply getitem2_app_r.
Qed.

Lemma take2_ok_length {A} (m : list (list A)) idx x :
  Np.take2 m idx = Ok x → length x = length idx.
Proof.
  unfold Np.take2. rewrite mapM_ok. intros H. symmetry.
  by eapply Forall2_length.
Qed.

Lemma take2_ok_rows {A} (m : list (list A)) idx x :
  Np.take2 m idx = Ok x → Forall (λ ij, (ij.1 < length m)%nat) idx.
Proof.
  unfold Np.take2. rewrite mapM_ok. intros H.
  induction H as [|ij y idx x Hy _ IH]; constructor; [|done].
  unfold Np.getitem2 in Hy. apply bind_ok in Hy as (row & Hrow & _).
  apply getitem_ok in Hrow. by eapply lookup_lt_Some.
Qed.

Lemma nonzero_from_shift k b row :
  Np.nonzero_from (k + b) row = (λ j, (k + j)%nat) <$> Np.nonzero_from b row.
Proof.
  revert b. induction row as [|x row IH]; intros b; cbn; [done|].
  specialize (IH (S b)). rewrite Nat.add_succ_r in IH.
  destruct (Np.Rnonzero x); cbn; by rewrite IH.
Qed.

Lemma nonzero2_from_shift k a m :
  Np.nonzero2_from (k + a) m = shift_rows k (Np.nonzero2_from a m).
Proof.
  revert a. induction m as [|row m IH]; intros a; cbn; [done|].
  specialize (IH (S a)). rewrite Nat.add_succ_r in IH.
  unfold shift_rows in *. rewrite fmap_app, IH, <- list_fmap_compose. done.
Qed.

Lemma nonzero2_from_app a m1 m2 :
  Np.nonzero2_from a (m1 ++ m2)
  = Np.nonzero2_from a m1 ++ Np.nonzero2_from (length m1 + a) m2.
Proof.
  revert a. induction m1 as [|row m1 IH]; intros a; cbn; [done|].
  rewrite IH, <- app_assoc. do 3 f_equal. lia.
Qed.

Lemma nonzero2_app m1 m2 :
  Np.nonzero2 (m1 ++ m2)
  = Np.nonzero2 m1 ++ shift_rows (length m1) (Np.nonzero2 m2).
Proof.
  unfold Np.nonzero2. by rewrite nonzero2_from_app, nonzero2_from_shift.
Qed.

Lemma length_setitems2 {A} (m : list (list A)) idx vals :
  length (Np.setitems2 m idx vals) = length m.
Proof.
  unfold Np.setitems2. revert m vals.
  induction idx as [|ij idx IH]; intros m [|v vals]; cbn; try done.
  by rewrite IH, length_alter.
Qed.

Lemma setitems2_app_l {A} (m1 m2 : list (list A)) idx vals :
  Forall (λ ij, (ij.1 < length m1)%nat) idx →
  Np.setitems2 (m1 ++ m2) idx vals = Np.setitems2 m1 idx vals ++ m2.
Proof.
  unfold Np.setitems2. revert m1 vals.
  induction idx as [|ij idx IH]; intros m1 [|v vals] Hr; cbn; try done.
  apply Forall_cons in Hr as [Hi Hr].
  rewrite alter_app_l by done. apply IH.
  eapply Forall_impl; [done|]. intros ij' H. by rewrite length_alter.
Qed.

Lemma setitems2_app_r {A} (m1 m2 : list (list A)) idx vals :
  Np.setitems2 (m1 ++ m2) (shift_rows (length m1) idx) vals
  = m1 ++ Np.setitems2 m2 idx vals.
Proof.
  unfold Np.setitems2, shift_rows. revert m2 vals.
  induction idx as [|ij idx IH]; intros m2 [|v vals]; cbn; try done.
  rewrite alter_app_r. apply IH.
Qed.

Lemma setitems2_app_shift {A} (m1 m2 : list (list A)) i1 i2 v1 v2 :
  Forall (λ ij, (ij.1 < length m1)%nat) i1 → length i1 = length v1 →
  Np.setitems2 (m1 ++ m2) (i1 ++ shift_rows (length m1) i2) (v1 ++ v2)
  = Np.setitems2 m1 i1 v1 ++ Np.setitems2 m2 i2 v2.
Proof.
  intros Hr Hl.
  assert (E : Np.setitems2 (m1 ++ m2) (i1 ++ shift_rows (length m1) i2)
                (v1 ++ v2)
              = Np.setitems2 (Np.setitems2 (m1 ++ m2) i1 v1)
                  (shift_rows (length m1) i2) v2).
  { unfold Np.setitems2. rewrite zip_with_app by done. apply foldl_app. }
  rewrite E, setitems2_app_l by done.
  rewrite <- (length_setitems2 m1 i1 v1) at 1. apply setitems2_app_r.
Qed.

Lemma iadd_at2_app_shift m1 m2 i1 i2 v1 v2 t1 t2 :
  length v1 = length i1 → length v2 = length i2 →
  Np.iadd_at2 m1 i1 v1 = Ok t1 → Np.iadd_at2 m2 i2 v2 = Ok t2 →
  Np.iadd_at2 (m1 ++ m2) (i1 ++ shift_rows (length m1) i2) (v1 ++ v2)
  = Ok (t1 ++ t2).
Proof.
  intros L1 L2. unfold Np.iadd_at2.
  intros (c1 & Hc1 & H1)%bind_ok (c2 & Hc2 & H2)%bind_ok.
  pose proof (take2_ok_length _ _ _ Hc1) as Lc1.
  pose proof (take2_ok_length _ _ _ Hc2) as Lc2.
  rewrite izip_with_eq_len in H1, H2 by lia. cbn in H1, H2.
  injection H1 as <-. injection H2 as <-.
  rewrite (take2_app_shift _ _ _ _ _ _ Hc1 Hc2). cbn [mbind result_bind].
  rewrite izip_with_eq_len by (rewrite !length_app; lia).
  cbn [mbind result_bind]. f_equal.
  rewrite zip_with_app by lia. apply setitems2_app_shift.
  - by eapply take2_ok_rows.
  - rewrite length_zip_with. lia.
Qed.

Lemma mul2_app a1 a2 b1 b2 :
  length a1 = length b1 →
  Np.mul2 (a1 ++ a2) (b1 ++ b2) = Np.mul2 a1 b1 ++ Np.mul2 a2 b2.
Proof. intros. unfold Np.mul2. by apply zip_with_app. Qed.

Lemma length_mul2 a b : length a = length b → length (Np.mul2 a b) = length a.
Proof. intros. unfold Np.mul2. rewrite length_zip_with. lia. Qed.

(** *** Sums along an axis *)

Lemma foldl_vplus_lookup n (acc : list R) t j :
  length acc = n → Forall (λ row, length row = n) t →
  length (foldl (zip_with Rplus) acc t) = n
  ∧ foldl (zip_with Rplus) acc t !!! j
    = acc !!! j + Np.sum ((λ row, row !!! j) <$> t).
Proof.
  intros Ha Ht. revert acc Ha.
  induction Ht as [|row t Hrow _ IH]; intros acc Ha; cbn [foldl].
  - split; [done|]. cbn. unfold Np.sum. cbn. lra.
  - destruct (IH (zip_with Rplus acc row)) as [IH1 IH2].
    { rewrite length_zip_with. lia. }
    split; [done|]. rewrite IH2, lookup_total_vplus by lia.
    rewrite fmap_cons, sum_cons. lra.
Qed.

Lemma sum_axis0_lookup n t j :
  Forall (λ row, length row = n) t →
  length (Np.sum_axis0 n t) = n
  ∧ Np.sum_axis0 n t !!! j = Np.sum ((λ row, row !!! j) <$> t).
Proof.
  intros Ht. destruct t as [|row t]; cbn [Np.sum_axis0].
  - split; [apply length_zeros|]. by rewrite lookup_total_zeros.
  - apply Forall_cons in Ht as [Hrow Ht].
    destruct (foldl_vplus_lookup n row t j Hrow Ht) as [H1 H2].
    split; [done|]. by rewrite H2, fmap_cons, sum_cons.
Qed.

Lemma sum_axis0_app n t1 t2 :
  Forall (λ row, length row = n) t1 → Forall (λ row, length row = n) t2 →
  Np.sum_axis0 n (t1 ++ t2)
  = zip_with Rplus (Np.sum_axis0 n t1) (Np.sum_axis0 n t2).
Proof.
  intros H1 H2.
  assert (H12 : Forall (λ row, length row = n) (t1 ++ t2))
    by (by apply Forall_app).
  apply vec_eq.
  - rewrite length_zip_with.
    rewrite (proj1 (sum_axis0_lookup n _ 0 H12)),
      (proj1 (sum_axis0_lookup n _ 0 H1)),
      (proj1 (sum_axis0_lookup n _ 0 H2)). lia.
  - intros j _. rewrite lookup_total_vplus.
    + rewrite (proj2 (sum_axis0_lookup n _ j H12)),
        (proj2 (sum_axis0_lookup n _ j H1)),
        (proj2 (sum_axis0_lookup n _ j H2)).
      by rewrite fmap_app, sum_app.
    + rewrite (proj1 (sum_axis0_lookup n _ 0 H1)),
        (proj1 (sum_axis0_lookup n _ 0 H2)). done.
Qed.

(** *** Row sums of a scatter into zeros *)

Lemma sum_axis1_alter m i j v :
  entry m i j = Some 0 →
  Np.sum_axis1 (alter (λ row, <[j := v]> row) i m)
  = Np.add_at i v (Np.sum_axis1 m).
Proof.
  unfold entry. intros He.
  destruct (m !! i) as [row|] eqn:Hrow; [|done]. cbn in He.
  pose proof (lookup_lt_Some _ _ _ Hrow) as Hi.
  unfold Np.sum_axis1. apply vec_eq.
  - by rewrite length_add_at, !length_fmap, length_alter.
  - intros k Hk. rewrite length_fmap, length_alter in Hk.
    rewrite (list_lookup_total_fmap Np.sum (alter _ i m) k)
      by (by rewrite length_alter).
    rewrite lookup_total_add_at by (by rewrite length_fmap).
    rewrite list_lookup_total_alter.
    rewrite (list_lookup_total_fmap Np.sum m k) by done.
    destruct (decide (i = k)) as [->|Hne].
    + rewrite decide_True by done.
      rewrite (list_lookup_total_correct _ _ _ Hrow).
      rewrite (sum_insert _ _ _ _ He). lra.
    + rewrite decide_False by (by intros [? _]). done.
Qed.

Lemma sum_axis1_setitems2 m idx vals :
  NoDup idx → length vals = length idx →
  (∀ ij, ij ∈ idx → entry m ij.1 ij.2 = Some 0) →
  Np.sum_axis1 (Np.setitems2 m idx vals)
  = accum (fst <$> idx) vals (Np.sum_axis1 m).
Proof.
  unfold Np.setitems2, accum. revert m vals.
  induction idx as [|[i j] idx IH]; intros m [|v vals] Hnd Hl Hz;
    cbn [zip_with foldl fst snd fmap list_fmap]; try done.
  apply NoDup_cons in Hnd as [Hn Hnd].
  rewrite IH; [|done|by injection Hl|].
  - f_equal. apply sum_axis1_alter. apply (Hz (i, j)). left.
  - intros [i' j'] Hin. cbn [fst snd].
    change (alter (λ row, <[j := v]> row) i m)
      with (Np.setitems2 m [(i, j)] [v]).
    rewrite entry_setitems2_notin.
    + apply (Hz (i', j')). by right.
    + intros [= -> ->]%list_elem_of_singleton. done.
Qed.

Lemma zip_with_zero_l {A} (idx : list A) (v : list R) :
  length v = length idx → zip_with Rplus ((λ _, 0) <$> idx) v = v.
Proof.
  revert v. induction idx as [|i idx IH]; intros [|x v] Hl; cbn; try done.
  rewrite IH by (by injection Hl). f_equal. lra.
Qed.

Lemma shape_zeros2 a b : shape a b (Np.zeros2 a b).
Proof.
  split; [apply length_replicate|]. apply Forall_replicate, length_zeros.
Qed.

Lemma entry_zeros2 a b i j :
  (i < a)%nat → (j < b)%nat → entry (Np.zeros2 a b) i j = Some 0.
Proof.
  intros Hi Hj. unfold entry, Np.zeros2, Np.zeros.
  rewrite lookup_replicate_2 by done. cbn. by apply lookup_replicate_2.
Qed.

Lemma lookup_total_zeros2 a b i j : (Np.zeros2 a b !!! i) !!! j = 0.
Proof.
  unfold Np.zeros2. destruct (decide (i < a)%nat).
  - rewrite lookup_total_replicate_2 by done. apply lookup_total_zeros.
  - rewrite (list_lookup_total_alt (replicate _ _)),
      (proj1 (lookup_replicate_None _ _ _)) by lia. done.
Qed.

Lemma sum_axis1_zeros2 a b : Np.sum_axis1 (Np.zeros2 a b) = Np.zeros a.
Proof.
  unfold Np.sum_axis1, Np.zeros2. by rewrite fmap_replicate, sum_zeros.
Qed.

Lemma iadd_at2_zeros n idx v :
  NoDup idx → length v = length idx → Forall (in_shape n n) idx →
  ∃ t, Np.iadd_at2 (Np.zeros2 n n) idx v = Ok t
       ∧ Np.sum_axis1 t = accum (fst <$> idx) v (Np.zeros n).
Proof.
  intros Hnd Hl Hr. eexists. split.
  - apply (iadd_at2_total n n); [apply shape_zeros2|done..].
  - rewrite (list_fmap_ext _ (λ _, 0) idx)
      by (intros ???; apply lookup_total_zeros2).
    rewrite zip_with_zero_l by done.
    rewrite sum_axis1_setitems2, sum_axis1_zeros2; [done..|].
    intros [i j] Hij. rewrite Forall_forall in Hr.
    destruct (Hr _ Hij). by apply entry_zeros2.
Qed.

Lemma fmap_result_ok {A B} (f : A → B) (m : result A) y :
  f <$> m = Ok y ↔ ∃ x, m = Ok x ∧ y = f x.
Proof.
  destruct m as [x|e]; cbn; split.
  - intros [= <-]. eauto.
  - by intros (? & [= ->] & ->).
  - done.
  - by intros (? & ? & ?).
Qed.

(** ** The force field on a block of rows and on two blocks joined *)

Lemma mapM_ok_length {A B} (f : A → result B) l k :
  mapM f l = Ok k → length k = length l.
Proof. rewrite mapM_ok. intros H. symmetry. by eapply Forall2_length. Qed.

Lemma get_distances_mpi_shape pos g cell pd n :
  Ut.get_distances_mpi pos g cell = Ok pd →
  Forall (λ row, length row = n) g →
  shape (length g) n pd.1 ∧ shape (length g) n pd.2.
Proof.
  unfold Ut.get_distances_mpi. intros (d & Hd & [= <-])%bind_ok Hg.
  cbn [fst snd]. pose proof (mapM_ok_length _ _ _ Hd) as Hl.
  apply mapM_ok in Hd.
  assert (Hrows : Forall (λ row, length row = n) d).
  { clear Hl. induction Hd as [|row drow g d Hrow _ IH]; [done|].
    apply Forall_cons in Hg as [Hn Hg]. constructor; [|by apply IH].
    apply mapM_ok_length in Hrow. lia. }
  split; (split; [by rewrite length_fmap|]); apply Forall_fmap;
    (eapply Forall_impl; [exact Hrows|]); intros row Hr; cbn;
    by rewrite length_fmap.
Qed.

Lemma get_distances_mpi_app pos g1 g2 cell pd1 pd2 :
  Ut.get_distances_mpi pos g1 cell = Ok pd1 →
  Ut.get_distances_mpi pos g2 cell = Ok pd2 →
  Ut.get_distances_mpi pos (g1 ++ g2) cell
  = Ok (pd1.1 ++ pd2.1, pd1.2 ++ pd2.2).
Proof.
  unfold Ut.get_distances_mpi.
  intros (d1 & Hd1 & [= <-])%bind_ok (d2 & Hd2 & [= <-])%bind_ok.
  rewrite (mapM_app _ _ _ _ _ Hd1 Hd2). cbn. by rewrite !fmap_app.
Qed.

Lemma shape_app a1 a2 n m1 m2 :
  shape a1 n m1 → shape a2 n m2 → shape (a1 + a2) n (m1 ++ m2).
Proof.
  intros [<- H1] [<- H2]. split; [by rewrite length_app|by apply Forall_app].
Qed.

Lemma shape_r2 a n d0 d1 :
  shape a n d0 → shape a n d1 →
  shape a n (zip_with (zip_with (λ dx dy, dx ^ 2 + dy ^ 2)) d0 d1).
Proof.
  intros [<- H0] [Hl H1]. split; [rewrite length_zip_with; lia|].
  apply Forall_lookup. intros i row Hrow.
  apply lookup_zip_with_Some in Hrow as (r0 & r1 & -> & Hr0 & Hr1).
  rewrite Forall_lookup in H0, H1. rewrite length_zip_with.
  rewrite (H0 _ _ Hr0), (H1 _ _ Hr1). lia.
Qed.

Section blocks.

Variables pot_vdw force_vdw : R → R → R → R.
Variable prm : param.

Lemma masked_r2_app r1 r2 :
  masked_r2 prm (r1 ++ r2) = masked_r2 prm r1 ++ masked_r2 prm r2.
Proof. by rewrite !masked_r2_fmap, fmap_app. Qed.

Lemma length_masked_r2 r : length (masked_r2 prm r) = length r.
Proof. by rewrite masked_r2_fmap, length_fmap. Qed.

Lemma cutoff_pairs_app r1 r2 :
  cutoff_pairs prm (r1 ++ r2)
  = cutoff_pairs prm r1 ++ shift_rows (length r1) (cutoff_pairs prm r2).
Proof.
  unfold cutoff_pairs.
  by rewrite masked_r2_app, nonzero2_app, length_masked_r2.
Qed.

Lemma nonbond_pot_length r c p :
  nonbond_pot pot_vdw prm r c = Ok p →
  length p = length (cutoff_pairs prm r).
Proof.
  unfold nonbond_pot. intros (x & Hx & H)%bind_ok.
  apply bind_ok in H as (m & Hm & [= <-]).
  apply take2_ok_length in Hx, Hm. rewrite length_zip_with. lia.
Qed.

Lemma nonbond_frc_length r c p :
  nonbond_frc force_vdw prm r c = Ok p →
  length p = length (cutoff_pairs prm r).
Proof.
  unfold nonbond_frc. intros (x & Hx & H)%bind_ok.
  apply bind_ok in H as (m & Hm & [= <-]).
  apply take2_ok_length in Hx, Hm. rewrite length_zip_with. lia.
Qed.

Lemma nonbond_pot_app r1 r2 c1 c2 p1 p2 :
  length c1 = length r1 →
  nonbond_pot pot_vdw prm r1 c1 = Ok p1 →
  nonbond_pot pot_vdw prm r2 c2 = Ok p2 →
  nonbond_pot pot_vdw prm (r1 ++ r2) (c1 ++ c2) = Ok (p1 ++ p2).
Proof.
  intros Hl. unfold nonbond_pot.
  intros (x1 & Hx1 & H1)%bind_ok (x2 & Hx2 & H2)%bind_ok.
  apply bind_ok in H1 as (m1 & Hm1 & [= <-]).
  apply bind_ok in H2 as (m2 & Hm2 & [= <-]).
  rewrite cutoff_pairs_app, masked_r2_app.
  pose proof (take2_app_shift _ _ _ _ _ _ Hx1 Hx2) as Ex.
  rewrite Hl in Ex. rewrite Ex. cbn [mbind result_bind].
  pose proof (take2_app_shift _ _ _ _ _ _ Hm1 Hm2) as Em.
  rewrite length_masked_r2 in Em. rewrite Em. cbn [mbind result_bind].
  apply take2_ok_length in Hx1, Hm1. rewrite zip_with_app by lia. done.
Qed.

Lemma nonbond_frc_app r1 r2 c1 c2 p1 p2 :
  length c1 = length r1 →
  nonbond_frc force_vdw prm r1 c1 = Ok p1 →
  nonbond_frc force_vdw prm r2 c2 = Ok p2 →
  nonbond_frc force_vdw prm (r1 ++ r2) (c1 ++ c2) = Ok (p1 ++ p2).
Proof.
  intros Hl. unfold nonbond_frc.
  intros (x1 & Hx1 & H1)%bind_ok (x2 & Hx2 & H2)%bind_ok.
  apply bind_ok in H1 as (m1 & Hm1 & [= <-]).
  apply bind_ok in H2 as (m2 & Hm2 & [= <-]).
  rewrite cutoff_pairs_app, masked_r2_app.
  pose proof (take2_app_shift _ _ _ _ _ _ Hx1 Hx2) as Ex.
  rewrite Hl in Ex. rewrite Ex. cbn [mbind result_bind].
  pose proof (take2_app_shift _ _ _ _ _ _ Hm1 Hm2) as Em.
  rewrite length_masked_r2 in Em. rewrite Em. cbn [mbind result_bind].
  apply take2_ok_length in Hx1, Hm1. rewrite zip_with_app by lia. done.
Qed.

Lemma iadd_at2_shape a n m idx v t :
  shape a n m → Np.iadd_at2 m idx v = Ok t → shape a n t.
Proof.
  intros Hm. unfold Np.iadd_at2. intros (c & _ & H)%bind_ok.
  apply bind_ok in H as (new & _ & [= <-]). by apply shape_setitems2.
Qed.

Lemma nonbond_temp_shape a n d r f t :
  shape a n d → nonbond_temp prm d r f = Ok t → shape a n t.
Proof.
  intros Hd. unfold nonbond_temp. intros (x & _ & H)%bind_ok.
  apply bind_ok in H as (y & _ & H).
  eapply iadd_at2_shape; [|done]. by apply shape_fmap.
Qed.

Lemma nonbond_temp_app d1 d2 r1 r2 f1 f2 t1 t2 :
  length d1 = length r1 →
  length f1 = length (cutoff_pairs prm r1) →
  length f2 = length (cutoff_pairs prm r2) →
  nonbond_temp prm d1 r1 f1 = Ok t1 →
  nonbond_temp prm d2 r2 f2 = Ok t2 →
  nonbond_temp prm (d1 ++ d2) (r1 ++ r2) (f1 ++ f2) = Ok (t1 ++ t2).
Proof.
  intros Hd Hf1 Hf2. unfold nonbond_temp.
  intros (x1 & Hx1 & H1)%bind_ok (x2 & Hx2 & H2)%bind_ok.
  apply bind_ok in H1 as (y1 & Hy1 & H1).
  apply bind_ok in H2 as (y2 & Hy2 & H2).
  rewrite cutoff_pairs_app.
  pose proof (take2_app_shift _ _ _ _ _ _ Hx1 Hx2) as Ex.
  rewrite Hd in Ex. rewrite Ex. cbn [mbind result_bind].
  rewrite (take2_app_shift _ _ _ _ _ _ Hy1 Hy2). cbn [mbind result_bind].
  pose proof (take2_ok_length _ _ _ Hx1) as Lx1.
  pose proof (take2_ok_length _ _ _ Hy1) as Ly1.
  pose proof (take2_ok_length _ _ _ Hx2) as Lx2.
  pose proof (take2_ok_length _ _ _ Hy2) as Ly2.
  rewrite (zip_with_app Rdiv) by lia.
  rewrite (zip_with_app Rmult) by (rewrite length_zip_with; lia).
  rewrite fmap_app.
  assert (L1 : length (zip_with Rmult f1 (zip_with Rdiv x1 y1))
               = length (cutoff_pairs prm r1))
    by (rewrite !length_zip_with; lia).
  assert (L2 : length (zip_with Rmult f2 (zip_with Rdiv x2 y2))
               = length (cutoff_pairs prm r2))
    by (rewrite !length_zip_with; lia).
  pose proof (iadd_at2_app_shift _ _ _ _ _ _ _ _ L1 L2 H1 H2) as E.
  rewrite length_fmap, Hd in E. exact E.
Qed.

Lemma virial_entry_app t1 t2 di1 di2 dj1 dj2 v1 v2 x1 x2 :
  length t1 = length di1 → length di1 = length dj1 →
  virial_entry t1 di1 dj1 v1 = Ok x1 →
  virial_entry t2 di2 dj2 v2 = Ok x2 →
  virial_entry (t1 ++ t2) (di1 ++ di2) (dj1 ++ dj2)
    (v1 ++ shift_rows (length t1) v2) = Ok (x1 + x2).
Proof.
  intros Ht Hd. unfold virial_entry.
  intros (y1 & Hy1 & ->)%fmap_result_ok (y2 & Hy2 & ->)%fmap_result_ok.
  rewrite mul2_app by done.
  rewrite mul2_app by (rewrite length_mul2; lia).
  pose proof (take2_app_shift _ _ _ _ _ _ Hy1 Hy2) as E.
  rewrite !length_mul2 in E by (rewrite ?length_mul2; lia).
  rewrite E. cbn. by rewrite sum_app.
Qed.

Lemma nonbond_block_join n k1 pd1 pd2 r1 r2 c1 c2 v1 v2 a b a' b' t1 t2 :
  shape k1 n pd1.1 → shape k1 n pd1.2 → length r1 = k1 → length c1 = k1 →
  Forall (λ row, length row = n) pd2.1 →
  Forall (λ row, length row = n) pd2.2 →
  length (f_beads_x a) = n → length (f_beads_y a) = n →
  length (f_beads_x b) = n → length (f_beads_y b) = n →
  nonbond_block pot_vdw force_vdw prm pd1 r1 c1 v1 a = Ok (a', t1) →
  nonbond_block pot_vdw force_vdw prm pd2 r2 c2 v2 b = Ok (b', t2) →
  nonbond_block pot_vdw force_vdw prm (pd1.1 ++ pd2.1, pd1.2 ++ pd2.2)
    (r1 ++ r2) (c1 ++ c2) (v1 ++ shift_rows k1 v2) (acc_add a b)
  = Ok (acc_add a' b', tensor_add t1 t2).
Proof.
  intros [Hk0 Hs0] [Hk1 Hs1] Hr Hc Hp0 Hp1 Hax Hay Hbx Hby.
  unfold nonbond_block.
  intros (p1 & Hp1' & H1)%bind_ok (p2 & Hp2' & H2)%bind_ok.
  apply bind_ok in H1 as (f1 & Hf1 & H1).
  apply bind_ok in H2 as (f2 & Hf2 & H2).
  apply bind_ok in H1 as (tx1 & Htx1 & H1).
  apply bind_ok in H2 as (tx2 & Htx2 & H2).
  apply bind_ok in H1 as (v00 & Hv00 & H1).
  apply bind_ok in H2 as (w00 & Hw00 & H2).
  apply bind_ok in H1 as (v01 & Hv01 & H1).
  apply bind_ok in H2 as (w01 & Hw01 & H2).
  apply bind_ok in H1 as (ty1 & Hty1 & H1).
  apply bind_ok in H2 as (ty2 & Hty2 & H2).
  apply bind_ok in H1 as (v10 & Hv10 & H1).
  apply bind_ok in H2 as (w10 & Hw10 & H2).
  apply bind_ok in H1 as (v11 & Hv11 & H1).
  apply bind_ok in H2 as (w11 & Hw11 & H2).
  apply bind_ok in H1 as (fx1 & Hfx1 & H1).
  apply bind_ok in H2 as (fx2 & Hfx2 & H2).
  apply bind_ok in H1 as (fy1 & Hfy1 & H1).
  apply bind_ok in H2 as (fy2 & Hfy2 & H2).
  injection H1 as <- <-. injection H2 as <- <-.
  pose proof (nonbond_frc_length _ _ _ Hf1) as Lf1.
  pose proof (nonbond_frc_length _ _ _ Hf2) as Lf2.
  pose proof (nonbond_temp_shape k1 n _ _ _ _ (conj Hk0 Hs0) Htx1)
    as [Ltx1 Stx1].
  pose proof (nonbond_temp_shape k1 n _ _ _ _ (conj Hk1 Hs1) Hty1)
    as [Lty1 Sty1].
  pose proof (nonbond_temp_shape _ n _ _ _ _ (conj eq_refl Hp0) Htx2)
    as [Ltx2 Stx2].
  pose proof (nonbond_temp_shape _ n _ _ _ _ (conj eq_refl Hp1) Hty2)
    as [Lty2 Sty2].
  assert (Hcr : length c1 = length r1) by lia.
  assert (Hd0r : length pd1.1 = length r1) by lia.
  assert (Hd1r : length pd1.2 = length r1) by lia.
  assert (Hx0 : length tx1 = length pd1.1) by lia.
  assert (Hy0 : length ty1 = length pd1.2) by lia.
  assert (H00 : length pd1.1 = length pd1.1) by done.
  assert (H01 : length pd1.1 = length pd1.2) by lia.
  assert (H10 : length pd1.2 = length pd1.1) by lia.
  assert (H11 : length pd1.2 = length pd1.2) by done.
  rewrite (nonbond_pot_app _ _ _ _ _ _ Hcr Hp1' Hp2').
  cbn [mbind result_bind].
  rewrite (nonbond_frc_app _ _ _ _ _ _ Hcr Hf1 Hf2).
  cbn [mbind result_bind fst snd].
  rewrite (nonbond_temp_app _ _ _ _ _ _ _ _ Hd0r Lf1 Lf2 Htx1 Htx2).
  cbn [mbind result_bind].
  pose proof (virial_entry_app _ _ _ _ _ _ _ _ _ _ Hx0 H00 Hv00 Hw00)
    as E00.
  rewrite Ltx1 in E00. rewrite E00. cbn [mbind result_bind].
  pose proof (virial_entry_app _ _ _ _ _ _ _ _ _ _ Hx0 H01 Hv01 Hw01)
    as E01.
  rewrite Ltx1 in E01. rewrite E01. cbn [mbind result_bind].
  rewrite (nonbond_temp_app _ _ _ _ _ _ _ _ Hd1r Lf1 Lf2 Hty1 Hty2).
  cbn [mbind result_bind].
  pose proof (virial_entry_app _ _ _ _ _ _ _ _ _ _ Hy0 H10 Hv10 Hw10)
    as E10.
  rewrite Lty1 in E10. rewrite E10. cbn [mbind result_bind].
  pose proof (virial_entry_app _ _ _ _ _ _ _ _ _ _ Hy0 H11 Hv11 Hw11)
    as E11.
  rewrite Lty1 in E11. rewrite E11. cbn [mbind result_bind].
  rewrite Hax in Hfx1. rewrite Hay in Hfy1.
  rewrite Hbx in Hfx2. rewrite Hby in Hfy2.
  pose proof (proj1 (sum_axis0_lookup n _ 0%nat Stx1)) as Sx1.
  pose proof (proj1 (sum_axis0_lookup n _ 0%nat Stx2)) as Sx2.
  pose proof (proj1 (sum_axis0_lookup n _ 0%nat Sty1)) as Sy1.
  pose proof (proj1 (sum_axis0_lookup n _ 0%nat Sty2)) as Sy2.
  rewrite izip_with_eq_len in Hfx1, Hfx2, Hfy1, Hfy2 by lia.
  injection Hfx1 as <-. injection Hfx2 as <-.
  injection Hfy1 as <-. injection Hfy2 as <-.
  cbn [acc_add f_beads_x f_beads_y pot_energy].
  rewrite !length_zip_with, Hax, Hay, Hbx, Hby, !Nat.min_id.
  rewrite !sum_axis0_app by done.
  rewrite !izip_with_eq_len by (rewrite !length_zip_with; lia).
  cbn [mbind result_bind]. do 2 f_equal.
  unfold acc_add. cbn [f_beads_x f_beads_y pot_energy]. f_equal.
  - rewrite sum_app. lra.
  - by apply (vplus_interchange _ _ _ _ n).
  - by apply (vplus_interchange _ _ _ _ n).
Qed.

End blocks.

Section bonded.

Variable prm : param.

Lemma accum_zeros_join n i1 i2 v1 v2 :
  length i1 = length v1 →
  Forall (λ i, (i < n)%nat) i1 → Forall (λ i, (i < n)%nat) i2 →
  accum (i1 ++ i2) (v1 ++ v2) (Np.zeros n)
  = zip_with Rplus (accum i1 v1 (Np.zeros n)) (accum i2 v2 (Np.zeros n)).
Proof.
  intros Hl H1 H2. rewrite <- (vplus_zeros_zeros n) at 1.
  apply accum_join; rewrite ?length_zeros; done.
Qed.

Lemma bond_block_join n pd1 pd2 r1 r2 b1 b2 f1 f2 a b a' b' :
  length pd1.1 = length r1 → length pd1.2 = length r1 →
  length f1 = length b1 → length f2 = length b2 →
  Forall (in_shape n n) (f1 ++ f2) → NoDup (f1 ++ f2) →
  length (f_beads_x a) = n → length (f_beads_y a) = n →
  length (f_beads_x b) = n → length (f_beads_y b) = n →
  bond_block prm n pd1 r1 b1 f1 a = Ok a' →
  bond_block prm n pd2 r2 b2 f2 b = Ok b' →
  bond_block prm n (pd1.1 ++ pd2.1, pd1.2 ++ pd2.2) (r1 ++ r2)
    (b1 ++ shift_rows (length r1) b2) (f1 ++ f2) (acc_add a b)
  = Ok (acc_add a' b').
Proof.
  intros Hd0 Hd1 Lf1 Lf2 Hin Hnd Hax Hay Hbx Hby. unfold bond_block.
  intros (br1 & Hbr1 & H1)%bind_ok (br2 & Hbr2 & H2)%bind_ok.
  apply fmap_result_ok in Hbr1 as (x1 & Hx1 & ->).
  apply fmap_result_ok in Hbr2 as (x2 & Hx2 & ->).
  apply bind_ok in H1 as (d01 & Hd01 & H1).
  apply bind_ok in H2 as (d02 & Hd02 & H2).
  apply bind_ok in H1 as (t01 & Ht01 & H1).
  apply bind_ok in H2 as (t02 & Ht02 & H2).
  apply bind_ok in H1 as (d11 & Hd11 & H1).
  apply bind_ok in H2 as (d12 & Hd12 & H2).
  apply bind_ok in H1 as (t11 & Ht11 & H1).
  apply bind_ok in H2 as (t12 & Ht12 & H2).
  injection H1 as <-. injection H2 as <-.
  pose proof (take2_ok_length _ _ _ Hx1) as Lx1.
  pose proof (take2_ok_length _ _ _ Hx2) as Lx2.
  pose proof (take2_ok_length _ _ _ Hd01) as Ld01.
  pose proof (take2_ok_length _ _ _ Hd02) as Ld02.
  pose proof (take2_ok_length _ _ _ Hd11) as Ld11.
  pose proof (take2_ok_length _ _ _ Hd12) as Ld12.
  apply Forall_app in Hin as [Hin1 Hin2].
  pose proof Hnd as Hnd'. apply NoDup_app in Hnd' as (Hnd1 & _ & Hnd2).
  set (k0 := bond_k0 prm) in *. set (r0 := bond_r0 prm) in *.
  set (frc := λ r : R, Ut.force_harmonic r r0 k0) in *.
  set (pot := λ r : R, Ut.pot_harmonic r r0 k0) in *.
  set (w01 := zip_with Rdiv (zip_with Rmult (frc <$> (sqrt <$> x1)) d01)
                (sqrt <$> x1)) in *.
  set (w02 := zip_with Rdiv (zip_with Rmult (frc <$> (sqrt <$> x2)) d02)
                (sqrt <$> x2)) in *.
  set (w11 := zip_with Rdiv (zip_with Rmult (frc <$> (sqrt <$> x1)) d11)
                (sqrt <$> x1)) in *.
  set (w12 := zip_with Rdiv (zip_with Rmult (frc <$> (sqrt <$> x2)) d12)
                (sqrt <$> x2)) in *.
  assert (Lw01 : length w01 = length f1)
    by (unfold w01; rewrite !length_zip_with, !length_fmap; lia).
  assert (Lw02 : length w02 = length f2)
    by (unfold w02; rewrite !length_zip_with, !length_fmap; lia).
  assert (Lw11 : length w11 = length f1)
    by (unfold w11; rewrite !length_zip_with, !length_fmap; lia).
  assert (Lw12 : length w12 = length f2)
    by (unfold w12; rewrite !length_zip_with, !length_fmap; lia).
  destruct (iadd_at2_zeros n f1 w01 Hnd1 Lw01 Hin1) as (u & Hu & S01).
  rewrite Ht01 in Hu. injection Hu as <-.
  destruct (iadd_at2_zeros n f2 w02 Hnd2 Lw02 Hin2) as (u & Hu & S02).
  rewrite Ht02 in Hu. injection Hu as <-.
  destruct (iadd_at2_zeros n f1 w11 Hnd1 Lw11 Hin1) as (u & Hu & S11).
  rewrite Ht11 in Hu. injection Hu as <-.
  destruct (iadd_at2_zeros n f2 w12 Hnd2 Lw12 Hin2) as (u & Hu & S12).
  rewrite Ht12 in Hu. injection Hu as <-.
  rewrite (take2_app_shift _ _ _ _ _ _ Hx1 Hx2).
  cbn [fmap result_fmap mbind result_bind fst snd].
  pose proof (take2_app_shift _ _ _ _ _ _ Hd01 Hd02) as E0.
  rewrite Hd0 in E0. rewrite E0. cbn [mbind result_bind].
  pose proof (take2_app_shift _ _ _ _ _ _ Hd11 Hd12) as E1.
  rewrite Hd1 in E1.
  rewrite !fmap_app.
  rewrite !(zip_with_app Rmult) by (rewrite !length_fmap; lia).
  rewrite !(zip_with_app Rdiv)
    by (rewrite !length_zip_with, !length_fmap; lia).
  fold w01 w02 w11 w12.
  assert (Hin12 : Forall (in_shape n n) (f1 ++ f2)) by (by apply Forall_app).
  destruct (iadd_at2_zeros n (f1 ++ f2) (w01 ++ w02) Hnd
              ltac:(rewrite !length_app; lia) Hin12) as (tj0 & -> & Sj0).
  cbn [mbind result_bind]. rewrite E1. cbn [mbind result_bind].
  rewrite !(zip_with_app Rmult) by (rewrite !length_fmap; lia).
  rewrite !(zip_with_app Rdiv)
    by (rewrite !length_zip_with, !length_fmap; lia).
  fold w11 w12.
  destruct (iadd_at2_zeros n (f1 ++ f2) (w11 ++ w12) Hnd
              ltac:(rewrite !length_app; lia) Hin12) as (tj1 & -> & Sj1).
  cbn [mbind result_bind]. f_equal.
  unfold acc_add. cbn [f_beads_x f_beads_y pot_energy].
  assert (Hrows : ∀ f, Forall (in_shape n n) f →
                       Forall (λ i, (i < n)%nat) (fst <$> f)).
  { intros f Hf. apply Forall_fmap. eapply Forall_impl; [exact Hf|].
    by intros ij [? _]. }
  rewrite Sj0, Sj1, S01, S02, S11, S12, !fmap_app.
  rewrite !accum_zeros_join by (rewrite ?length_fmap; auto).
  f_equal.
  - rewrite sum_app. lra.
  - apply (vplus_interchange _ _ _ _ n); try done;
      by rewrite length_accum, length_zeros.
  - apply (vplus_interchange _ _ _ _ n); try done;
      by rewrite length_accum, length_zeros.
Qed.

End bonded.

(** *** Index arrays into a list and into two lists joined *)

Lemma take_ok_length {A} (a : list A) idx x :
  Np.take a idx = Ok x → length x = length idx.
Proof. apply mapM_ok_length. Qed.

Lemma take_ok_range {A} (a : list A) idx x :
  Np.take a idx = Ok x → Forall (λ i, (i < length a)%nat) idx.
Proof.
  unfold Np.take. rewrite mapM_ok. intros H.
  induction H as [|i y idx x Hy _ IH]; constructor; [|done].
  apply getitem_ok in Hy. by eapply lookup_lt_Some.
Qed.

Lemma mapM_total {A B} (f : A → result B) l :
  Forall (λ x, ∃ y, f x = Ok y) l → ∃ k, mapM f l = Ok k.
Proof.
  induction 1 as [|x l [y Hy] _ [k Hk]]; [by exists []|].
  exists (y :: k). cbn. rewrite Hy. cbn. by rewrite Hk.
Qed.

Lemma take_exists {A} (a : list A) idx :
  Forall (λ i, (i < length a)%nat) idx →
  ∃ x, Np.take a idx = Ok x ∧ length x = length idx.
Proof.
  intros Hr. destruct (mapM_total (Np.getitem a) idx) as [x Hx].
  - eapply Forall_impl; [exact Hr|]. intros i Hi.
    destruct (lookup_lt_is_Some_2 a i Hi) as [y Hy]. exists y.
    by apply getitem_ok.
  - exists x. split; [done|]. by eapply take_ok_length.
Qed.

Lemma take_app_shift {A} (l1 l2 : list A) i1 i2 x1 x2 :
  Np.take l1 i1 = Ok x1 → Np.take l2 i2 = Ok x2 →
  Np.take (l1 ++ l2) (i1 ++ shift (length l1) i2)
  = Ok (x1 ++ x2).
Proof.
  unfold Np.take. rewrite !mapM_ok. intros H1 H2. apply Forall2_app.
  - eapply Forall2_impl; [done|]. intros i x Hx. apply getitem_ok.
    apply getitem_ok in Hx. by apply lookup_app_l_Some.
  - unfold shift. apply Forall2_fmap_l.
    eapply Forall2_impl; [done|]. intros i x Hx.
    apply getitem_ok. apply getitem_ok in Hx.
    by rewrite lookup_app_r, Nat.add_comm, Nat.add_sub by lia.
Qed.

Lemma take_app_l {A} (l1 l2 : list A) idx x :
  Np.take l1 idx = Ok x → Np.take (l1 ++ l2) idx = Ok x.
Proof.
  intros H. pose proof (take_app_shift l1 l2 idx [] x [] H eq_refl) as E.
  by rewrite !app_nil_r in E.
Qed.

Lemma length_setitems {A} (a : list A) idx vals :
  length (Np.setitems a idx vals) = length a.
Proof.
  unfold Np.setitems. revert a vals.
  induction idx as [|i idx IH]; intros a [|v vals]; cbn; try done.
  by rewrite IH, length_insert.
Qed.

Lemma setitems_app_l {A} (l1 l2 : list A) idx vals :
  Forall (λ i, (i < length l1)%nat) idx →
  Np.setitems (l1 ++ l2) idx vals = Np.setitems l1 idx vals ++ l2.
Proof.
  unfold Np.setitems. revert l1 vals.
  induction idx as [|i idx IH]; intros l1 [|v vals] Hr; cbn; try done.
  apply Forall_cons in Hr as [Hi Hr].
  rewrite insert_app_l by done. apply IH.
  eapply Forall_impl; [done|]. intros j H. by rewrite length_insert.
Qed.

Lemma setitems_app_r {A} (l1 l2 : list A) idx vals :
  Np.setitems (l1 ++ l2) (shift (length l1) idx) vals
  = l1 ++ Np.setitems l2 idx vals.
Proof.
  unfold Np.setitems, shift. revert l2 vals.
  induction idx as [|i idx IH]; intros l2 [|v vals]; cbn; try done.
  rewrite insert_app_r. apply IH.
Qed.

Lemma setitems_app_shift {A} (l1 l2 : list A) i1 i2 v1 v2 :
  Forall (λ i, (i < length l1)%nat) i1 → length i1 = length v1 →
  Np.setitems (l1 ++ l2) (i1 ++ shift (length l1) i2)
    (v1 ++ v2)
  = Np.setitems l1 i1 v1 ++ Np.setitems l2 i2 v2.
Proof.
  intros Hr Hl.
  assert (E : Np.setitems (l1 ++ l2)
                (i1 ++ shift (length l1) i2) (v1 ++ v2)
              = Np.setitems (Np.setitems (l1 ++ l2) i1 v1)
                  (shift (length l1) i2) v2).
  { unfold Np.setitems. rewrite zip_with_app by done. apply foldl_app. }
  rewrite E, setitems_app_l by done.
  rewrite <- (length_setitems l1 i1 v1) at 1. apply setitems_app_r.
Qed.

Lemma iop_at_length {A B} (f : A → B → A) a idx v t :
  Np.iop_at f a idx v = Ok t → length t = length a.
Proof.
  unfold Np.iop_at. intros (c & _ & H)%bind_ok.
  apply bind_ok in H as (new & _ & [= <-]). apply length_setitems.
Qed.

Lemma iop_at_exists {A B} (f : A → B → A) a idx v :
  Forall (λ i, (i < length a)%nat) idx → length v = length idx →
  ∃ t, Np.iop_at f a idx v = Ok t.
Proof.
  intros Hr Hl. unfold Np.iop_at.
  destruct (take_exists a idx Hr) as (c & -> & Lc). cbn [mbind result_bind].
  rewrite izip_with_eq_len by lia. by eexists.
Qed.

Lemma iop_at_app_shift {A B} (f : A → B → A) l1 l2 i1 i2 v1 v2 t1 t2 :
  length v1 = length i1 → length v2 = length i2 →
  Np.iop_at f l1 i1 v1 = Ok t1 → Np.iop_at f l2 i2 v2 = Ok t2 →
  Np.iop_at f (l1 ++ l2) (i1 ++ shift (length l1) i2)
    (v1 ++ v2) = Ok (t1 ++ t2).
Proof.
  intros L1 L2. unfold Np.iop_at.
  intros (c1 & Hc1 & H1)%bind_ok (c2 & Hc2 & H2)%bind_ok.
  pose proof (take_ok_length _ _ _ Hc1) as Lc1.
  pose proof (take_ok_length _ _ _ Hc2) as Lc2.
  rewrite izip_with_eq_len in H1, H2 by lia. cbn in H1, H2.
  injection H1 as <-. injection H2 as <-.
  rewrite (take_app_shift _ _ _ _ _ _ Hc1 Hc2). cbn [mbind result_bind].
  rewrite izip_with_eq_len by (rewrite !length_app; lia).
  cbn [mbind result_bind]. f_equal.
  rewrite zip_with_app by lia. apply setitems_app_shift.
  - by eapply take_ok_range.
  - rewrite length_zip_with. lia.
Qed.

(** *** Strided index ranges *)

Lemma arange2_shift k s c :
  Np.arange2 (k + s) c = shift k (Np.arange2 s c).
Proof.
  unfold shift. revert s. induction c as [|c IH]; intros s; cbn; [done|].
  f_equal. specialize (IH (S (S s))).
  by rewrite <- !Nat.add_succ_r.
Qed.

Lemma arange2_app s c1 c2 :
  Np.arange2 s (c1 + c2)
  = Np.arange2 s c1 ++ shift (2 * c1) (Np.arange2 s c2).
Proof.
  revert s. induction c1 as [|c1 IH]; intros s.
  - cbn [Np.arange2 Nat.add app]. rewrite Nat.mul_0_r.
    unfold shift. by rewrite list_fmap_id.
  - cbn [Np.arange2 Nat.add app]. f_equal. rewrite IH. f_equal.
    change (S (S s)) with (2 + s)%nat.
    rewrite (arange2_shift 2 s c2). unfold shift.
    rewrite <- list_fmap_compose.
    apply list_fmap_ext. intros _ i _. cbn. lia.
Qed.

Lemma length_arange2 s c : length (Np.arange2 s c) = c.
Proof. revert s. induction c as [|c IH]; intros s; cbn; [done|]. by rewrite IH. Qed.

Lemma arange2_bound s c :
  Forall (λ i, (i + 2 <= s + 2 * c)%nat) (Np.arange2 s c).
Proof.
  revert s. induction c as [|c IH]; intros s; cbn [Np.arange2]; [done|].
  constructor; [lia|]. eapply Forall_impl; [apply (IH (S (S s)))|].
  intros i Hi. cbv beta in *. lia.
Qed.

Lemma arange2_range s c :
  (s <= 1)%nat → Forall (λ i, (i < 2 * c)%nat) (Np.arange2 s c).
Proof.
  intros Hs. eapply Forall_impl; [apply arange2_bound|].
  intros i Hi. cbv beta in Hi. lia.
Qed.

Lemma div2_double_S k : Nat.div2 (S (2 * k)) = k.
Proof. apply Nat.div2_succ_double. Qed.

Lemma div2_double k : Nat.div2 (2 * k) = k.
Proof. apply Nat.div2_double. Qed.

Lemma div_double k : (2 * k / 2)%nat = k.
Proof. rewrite Nat.mul_comm. by apply Nat.div_mul. Qed.

(** *** Repeated entries *)

Lemma repeat_app {A} (l1 l2 : list A) k :
  Np.repeat (l1 ++ l2) k = Np.repeat l1 k ++ Np.repeat l2 k.
Proof. unfold Np.repeat. apply bind_app. Qed.

Lemma length_repeat {A} (l : list A) k :
  length (Np.repeat l k) = (length l * k)%nat.
Proof.
  unfold Np.repeat. induction l as [|x l IH]; [done|].
  rewrite bind_cons, length_app, length_replicate, IH. cbn. lia.
Qed.

Lemma chunk2_repeat_app {A} (l1 l2 : list A) k :
  Nat.Even k →
  Np.chunk2 (Np.repeat (l1 ++ l2) k)
  = Np.chunk2 (Np.repeat l1 k) ++ Np.chunk2 (Np.repeat l2 k).
Proof.
  intros [j ->]. rewrite repeat_app. apply chunk2_app.
  rewrite length_repeat. exists (length l1 * j)%nat. lia.
Qed.

Lemma length_chunk2_repeat {A} (l : list A) j :
  length (Np.chunk2 (Np.repeat l (2 * j))) = (length l * j)%nat.
Proof.
  rewrite length_chunk2, length_repeat.
  replace (length l * (2 * j))%nat with (2 * (length l * j))%nat by lia.
  apply div_double.
Qed.

Lemma length_chunk2_repeat4 {A} (l : list A) :
  length (Np.chunk2 (Np.repeat l 4)) = (2 * length l)%nat.
Proof. pose proof (length_chunk2_repeat l 2) as H. cbn in H. lia. Qed.

Lemma length_chunk2_repeat2 {A} (l : list A) :
  length (Np.chunk2 (Np.repeat l 2)) = length l.
Proof. pose proof (length_chunk2_repeat l 1) as H. cbn in H. lia. Qed.

(** ** The angular block on a slice and on two slices joined *)

Section angles.

Variable prm : param.

Lemma angle_vectors_length pos cell a0 a1 v :
  length a0 = length a1 →
  angle_vectors prm pos cell [a0; a1] = Ok v → length v = length a0.
Proof.
  intros Hl. unfold angle_vectors.
  cbn [Np.getitem lookup list_lookup mbind result_bind].
  intros (p0 & Hp0 & H)%bind_ok. apply bind_ok in H as (p1 & Hp1 & H).
  apply bind_ok in H as (d & Hd & H).
  apply take_ok_length in Hp0, Hp1.
  rewrite zip_with_eq_len in Hd by lia. injection Hd as <-.
  assert (Ld : length (zip_with vsub p0 p1) = length a0)
    by (rewrite length_zip_with; lia).
  destruct (n_dim prm) as [|[|[|]]]; try done; injection H as <-;
    by rewrite ?length_fmap.
Qed.

Lemma angle_vectors_exists pos cell a0 a1 :
  (n_dim prm <= 2)%nat → length a0 = length a1 →
  Forall (λ i, (i < length pos)%nat) a0 →
  Forall (λ i, (i < length pos)%nat) a1 →
  ∃ v, angle_vectors prm pos cell [a0; a1] = Ok v.
Proof.
  intros Hn Hl H0 H1. unfold angle_vectors.
  cbn [Np.getitem lookup list_lookup mbind result_bind].
  destruct (take_exists pos a0 H0) as (p0 & -> & L0).
  cbn [mbind result_bind].
  destruct (take_exists pos a1 H1) as (p1 & -> & L1).
  cbn [mbind result_bind].
  rewrite zip_with_eq_len by lia. cbn [mbind result_bind].
  destruct (n_dim prm) as [|[|[|]]]; try lia; by eexists.
Qed.

Lemma angle_vectors_app pos cell a0 a1 b0 b1 v1 v2 :
  length a0 = length a1 → length b0 = length b1 →
  angle_vectors prm pos cell [a0; a1] = Ok v1 →
  angle_vectors prm pos cell [b0; b1] = Ok v2 →
  angle_vectors prm pos cell [a0 ++ b0; a1 ++ b1] = Ok (v1 ++ v2).
Proof.
  intros La Lb. unfold angle_vectors.
  cbn [Np.getitem lookup list_lookup mbind result_bind].
  intros (p0 & Hp0 & H1)%bind_ok (q0 & Hq0 & H2)%bind_ok.
  apply bind_ok in H1 as (p1 & Hp1 & H1).
  apply bind_ok in H2 as (q1 & Hq1 & H2).
  apply bind_ok in H1 as (d1 & Hd1 & H1).
  apply bind_ok in H2 as (d2 & Hd2 & H2).
  pose proof (take_ok_length _ _ _ Hp0). pose proof (take_ok_length _ _ _ Hp1).
  pose proof (take_ok_length _ _ _ Hq0). pose proof (take_ok_length _ _ _ Hq1).
  rewrite zip_with_eq_len in Hd1, Hd2 by lia.
  injection Hd1 as <-. injection Hd2 as <-.
  unfold Np.take in *. rewrite (mapM_app _ _ _ _ _ Hp0 Hq0).
  cbn [mbind result_bind]. rewrite (mapM_app _ _ _ _ _ Hp1 Hq1).
  cbn [mbind result_bind].
  rewrite zip_with_eq_len by (rewrite !length_app; lia).
  cbn [mbind result_bind]. rewrite zip_with_app by lia.
  destruct (n_dim prm) as [|[|[|]]]; try done;
    injection H1 as <-; injection H2 as <-; by rewrite ?fmap_app.
Qed.

Lemma cos_sin_theta_lengths v r c s p :
  cos_sin_theta v r = Ok (c, s, p) →
  ∃ k, length v = (2 * k)%nat ∧ length r = (2 * k)%nat
       ∧ length c = k ∧ length s = k ∧ length p = k.
Proof.
  unfold cos_sin_theta. intros (tv & Htv & H)%bind_ok.
  apply bind_ok in H as (rp & Hrp & [= <- <- <-]).
  apply reshape2_ok in Htv as [Lv ->]. apply reshape2_ok in Hrp as [Lr ->].
  exists (length v / 2)%nat. split; [done|]. split; [done|].
  rewrite !length_zip_with, !length_fmap, !length_chunk2, Lr, div_double.
  lia.
Qed.

Lemma cos_sin_theta_exists v r k :
  length v = (2 * k)%nat → length r = (2 * k)%nat →
  ∃ c s p, cos_sin_theta v r = Ok (c, s, p).
Proof.
  intros Lv Lr. unfold cos_sin_theta, Np.reshape2.
  rewrite Lv, Lr, div_double, Nat.eqb_refl. cbn [mbind result_bind].
  by do 3 eexists.
Qed.

Lemma cos_sin_theta_app v1 v2 r1 r2 c1 c2 s1 s2 p1 p2 :
  cos_sin_theta v1 r1 = Ok (c1, s1, p1) →
  cos_sin_theta v2 r2 = Ok (c2, s2, p2) →
  cos_sin_theta (v1 ++ v2) (r1 ++ r2) = Ok (c1 ++ c2, s1 ++ s2, p1 ++ p2).
Proof.
  unfold cos_sin_theta.
  intros (tv1 & Htv1 & H1)%bind_ok (tv2 & Htv2 & H2)%bind_ok.
  apply bind_ok in H1 as (rp1 & Hrp1 & [= <- <- <-]).
  apply bind_ok in H2 as (rp2 & Hrp2 & [= <- <- <-]).
  apply reshape2_ok in Htv1 as [Lv1 ->]. apply reshape2_ok in Hrp1 as [Lr1 ->].
  apply reshape2_ok in Htv2 as [Lv2 ->]. apply reshape2_ok in Hrp2 as [Lr2 ->].
  set (k1 := (length v1 / 2)%nat) in *. set (k2 := (length v2 / 2)%nat) in *.
  unfold Np.reshape2. rewrite !length_app, Lv1, Lv2, Lr1, Lr2.
  replace (2 * k1 + 2 * k2)%nat with (2 * (k1 + k2))%nat by lia.
  rewrite div_double, Nat.eqb_refl. cbn [mbind result_bind].
  rewrite !chunk2_app by (by eexists).
  rewrite !fmap_app.
  rewrite !zip_with_app
    by (rewrite !length_fmap, !length_chunk2, Lv1, Lr1; done).
  done.
Qed.

Lemma angle_arrays_lengths (v : list (R * R)) (r s p : list R) k :
  length v = (2 * k)%nat → length r = (2 * k)%nat →
  length s = k → length p = k →
  length (zip_with (λ v p : R * R, (v.1 / p.1, v.2 / p.2)) v
            (Np.chunk2 (Np.repeat p 4))) = (2 * k)%nat
  ∧ length (zip_with (λ sv r : R * R, (sv.1 / r.1 ^ 2, sv.2 / r.2 ^ 2))
              (zip_with (λ s v : R * R, (s.1 * v.1, s.2 * v.2))
                 (Np.chunk2 (Np.repeat s 4)) v)
              (Np.chunk2 (Np.repeat r 2))) = (2 * k)%nat.
Proof.
  intros Lv Lr Ls Lp. rewrite !length_zip_with.
  rewrite !length_chunk2_repeat4, length_chunk2_repeat2. lia.
Qed.

Lemma angle_forces_exists v r s p k :
  length v = (2 * k)%nat → length r = (2 * k)%nat →
  length s = k → length p = k →
  ∃ fij fk, angle_forces prm v r s p = Ok (fij, fk)
            ∧ length fij = (2 * k)%nat ∧ length fk = k.
Proof.
  intros Lv Lr Ls Lp.
  destruct (angle_arrays_lengths v r s p k Lv Lr Ls Lp) as [Ll Lrr].
  unfold angle_forces. cbv zeta.
  set (rl := zip_with (λ v p : R * R, (v.1 / p.1, v.2 / p.2)) v _) in *.
  set (rr := zip_with (λ sv r : R * R, (sv.1 / r.1 ^ 2, sv.2 / r.2 ^ 2))
               _ _) in *.
  rewrite Lv, div2_double_S, div2_double, div_double.
  destruct (take_exists rr (Np.arange2 1 k)) as (rjk & -> & Ljk).
  { rewrite Lrr. apply arange2_range; lia. }
  cbn [mbind result_bind]. rewrite length_arange2 in Ljk.
  destruct (iop_at_exists vsub rl (Np.arange2 0 k) rjk) as [rl1 Hrl1].
  { rewrite Ll. apply arange2_range; lia. }
  { by rewrite length_arange2. }
  rewrite Hrl1. cbn [mbind result_bind].
  destruct (take_exists rr (Np.arange2 0 k)) as (rij & -> & Lij).
  { rewrite Lrr. apply arange2_range; lia. }
  cbn [mbind result_bind]. rewrite length_arange2 in Lij.
  pose proof (iop_at_length _ _ _ _ _ Hrl1) as Lrl1.
  destruct (iop_at_exists vsub rl1 (Np.arange2 1 k) rij) as [rl2 Hrl2].
  { rewrite Lrl1, Ll. apply arange2_range; lia. }
  { by rewrite length_arange2. }
  rewrite Hrl2. cbn [mbind result_bind].
  pose proof (iop_at_length _ _ _ _ _ Hrl2) as Lrl2.
  unfold Np.reshape2. rewrite length_fmap, Lrl2, Lrl1, Ll, Nat.eqb_refl.
  cbn [mbind result_bind]. do 2 eexists. split; [done|].
  rewrite !length_fmap, length_chunk2, length_fmap, Lrl2, Lrl1, Ll,
    div_double. done.
Qed.

Lemma angle_forces_app v1 v2 r1 r2 s1 s2 p1 p2 k1 k2 fij1 fij2 fk1 fk2 :
  length v1 = (2 * k1)%nat → length r1 = (2 * k1)%nat →
  length s1 = k1 → length p1 = k1 →
  length v2 = (2 * k2)%nat → length r2 = (2 * k2)%nat →
  length s2 = k2 → length p2 = k2 →
  angle_forces prm v1 r1 s1 p1 = Ok (fij1, fk1) →
  angle_forces prm v2 r2 s2 p2 = Ok (fij2, fk2) →
  angle_forces prm (v1 ++ v2) (r1 ++ r2) (s1 ++ s2) (p1 ++ p2)
  = Ok (fij1 ++ fij2, fk1 ++ fk2).
Proof.
  intros Lv1 Lr1 Ls1 Lp1 Lv2 Lr2 Ls2 Lp2.
  destruct (angle_arrays_lengths v1 r1 s1 p1 k1 Lv1 Lr1 Ls1 Lp1)
    as [Ll1 Lrr1].
  destruct (angle_arrays_lengths v2 r2 s2 p2 k2 Lv2 Lr2 Ls2 Lp2)
    as [Ll2 Lrr2].
  unfold angle_forces. cbv zeta.
  rewrite !(chunk2_repeat_app _ _ 4) by (by exists 2%nat).
  rewrite !(chunk2_repeat_app _ _ 2) by (by exists 1%nat).
  rewrite (zip_with_app (λ v p : R * R, (v.1 / p.1, v.2 / p.2)))
    by (rewrite length_chunk2_repeat4; lia).
  rewrite (zip_with_app (λ s v : R * R, (s.1 * v.1, s.2 * v.2)))
    by (rewrite length_chunk2_repeat4; lia).
  rewrite (zip_with_app (λ sv r : R * R, (sv.1 / r.1 ^ 2, sv.2 / r.2 ^ 2)))
    by (rewrite length_zip_with, length_chunk2_repeat4,
          length_chunk2_repeat2; lia).
  set (rl1 := zip_with (λ v p : R * R, (v.1 / p.1, v.2 / p.2)) v1 _) in *.
  set (rl2 := zip_with (λ v p : R * R, (v.1 / p.1, v.2 / p.2)) v2 _) in *.
  set (rr1 := zip_with (λ sv r : R * R, (sv.1 / r.1 ^ 2, sv.2 / r.2 ^ 2))
                (zip_with _ _ v1) _) in *.
  set (rr2 := zip_with (λ sv r : R * R, (sv.1 / r.1 ^ 2, sv.2 / r.2 ^ 2))
                (zip_with _ _ v2) _) in *.
  rewrite length_app, Lv1, Lv2.
  replace (2 * k1 + 2 * k2)%nat with (2 * (k1 + k2))%nat by lia.
  rewrite !div2_double_S, !div2_double, !div_double.
  intros (rjk1 & Hrjk1 & H1)%bind_ok (rjk2 & Hrjk2 & H2)%bind_ok.
  apply bind_ok in H1 as (l1 & Hl1 & H1).
  apply bind_ok in H2 as (l2 & Hl2 & H2).
  apply bind_ok in H1 as (rij1 & Hrij1 & H1).
  apply bind_ok in H2 as (rij2 & Hrij2 & H2).
  apply bind_ok in H1 as (m1 & Hm1 & H1).
  apply bind_ok in H2 as (m2 & Hm2 & H2).
  apply bind_ok in H1 as (q1 & Hq1 & [= <- <-]).
  apply bind_ok in H2 as (q2 & Hq2 & [= <- <-]).
  apply reshape2_ok in Hq1 as [Lq1 ->]. apply reshape2_ok in Hq2 as [Lq2 ->].
  pose proof (take_ok_length _ _ _ Hrjk1) as Ljk1.
  pose proof (take_ok_length _ _ _ Hrjk2) as Ljk2.
  pose proof (take_ok_length _ _ _ Hrij1) as Lij1.
  pose proof (take_ok_length _ _ _ Hrij2) as Lij2.
  rewrite length_arange2 in Ljk1, Ljk2, Lij1, Lij2.
  pose proof (iop_at_length _ _ _ _ _ Hl1) as Ll1'.
  pose proof (iop_at_length _ _ _ _ _ Hl2) as Ll2'.
  pose proof (iop_at_length _ _ _ _ _ Hm1) as Lm1.
  pose proof (iop_at_length _ _ _ _ _ Hm2) as Lm2.
  rewrite !arange2_app.
  pose proof (take_app_shift _ _ _ _ _ _ Hrjk1 Hrjk2) as E1.
  rewrite Lrr1 in E1. rewrite E1. cbn [mbind result_bind].
  assert (A1 : length rjk1 = length (Np.arange2 0 k1))
    by (by rewrite length_arange2).
  assert (A2 : length rjk2 = length (Np.arange2 0 k2))
    by (by rewrite length_arange2).
  pose proof (iop_at_app_shift vsub _ _ _ _ _ _ _ _ A1 A2 Hl1 Hl2) as E2.
  rewrite Ll1 in E2. rewrite E2. cbn [mbind result_bind].
  pose proof (take_app_shift _ _ _ _ _ _ Hrij1 Hrij2) as E3.
  rewrite Lrr1 in E3. rewrite E3. cbn [mbind result_bind].
  assert (A3 : length rij1 = length (Np.arange2 1 k1))
    by (by rewrite length_arange2).
  assert (A4 : length rij2 = length (Np.arange2 1 k2))
    by (by rewrite length_arange2).
  pose proof (iop_at_app_shift vsub _ _ _ _ _ _ _ _ A3 A4 Hm1 Hm2) as E4.
  rewrite Ll1', Ll1 in E4. rewrite E4. cbn [mbind result_bind].
  rewrite fmap_app. unfold Np.reshape2.
  rewrite length_app, !length_fmap, Lm1, Lm2, Ll1', Ll2', Ll1, Ll2.
  replace (2 * k1 + 2 * k2)%nat with (2 * (k1 + k2))%nat by lia.
  rewrite Nat.eqb_refl. cbn [mbind result_bind].
  rewrite chunk2_app, fmap_app; [done|].
  rewrite length_fmap, Lm1, Ll1', Ll1. by eexists.
Qed.

Lemma angle_block_form pos cell ai a0 a1 st n v c s p fij fk f_ij f_jk :
  angle_vectors prm pos cell [a0; a1] = Ok v →
  cos_sin_theta v (norm <$> v) = Ok (c, s, p) →
  angle_forces prm v (norm <$> v) s p = Ok (fij, fk) →
  Np.take fij (Np.arange2 0 (Nat.div2 (S (length v)))) = Ok f_ij →
  Np.take fij (Np.arange2 1 (Nat.div2 (length v))) = Ok f_jk →
  length f_ij = length ai → length fk = length ai →
  length f_jk = length ai →
  NoDup ((λ t : nat * nat * nat, t.1.1) <$> ai) →
  NoDup ((λ t : nat * nat * nat, t.1.2) <$> ai) →
  NoDup ((λ t : nat * nat * nat, t.2) <$> ai) →
  Forall (λ t : nat * nat * nat, (t.1.1 < n ∧ t.1.2 < n ∧ t.2 < n)%nat) ai →
  length (f_beads_x st) = n → length (f_beads_y st) = n →
  angle_block prm pos cell ai [a0; a1] st
  = ({| pot_energy :=
          pot_energy st + angle_k0 prm * Np.sum ((λ c, c + 1) <$> c);
        f_beads_x :=
          accum ((λ t : nat * nat * nat, t.2) <$> ai) (fst <$> f_jk)
            (accum ((λ t : nat * nat * nat, t.1.2) <$> ai) (fst <$> fk)
               (accum ((λ t : nat * nat * nat, t.1.1) <$> ai) (fst <$> f_ij)
                  (f_beads_x st)));
        f_beads_y :=
          accum ((λ t : nat * nat * nat, t.2) <$> ai) (snd <$> f_jk)
            (accum ((λ t : nat * nat * nat, t.1.2) <$> ai) (snd <$> fk)
               (accum ((λ t : nat * nat * nat, t.1.1) <$> ai) (snd <$> f_ij)
                  (f_beads_y st))) |}, None).
Proof.
  intros Hv Hc Hf Hij Hjk L0 L1 L2 N0 N1 N2 Hr Lx Ly.
  unfold angle_block. rewrite Hv, Hc, Hf. cbv zeta. rewrite Hij, Hjk.
  assert (R0 : Forall (λ i, (i < n)%nat)
                 ((λ t : nat * nat * nat, t.1.1) <$> ai)).
  { apply Forall_fmap. eapply Forall_impl; [exact Hr|]. by intros t (?&?&?). }
  assert (R1 : Forall (λ i, (i < n)%nat)
                 ((λ t : nat * nat * nat, t.1.2) <$> ai)).
  { apply Forall_fmap. eapply Forall_impl; [exact Hr|]. by intros t (?&?&?). }
  assert (R2 : Forall (λ i, (i < n)%nat)
                 ((λ t : nat * nat * nat, t.2) <$> ai)).
  { apply Forall_fmap. eapply Forall_impl; [exact Hr|]. by intros t (?&?&?). }
  destruct st as [pe fx fy]. cbn [f_beads_x f_beads_y pot_energy] in *.
  subst n.
  unfold run_stmts, iadd_x, iadd_y. cbn [f_beads_x f_beads_y pot_energy].
  repeat (rewrite iadd_at_nodup;
          [cbn [mbind result_bind f_beads_x f_beads_y pot_energy]
          |done
          |rewrite ?length_accum; first [done | by rewrite Ly]
          |by rewrite !length_fmap]).
  done.
Qed.

Lemma take_evens_odds_app (f1 f2 : list (R * R)) k1 k2 x1 x2 s :
  length f1 = (2 * k1)%nat →
  Np.take f1 (Np.arange2 s k1) = Ok x1 →
  Np.take f2 (Np.arange2 s k2) = Ok x2 →
  Np.take (f1 ++ f2) (Np.arange2 s (k1 + k2)) = Ok (x1 ++ x2).
Proof.
  intros L H1 H2. rewrite arange2_app, <- L. by apply take_app_shift.
Qed.

Lemma angle_block_join pos cell n ai1 ai2 a0 a1 b0 b1 a b :
  (n_dim prm <= 2)%nat →
  length a0 = (2 * length ai1)%nat → length a1 = (2 * length ai1)%nat →
  length b0 = (2 * length ai2)%nat → length b1 = (2 * length ai2)%nat →
  Forall (λ i, (i < length pos)%nat) (a0 ++ b0) →
  Forall (λ i, (i < length pos)%nat) (a1 ++ b1) →
  NoDup ((λ t : nat * nat * nat, t.1.1) <$> (ai1 ++ ai2)) →
  NoDup ((λ t : nat * nat * nat, t.1.2) <$> (ai1 ++ ai2)) →
  NoDup ((λ t : nat * nat * nat, t.2) <$> (ai1 ++ ai2)) →
  Forall (λ t : nat * nat * nat, (t.1.1 < n ∧ t.1.2 < n ∧ t.2 < n)%nat)
         (ai1 ++ ai2) →
  length (f_beads_x a) = n → length (f_beads_y a) = n →
  length (f_beads_x b) = n → length (f_beads_y b) = n →
  ∃ a' b',
    angle_block prm pos cell ai1 [a0; a1] a = (a', None)
    ∧ angle_block prm pos cell ai2 [b0; b1] b = (b', None)
    ∧ angle_block prm pos cell (ai1 ++ ai2) [a0 ++ b0; a1 ++ b1]
        (acc_add a b) = (acc_add a' b', None)
    ∧ length (f_beads_x a') = n ∧ length (f_beads_y a') = n
    ∧ length (f_beads_x b') = n ∧ length (f_beads_y b') = n.
Proof.
  intros Hn La0 La1 Lb0 Lb1 Hr0 Hr1 N0 N1 N2 Hr Lax Lay Lbx Lby.
  apply Forall_app in Hr0 as [Hra0 Hrb0].
  apply Forall_app in Hr1 as [Hra1 Hrb1].
  pose proof Hr as Hr'. apply Forall_app in Hr' as [Hrai1 Hrai2].
  pose proof N0 as N0'. rewrite fmap_app in N0'.
  apply NoDup_app in N0' as (N01 & _ & N02).
  pose proof N1 as N1'. rewrite fmap_app in N1'.
  apply NoDup_app in N1' as (N11 & _ & N12).
  pose proof N2 as N2'. rewrite fmap_app in N2'.
  apply NoDup_app in N2' as (N21 & _ & N22).
  set (k1 := length ai1) in *. set (k2 := length ai2) in *.
  destruct (angle_vectors_exists pos cell a0 a1) as [v1 Hv1];
    [done|lia|done..|].
  destruct (angle_vectors_exists pos cell b0 b1) as [v2 Hv2];
    [done|lia|done..|].
  assert (Lv1 : length v1 = length a0)
    by (apply (angle_vectors_length pos cell a0 a1 v1); [lia|done]).
  assert (Lv2 : length v2 = length b0)
    by (apply (angle_vectors_length pos cell b0 b1 v2); [lia|done]).
  rewrite La0 in Lv1. rewrite Lb0 in Lv2.
  destruct (cos_sin_theta_exists v1 (norm <$> v1) k1)
    as (c1 & s1 & p1 & Hc1); [done|by rewrite length_fmap|].
  destruct (cos_sin_theta_exists v2 (norm <$> v2) k2)
    as (c2 & s2 & p2 & Hc2); [done|by rewrite length_fmap|].
  destruct (cos_sin_theta_lengths _ _ _ _ _ Hc1)
    as (k1' & Lk1 & _ & Lc1 & Ls1 & Lp1).
  assert (k1' = k1) as -> by lia.
  destruct (cos_sin_theta_lengths _ _ _ _ _ Hc2)
    as (k2' & Lk2 & _ & Lc2 & Ls2 & Lp2).
  assert (k2' = k2) as -> by lia.
  assert (Ln1 : length (norm <$> v1) = (2 * k1)%nat)
    by (by rewrite length_fmap).
  assert (Ln2 : length (norm <$> v2) = (2 * k2)%nat)
    by (by rewrite length_fmap).
  destruct (angle_forces_exists v1 (norm <$> v1) s1 p1 k1)
    as (fij1 & fk1 & Hf1 & Lfij1 & Lfk1); [done..|].
  destruct (angle_forces_exists v2 (norm <$> v2) s2 p2 k2)
    as (fij2 & fk2 & Hf2 & Lfij2 & Lfk2); [done..|].
  destruct (take_exists fij1 (Np.arange2 0 k1)) as (e1 & He1 & Le1).
  { rewrite Lfij1. apply arange2_range; lia. }
  destruct (take_exists fij1 (Np.arange2 1 k1)) as (o1 & Ho1 & Lo1).
  { rewrite Lfij1. apply arange2_range; lia. }
  destruct (take_exists fij2 (Np.arange2 0 k2)) as (e2 & He2 & Le2).
  { rewrite Lfij2. apply arange2_range; lia. }
  destruct (take_exists fij2 (Np.arange2 1 k2)) as (o2 & Ho2 & Lo2).
  { rewrite Lfij2. apply arange2_range; lia. }
  rewrite length_arange2 in Le1, Lo1, Le2, Lo2.
  do 2 eexists. split.
  { apply (angle_block_form _ _ _ _ _ _ n v1 c1 s1 p1 fij1 fk1 e1 o1);
      rewrite ?Lv1, ?div2_double_S, ?div2_double; done. }
  split.
  { apply (angle_block_form _ _ _ _ _ _ n v2 c2 s2 p2 fij2 fk2 e2 o2);
      rewrite ?Lv2, ?div2_double_S, ?div2_double; done. }
  split.
  { rewrite (angle_block_form _ _ _ _ _ _ n (v1 ++ v2) (c1 ++ c2)
               (s1 ++ s2) (p1 ++ p2) (fij1 ++ fij2) (fk1 ++ fk2)
               (e1 ++ e2) (o1 ++ o2)).
    - unfold acc_add. cbn [f_beads_x f_beads_y pot_energy].
      rewrite !fmap_app, sum_app.
      rewrite !accum_join;
        rewrite ?length_accum, ?length_fmap; try done; try lia;
        try (rewrite ?Lax, ?Lay; apply Forall_fmap;
             first [ by (eapply Forall_impl; [exact Hrai1|];
                         intros t (?&?&?))
                   | by (eapply Forall_impl; [exact Hrai2|];
                         intros t (?&?&?)) ]).
      do 2 f_equal. lra.
    - apply angle_vectors_app; [lia..|done|done].
    - rewrite fmap_app. by apply cos_sin_theta_app.
    - rewrite fmap_app.
      by apply (angle_forces_app _ _ _ _ _ _ _ _ k1 k2).
    - rewrite length_app, Lv1, Lv2.
      replace (2 * k1 + 2 * k2)%nat with (2 * (k1 + k2))%nat by lia.
      rewrite div2_double_S. by apply take_evens_odds_app.
    - rewrite length_app, Lv1, Lv2.
      replace (2 * k1 + 2 * k2)%nat with (2 * (k1 + k2))%nat by lia.
      rewrite div2_double. by apply take_evens_odds_app.
    - rewrite !length_app. unfold k1, k2 in *. lia.
    - rewrite !length_app. unfold k1, k2 in *. lia.
    - rewrite !length_app. unfold k1, k2 in *. lia.
    - done.
    - done.
    - done.
    - done.
    - cbn. rewrite length_zip_with. lia.
    - cbn. rewrite length_zip_with. lia. }
  cbn [f_beads_x f_beads_y]. rewrite !length_accum. done.
Qed.

End angles.

(** *** Every block returns on a slice of the right shapes *)

Lemma pair_displacement_total pos cell ij :
  in_shape (length pos) (length pos) ij →
  ∃ d, Ut.pair_displacement pos cell ij = Ok d.
Proof.
  intros [H1 H2]. unfold Ut.pair_displacement.
  rewrite (getitem_total pos ij.1) by done. cbn [mbind result_bind].
  rewrite (getitem_total pos ij.2) by done. cbn [mbind result_bind].
  by eexists.
Qed.

Lemma get_distances_mpi_total pos g cell :
  Forall (Forall (in_shape (length pos) (length pos))) g →
  ∃ pd, Ut.get_distances_mpi pos g cell = Ok pd.
Proof.
  intros Hg. unfold Ut.get_distances_mpi.
  destruct (mapM_total (mapM (Ut.pair_displacement pos cell)) g) as [d ->].
  - eapply Forall_impl; [exact Hg|]. intros row Hrow. apply mapM_total.
    eapply Forall_impl; [exact Hrow|]. intros ij.
    apply pair_displacement_total.
  - cbn [mbind result_bind]. by eexists.
Qed.

Lemma length_sum_axis1 m : length (Np.sum_axis1 m) = length m.
Proof. unfold Np.sum_axis1. by rewrite length_fmap. Qed.

Lemma fmap_Ok {A B} (f : A → B) (x : A) : f <$> Ok x = Ok (f x).
Proof. done. Qed.

Lemma bond_block_total prm n k pd r bi fi a :
  shape k n pd.1 → shape k n pd.2 → shape k n r →
  Forall (in_shape k n) bi → Forall (in_shape n n) fi →
  length fi = length bi →
  length (f_beads_x a) = n → length (f_beads_y a) = n →
  ∃ a', bond_block prm n pd r bi fi a = Ok a'
        ∧ length (f_beads_x a') = n ∧ length (f_beads_y a') = n.
Proof.
  intros [L0 C0] [L1 C1] [Lr Cr] Hb Hf Lf Lx Ly. unfold bond_block.
  rewrite (take2_total r k n) by done. rewrite fmap_Ok.
  cbn [mbind result_bind]. cbv zeta.
  rewrite (take2_total pd.1 k n) by done. cbn [mbind result_bind].
  rewrite (iadd_at2_total n n);
    [|apply shape_zeros2|done
     |rewrite !length_zip_with, !length_fmap; lia].
  cbn [mbind result_bind].
  rewrite (take2_total pd.2 k n) by done. cbn [mbind result_bind].
  rewrite (iadd_at2_total n n);
    [|apply shape_zeros2|done
     |rewrite !length_zip_with, !length_fmap; lia].
  cbn [mbind result_bind]. eexists. split; [done|].
  cbn [f_beads_x f_beads_y].
  rewrite !length_zip_with, !length_sum_axis1, !length_setitems2.
  unfold Np.zeros2. rewrite length_replicate. lia.
Qed.

Lemma bond_block_nil prm n pd r a :
  length (f_beads_x a) = n → length (f_beads_y a) = n →
  bond_block prm n pd r [] [] a = Ok a.
Proof.
  intros Lx Ly. unfold bond_block.
  cbn [Np.take2 mapM mret result_ret fmap result_fmap mbind result_bind
       list_fmap zip_with].
  rewrite !(iadd_at2_total n n _ []) by (done || apply shape_zeros2).
  cbn [mbind result_bind]. unfold Np.setitems2. cbn [zip zip_with foldl fmap list_fmap].
  rewrite sum_axis1_zeros2, !vplus_zeros_r by done.
  destruct a as [pe fx fy]. cbn [pot_energy f_beads_x f_beads_y].
  f_equal. f_equal. unfold Np.sum. cbn [foldr]. lra.
Qed.

Lemma shape_mul2 a n x y :
  shape a n x → shape a n y → shape a n (Np.mul2 x y).
Proof.
  intros [Lx Cx] [Ly Cy]. split; [rewrite length_mul2; lia|].
  apply Forall_lookup. intros i row Hrow. unfold Np.mul2 in Hrow.
  apply lookup_zip_with_Some in Hrow as (r1 & r2 & -> & H1 & H2).
  rewrite length_zip_with.
  rewrite (Forall_lookup_1 _ _ _ _ Cx H1), (Forall_lookup_1 _ _ _ _ Cy H2).
  lia.
Qed.

Lemma virial_entry_total a n t d1 d2 v :
  shape a n t → shape a n d1 → shape a n d2 → Forall (in_shape a n) v →
  ∃ x, virial_entry t d1 d2 v = Ok x.
Proof.
  intros St S1 S2 Hv. unfold virial_entry.
  destruct (shape_mul2 a n _ _ (shape_mul2 a n _ _ St S1) S2) as [L C].
  rewrite (take2_total _ a n) by done. by eexists.
Qed.

Lemma nonbond_block_total pot_vdw force_vdw prm k n pd r c v a :
  shape k n pd.1 → shape k n pd.2 → shape k n r → shape k n c →
  Forall (in_shape k n) v →
  length (f_beads_x a) = n → length (f_beads_y a) = n →
  ∃ a' t,
    nonbond_block pot_vdw force_vdw prm pd r c v a = Ok (a', t)
    ∧ length (f_beads_x a') = n ∧ length (f_beads_y a') = n.
Proof.
  intros S0 S1 Sr Sc Hv Lx Ly. unfold nonbond_block.
  rewrite (nonbond_pot_total _ _ k n) by done. cbn [mbind result_bind].
  cbv zeta.
  rewrite (nonbond_frc_total _ _ k n) by done. cbn [mbind result_bind].
  match goal with
  | |- context [nonbond_temp prm pd.1 r ?f] => set (frc := f)
  end.
  destruct (nonbond_temp_total prm k n pd.1 r frc) as [vals0 H0];
    [done|done|by unfold frc; rewrite length_fmap|].
  destruct (nonbond_temp_total prm k n pd.2 r frc) as [vals1 H1];
    [done|done|by unfold frc; rewrite length_fmap|].
  pose proof (nonbond_temp_shape _ _ _ _ _ _ _ S0 H0) as St0.
  pose proof (nonbond_temp_shape _ _ _ _ _ _ _ S1 H1) as St1.
  rewrite H0. cbn [mbind result_bind].
  destruct (virial_entry_total k n _ pd.1 pd.1 v St0 S0 S0 Hv) as [v00 ->].
  cbn [mbind result_bind].
  destruct (virial_entry_total k n _ pd.1 pd.2 v St0 S0 S1 Hv) as [v01 ->].
  cbn [mbind result_bind].
  rewrite H1. cbn [mbind result_bind].
  destruct (virial_entry_total k n _ pd.2 pd.1 v St1 S1 S0 Hv) as [v10 ->].
  cbn [mbind result_bind].
  destruct (virial_entry_total k n _ pd.2 pd.2 v St1 S1 S1 Hv) as [v11 ->].
  cbn [mbind result_bind].
  destruct St0 as [_ Ct0]. destruct St1 as [_ Ct1].
  pose proof (proj1 (sum_axis0_lookup n _ 0%nat Ct0)) as Ls0.
  pose proof (proj1 (sum_axis0_lookup n _ 0%nat Ct1)) as Ls1.
  rewrite Lx, Ly.
  rewrite !izip_with_eq_len by lia. cbn [mbind result_bind].
  do 2 eexists. split; [done|]. cbn [f_beads_x f_beads_y].
  rewrite !length_zip_with. lia.
Qed.

Lemma bonded_blocks_ungated prm pos cell pd r bi fi ai abi a a1 a' e :
  (bi = [] → fi = [] ∧ ai = [] ∧ abi = [[]; []]) →
  length (f_beads_x a) = length pos → length (f_beads_y a) = length pos →
  bond_block prm (length pos) pd r bi fi a = Ok a1 →
  angle_block prm pos cell ai abi a1 = (a', e) → e ≠ Some ValueError →
  bonded_blocks prm pos cell pd r bi fi ai abi a = Ok a'.
Proof.
  intros Hg Lx Ly Hb Ha He. unfold bonded_blocks. destruct bi as [|b0 bi].
  - destruct Hg as (-> & -> & ->); [done|].
    rewrite bond_block_nil in Hb by done. injection Hb as <-.
    destruct (angle_block_empty_arrays prm pos cell a) as (e' & He' & _).
    rewrite He' in Ha. by injection Ha as <- _.
  - cbn [length Nat.ltb Nat.leb]. rewrite Hb. cbn [mbind result_bind].
    rewrite Ha. by destruct e as [[|]|].
Qed.

(** *** Two slices joined *)

Lemma in_shape_weaken a a' b ij :
  (a <= a')%nat → in_shape a b ij → in_shape a' b ij.
Proof. unfold in_shape. lia. Qed.

Lemma in_shape_shift_rows k a b idx :
  Forall (in_shape a b) idx → Forall (in_shape (k + a) b) (shift_rows k idx).
Proof.
  intros H. unfold shift_rows. apply Forall_fmap.
  eapply Forall_impl; [exact H|]. intros ij [H1 H2]. split; cbn; lia.
Qed.

Lemma length_shift_rows k idx : length (shift_rows k idx) = length idx.
Proof. unfold shift_rows. by rewrite length_fmap. Qed.

Lemma wf_slice_gate n tp :
  wf_slice n tp → bond_indices tp = [] →
  frc_indices tp = [] ∧ angle_indices tp = []
  ∧ angle_bond_indices tp = [[]; []].
Proof.
  intros [_ _ _ _ _ _ _ Hl _ Hi _ _ Hg] Hb.
  assert (Ha : angle_indices tp = []) by auto.
  split.
  { apply length_zero_iff_nil. by rewrite Hl, Hb. }
  split; [done|].
  destruct Hi as (i0 & i1 & -> & L0 & L1 & _).
  rewrite Ha in L0, L1. cbn in L0, L1.
  apply length_zero_iff_nil in L0, L1. by subst.
Qed.

Lemma scatter_once_join_r s1 s2 : scatter_once (join s1 s2) → scatter_once s2.
Proof.
  unfold scatter_once. cbn [join frc_indices angle_indices].
  rewrite !fmap_app. intros (H0 & H1 & H2 & H3).
  apply NoDup_app in H0 as (_ & _ & ?). apply NoDup_app in H1 as (_ & _ & ?).
  apply NoDup_app in H2 as (_ & _ & ?). apply NoDup_app in H3 as (_ & _ & ?).
  done.
Qed.

Lemma wf_join n s1 s2 :
  wf_slice n s1 → wf_slice n s2 → scatter_once (join s1 s2) →
  wf_slice n (join s1 s2).
Proof.
  intros W1 W2 (N0 & N1 & N2 & N3).
  destruct W1 as [g1 gr1 vr1 vc1 vi1 b1 f1 fl1 _ ab1 ar1 _ ga1].
  destruct W2 as [g2 gr2 vr2 vc2 vi2 b2 f2 fl2 _ ab2 ar2 _ ga2].
  destruct ab1 as (i0 & i1 & Ei & Li0 & Li1 & Ri0 & Ri1).
  destruct ab2 as (j0 & j1 & Ej & Lj0 & Lj1 & Rj0 & Rj1).
  split; cbn [join pos_indices bond_indices frc_indices angle_indices
              angle_bond_indices vdw_coeff virial_indicies].
  - by apply Forall_app.
  - by apply Forall_app.
  - rewrite !length_app. lia.
  - by apply Forall_app.
  - rewrite length_app. apply Forall_app. split.
    + eapply Forall_impl; [exact vi1|]. intros ij.
      apply in_shape_weaken. lia.
    + by apply in_shape_shift_rows.
  - rewrite length_app. apply Forall_app. split.
    + eapply Forall_impl; [exact b1|]. intros ij.
      apply in_shape_weaken. lia.
    + by apply in_shape_shift_rows.
  - by apply Forall_app.
  - rewrite !length_app, length_shift_rows. lia.
  - done.
  - exists (i0 ++ j0), (i1 ++ j1). rewrite Ei, Ej.
    split; [done|]. rewrite !length_app.
    split; [lia|]. split; [lia|]. split; by apply Forall_app.
  - by apply Forall_app.
  - done.
  - intros [H1 H2]%app_eq_nil. apply fmap_nil_inv in H2.
    rewrite ga1, ga2; done.
Qed.

Lemma bonded_blocks_join prm pos cell pd1 pd2 r1 r2 s1 s2 a b :
  (n_dim prm <= 2)%nat →
  wf_slice (length pos) s1 → wf_slice (length pos) s2 →
  scatter_once (join s1 s2) →
  shape (length (pos_indices s1)) (length pos) pd1.1 →
  shape (length (pos_indices s1)) (length pos) pd1.2 →
  shape (length (pos_indices s1)) (length pos) r1 →
  shape (length (pos_indices s2)) (length pos) pd2.1 →
  shape (length (pos_indices s2)) (length pos) pd2.2 →
  shape (length (pos_indices s2)) (length pos) r2 →
  length (f_beads_x a) = length pos → length (f_beads_y a) = length pos →
  length (f_beads_x b) = length pos → length (f_beads_y b) = length pos →
  ∃ a' b',
    bonded_blocks prm pos cell pd1 r1 (bond_indices s1) (frc_indices s1)
      (angle_indices s1) (angle_bond_indices s1) a = Ok a'
    ∧ bonded_blocks prm pos cell pd2 r2 (bond_indices s2) (frc_indices s2)
        (angle_indices s2) (angle_bond_indices s2) b = Ok b'
    ∧ bonded_blocks prm pos cell (pd1.1 ++ pd2.1, pd1.2 ++ pd2.2)
        (r1 ++ r2) (bond_indices (join s1 s2)) (frc_indices (join s1 s2))
        (angle_indices (join s1 s2)) (angle_bond_indices (join s1 s2))
        (acc_add a b) = Ok (acc_add a' b')
    ∧ length (f_beads_x a') = length pos
    ∧ length (f_beads_y a') = length pos
    ∧ length (f_beads_x b') = length pos
    ∧ length (f_beads_y b') = length pos.
Proof.
  intros Hn W1 W2 HS S10 S11 Sr1 S20 S21 Sr2 Lax Lay Lbx Lby.
  pose proof (wf_join _ _ _ W1 W2 HS) as WJ.
  pose proof (wf_slice_gate _ _ W1) as G1.
  pose proof (wf_slice_gate _ _ W2) as G2.
  pose proof (wf_slice_gate _ _ WJ) as GJ.
  destruct HS as (N0 & N1 & N2 & N3).
  destruct W1 as [g1 gr1 vr1 vc1 vi1 b1 f1 fl1 _ ab1 ar1 _ ga1].
  destruct W2 as [g2 gr2 vr2 vc2 vi2 b2 f2 fl2 _ ab2 ar2 _ ga2].
  destruct ab1 as (i0 & i1 & Ei & Li0 & Li1 & Ri0 & Ri1).
  destruct ab2 as (j0 & j1 & Ej & Lj0 & Lj1 & Rj0 & Rj1).
  cbn [join pos_indices bond_indices frc_indices angle_indices
       angle_bond_indices vdw_coeff virial_indicies] in *.
  rewrite Ei, Ej in *. cbn [zip_with] in *.
  set (n := length pos) in *.
  destruct (bond_block_total prm n _ pd1 r1 _ _ a S10 S11 Sr1 b1 f1 fl1
              Lax Lay) as (a1 & Ha1 & La1x & La1y).
  destruct (bond_block_total prm n _ pd2 r2 _ _ b S20 S21 Sr2 b2 f2 fl2
              Lbx Lby) as (b1' & Hb1 & Lb1x & Lb1y).
  assert (R0 : Forall (λ i, (i < length pos)%nat) (i0 ++ j0))
    by (by apply Forall_app).
  assert (R1 : Forall (λ i, (i < length pos)%nat) (i1 ++ j1))
    by (by apply Forall_app).
  assert (RA : Forall (λ t : nat * nat * nat,
                         (t.1.1 < n ∧ t.1.2 < n ∧ t.2 < n)%nat)
                 (angle_indices s1 ++ angle_indices s2))
    by (by apply Forall_app).
  destruct (angle_block_join prm pos cell n (angle_indices s1)
              (angle_indices s2) i0 i1 j0 j1 a1 b1' Hn Li0 Li1 Lj0 Lj1
              R0 R1 N1 N2 N3 RA La1x La1y Lb1x Lb1y)
    as (a' & b' & Ha' & Hb' & HJ & La'x & La'y & Lb'x & Lb'y).
  exists a', b'.
  split; [|split; [|split; [|done]]].
  - rewrite <- Ei in *. by eapply bonded_blocks_ungated.
  - rewrite <- Ej in *. by eapply bonded_blocks_ungated.
  - eapply bonded_blocks_ungated; [exact GJ| | | |exact HJ|done].
    + cbn. rewrite length_zip_with. unfold n in *. lia.
    + cbn. rewrite length_zip_with. unfold n in *. lia.
    + destruct S10 as [L10 _]. destruct S11 as [L11 _].
      destruct Sr1 as [Lr1 _]. rewrite <- Lr1.
      apply bond_block_join; try done; try lia.
      by apply Forall_app.
Qed.

Lemma zip_vplus (a b c d : list R) :
  zip (zip_with Rplus a b) (zip_with Rplus c d)
  = zip_with vadd (zip a c) (zip b d).
Proof.
  revert b c d. induction a as [|x a IH]; intros [|y b] [|z c] [|w d];
    try done.
  cbn [zip zip_with]. f_equal. apply IH.
Qed.

Lemma zip_with_r2_app (d0 d1 e0 e1 : list (list R)) :
  length d0 = length d1 →
  zip_with (zip_with (λ dx dy, dx ^ 2 + dy ^ 2)) (d0 ++ e0) (d1 ++ e1)
  = zip_with (zip_with (λ dx dy, dx ^ 2 + dy ^ 2)) d0 d1
    ++ zip_with (zip_with (λ dx dy, dx ^ 2 + dy ^ 2)) e0 e1.
Proof. intros L. by apply zip_with_app. Qed.

Lemma calc_join pot_vdw force_vdw prm pos cell s1 s2 :
  (n_dim prm <= 2)%nat →
  wf_slice (length pos) s1 → wf_slice (length pos) s2 →
  scatter_once (join s1 s2) →
  ∃ r1 r2,
    calc_on pot_vdw force_vdw prm pos cell s1 = Ok r1
    ∧ calc_on pot_vdw force_vdw prm pos cell s2 = Ok r2
    ∧ calc_on pot_vdw force_vdw prm pos cell (join s1 s2)
      = Ok (result_add r1 r2).
Proof.
  intros Hn W1 W2 HS. unfold calc_on, calc_energy_forces. cbv zeta.
  set (n := length pos) in *.
  set (st0 := {| pot_energy := 0; f_beads_x := Np.zeros n;
                 f_beads_y := Np.zeros n |}).
  destruct (get_distances_mpi_total pos (pos_indices s1) cell)
    as [pd1 Hpd1]; [by destruct W1|].
  destruct (get_distances_mpi_total pos (pos_indices s2) cell)
    as [pd2 Hpd2]; [by destruct W2|].
  pose proof (get_distances_mpi_app _ _ _ _ _ _ Hpd1 Hpd2) as HpdJ.
  destruct (get_distances_mpi_shape _ _ _ _ n Hpd1) as [S10 S11];
    [by destruct W1|].
  destruct (get_distances_mpi_shape _ _ _ _ n Hpd2) as [S20 S21];
    [by destruct W2|].
  pose proof (shape_r2 _ _ _ _ S10 S11) as Sr1.
  pose proof (shape_r2 _ _ _ _ S20 S21) as Sr2.
  set (r1 := zip_with _ pd1.1 pd1.2) in *.
  set (r2 := zip_with _ pd2.1 pd2.2) in *.
  assert (L0 : length (f_beads_x st0) = n) by apply length_zeros.
  assert (L1 : length (f_beads_y st0) = n) by apply length_zeros.
  destruct (bonded_blocks_join prm pos cell pd1 pd2 r1 r2 s1 s2 st0 st0
              Hn W1 W2 HS S10 S11 Sr1 S20 S21 Sr2 L0 L1 L0 L1)
    as (a1 & b1 & Ha1 & Hb1 & HJ1 & La1x & La1y & Lb1x & Lb1y).
  assert (Sc1 : shape (length (pos_indices s1)) n (vdw_coeff s1))
    by (by destruct W1).
  assert (Sc2 : shape (length (pos_indices s2)) n (vdw_coeff s2))
    by (by destruct W2).
  assert (Sv1 : Forall (in_shape (length (pos_indices s1)) n)
                  (virial_indicies s1)) by (by destruct W1).
  assert (Sv2 : Forall (in_shape (length (pos_indices s2)) n)
                  (virial_indicies s2)) by (by destruct W2).
  destruct (nonbond_block_total pot_vdw force_vdw prm _ n pd1 r1
              (vdw_coeff s1) (virial_indicies s1) a1 S10 S11 Sr1 Sc1 Sv1
              La1x La1y)
    as (a2 & t1 & Ha2 & La2x & La2y).
  destruct (nonbond_block_total pot_vdw force_vdw prm _ n pd2 r2
              (vdw_coeff s2) (virial_indicies s2) b1 S20 S21 Sr2 Sc2 Sv2
              Lb1x Lb1y)
    as (b2 & t2 & Hb2 & Lb2x & Lb2y).
  exists (pot_energy a2, zip (f_beads_x a2) (f_beads_y a2), t1),
         (pot_energy b2, zip (f_beads_x b2) (f_beads_y b2), t2).
  split; [by rewrite Hpd1; cbn [mbind result_bind]; fold r1; rewrite Ha1;
             cbn [mbind result_bind]; rewrite Ha2|].
  split; [by rewrite Hpd2; cbn [mbind result_bind]; fold r2; rewrite Hb1;
             cbn [mbind result_bind]; rewrite Hb2|].
  replace (pos_indices (join s1 s2))
    with (pos_indices s1 ++ pos_indices s2) by done.
  rewrite HpdJ. cbn [mbind result_bind fst snd].
  rewrite zip_with_r2_app by (destruct S10, S11; lia).
  fold r1 r2.
  assert (E0 : st0 = acc_add st0 st0).
  { unfold acc_add, st0. cbn [pot_energy f_beads_x f_beads_y].
    rewrite vplus_zeros_zeros. f_equal. lra. }
  rewrite E0 at 1. rewrite HJ1. cbn [mbind result_bind].
  replace (vdw_coeff (join s1 s2))
    with (vdw_coeff s1 ++ vdw_coeff s2) by done.
  replace (virial_indicies (join s1 s2))
    with (virial_indicies s1
          ++ shift_rows (length (pos_indices s1)) (virial_indicies s2))
    by done.
  rewrite (nonbond_block_join pot_vdw force_vdw prm n
             (length (pos_indices s1)) pd1 pd2 r1 r2 _ _ _ _ a1 b1 a2 b2
             t1 t2); try done.
  - cbn [mbind result_bind]. unfold result_add, acc_add.
    cbn [pot_energy f_beads_x f_beads_y fst snd]. by rewrite zip_vplus.
  - by destruct Sr1.
  - by destruct Sc1.
  - by destruct S20.
  - by destruct S21.
Qed.

(** *** Any number of slices *)

Lemma wf_no_topology n : wf_slice n no_topology.
Proof.
  split; cbn; try done; try apply NoDup_nil_2.
  - exists [], []. by repeat split.
  - repeat split; apply NoDup_nil_2.
Qed.

Lemma wf_join_all n slices :
  Forall (wf_slice n) slices → scatter_once (join_all slices) →
  wf_slice n (join_all slices).
Proof.
  induction 1 as [|s rest Hs Hrest IH]; cbn [join_all foldr]; intros HS.
  - apply wf_no_topology.
  - apply wf_join; [done| |done]. apply IH.
    by eapply scatter_once_join_r.
Qed.

Lemma calc_no_topology pot_vdw force_vdw prm pos cell :
  calc_on pot_vdw force_vdw prm pos cell no_topology
  = Ok (0, replicate (length pos) (0, 0), tensor_zero).
Proof.
  unfold calc_on, calc_energy_forces, no_topology.
  cbn [pos_indices bond_indices frc_indices angle_indices
       angle_bond_indices vdw_coeff virial_indicies].
  cbv zeta.
  cbn [Ut.get_distances_mpi mapM mret result_ret mbind result_bind fmap
       list_fmap fst snd zip_with bonded_blocks length Nat.ltb Nat.leb].
  unfold nonbond_block, nonbond_pot, nonbond_frc, nonbond_temp,
    virial_entry, cutoff_pairs, masked_r2, Np.mul2, Np.nonzero2.
  cbn [zip_with fmap list_fmap Np.nonzero2_from Np.take2 mapM mret
       result_ret mbind result_bind result_fmap Np.sum foldr].
  rewrite !(iadd_at2_total 0 (length pos) [] []) by done.
  cbn [mbind result_bind fmap result_fmap Np.setitems2 foldl zip zip_with
       Np.take2 mapM mret result_ret list_fmap Np.sum foldr Np.sum_axis0
       pot_energy f_beads_x f_beads_y].
  rewrite length_zeros, !izip_with_eq_len by by rewrite !length_zeros.
  cbn [mbind result_bind pot_energy f_beads_x f_beads_y].
  rewrite vplus_zeros_zeros. unfold tensor_zero, Np.zeros.
  rewrite zip_with_replicate. cbn. do 3 f_equal. lra.
Qed.

(** C1, amended.  Let the slices be well formed for the beads of [pos]
    (shapes and ranges fit, and a slice without bonds has no angles), let
    no scatter target of the whole system be repeated, and let [n_dim] be
    at most two.  Then [calc_energy_forces] returns on every slice and on
    the slices joined, and the energy, the forces and the virial tensor of
    the joined system are the sums of those of the slices. *)
Theorem partition_invariance pot_vdw force_vdw prm pos cell slices :
  (n_dim prm <= 2)%nat →
  Forall (wf_slice (length pos)) slices →
  scatter_once (join_all slices) →
  ∃ results,
    mapM (calc_on pot_vdw force_vdw prm pos cell) slices = Ok results
    ∧ calc_on pot_vdw force_vdw prm pos cell (join_all slices)
      = Ok (Np.sum ((λ r, r.1.1) <$> results),
            frc_sum (length pos) ((λ r, r.1.2) <$> results),
            tensor_sum ((λ r, r.2) <$> results)).
Proof.
  intros Hn HW. induction HW as [|s rest Hs Hrest IH]; intros HS.
  - exists []. split; [done|]. apply calc_no_topology.
  - cbn [join_all foldr] in HS |- *.
    pose proof (scatter_once_join_r _ _ HS) as HSr.
    destruct (IH HSr) as (results & Hm & Hc).
    destruct (calc_join pot_vdw force_vdw prm pos cell s
                (foldr join no_topology rest) Hn Hs
                (wf_join_all _ _ Hrest HSr) HS)
      as (r1 & r2 & H1 & H2 & HJ).
    change (foldr join no_topology rest) with (join_all rest) in *.
    rewrite Hc in H2. injection H2 as <-.
    exists (r1 :: results). split.
    + cbn [mapM]. rewrite H1. cbn [mbind result_bind]. rewrite Hm. done.
    + rewrite HJ. done.
Qed.

Lemma wf_slice_head : wf_slice 3 slice_head.
Proof.
  split;
    cbn [slice_head pos_indices bond_indices frc_indices angle_indices
         angle_bond_indices vdw_coeff virial_indicies length].
  all: try (repeat constructor; unfold in_shape; cbn; lia).
  all: try by repeat constructor.
  all: try by apply (bool_decide_unpack _).
  exists [1; 1]%nat, [0; 2]%nat.
  repeat split; try done; repeat constructor; lia.
Qed.

Lemma wf_slice_tail : wf_slice 3 slice_tail.
Proof.
  split;
    cbn [slice_tail pos_indices bond_indices frc_indices angle_indices
         angle_bond_indices vdw_coeff virial_indicies length].
  all: try (repeat constructor; unfold in_shape; cbn; lia).
  all: try by repeat constructor.
  all: try by apply (bool_decide_unpack _).
  exists [], []. by repeat split.
Qed.

Lemma partition_invariance_witness :
  ∃ results,
    mapM (calc_on Ut.lj_pot_vdw Ut.lj_force_vdw prm_corner pos_corner
            cell_corner) [slice_head; slice_tail] = Ok results
    ∧ calc_on Ut.lj_pot_vdw Ut.lj_force_vdw prm_corner pos_corner
        cell_corner (join_all [slice_head; slice_tail])
      = Ok (Np.sum ((λ r, r.1.1) <$> results),
            frc_sum 3 ((λ r, r.1.2) <$> results),
            tensor_sum ((λ r, r.2) <$> results)).
Proof.
  apply (partition_invariance Ut.lj_pot_vdw Ut.lj_force_vdw prm_corner
           pos_corner cell_corner [slice_head; slice_tail]).
  - cbn. lia.
  - apply Forall_cons_2; [|apply Forall_cons_2; [|apply Forall_nil_2]].
    + apply wf_slice_head.
    + apply wf_slice_tail.
  - repeat split; cbn; by apply (bool_decide_unpack _).
Defined.

(** C1 as stated fails: with the bond of the first bead in one slice and
    the angle in a slice of its own, the slice that has no bond skips its
    angle, and the energies of the slices add up to ten units less than the
    energy of the slices joined. *)
Lemma partition_loses_angle :
  ∃ r1 r2 r,
    calc_on Ut.lj_pot_vdw Ut.lj_force_vdw prm_corner pos_corner cell_corner
      slice_bonds = Ok r1
    ∧ calc_on Ut.lj_pot_vdw Ut.lj_force_vdw prm_corner pos_corner
        cell_corner slice_angles = Ok r2
    ∧ calc_on Ut.lj_pot_vdw Ut.lj_force_vdw prm_corner pos_corner
        cell_corner (join slice_bonds slice_angles) = Ok r
    ∧ r.1.1 = r1.1.1 + r2.1.1 + 10
    ∧ r.1.1 ≠ r1.1.1 + r2.1.1.
Proof.
  do 3 eexists.
  split; [np_eval; reflexivity|].
  split; [np_eval; reflexivity|].
  split; [np_eval; reflexivity|].
  cbn [fst snd]. split; lra.
Qed.

(** * Further properties of the code *)

(** ** More on [cos_sin_theta] *)

Lemma reshape2_half {A} (l : list A) :
  Np.reshape2 (length l / 2) l
  = if Nat.even (length l) then Ok (Np.chunk2 l) else Raise ValueError.
Proof.
  unfold Np.reshape2. destruct (Nat.even (length l)) eqn:E.
  - apply Nat.even_spec in E. destruct E as [m Hm].
    rewrite Hm, div_double, Nat.eqb_refl. done.
  - assert (Ho : Nat.odd (length l) = true)
      by (by rewrite <- Nat.negb_even, E).
    apply Nat.odd_spec in Ho. destruct Ho as [m Hm].
    destruct (Nat.eqb_spec (length l) (2 * (length l / 2))) as [He|]; [|done].
    exfalso. rewrite Hm in He.
    replace (2 * m + 1)%nat with (1 + m * 2)%nat in He at 2 by lia.
    rewrite Nat.div_add in He by lia. cbn in He. lia.
Qed.

(** X1: The shapes [cos_sin_theta] accepts: an even number of vectors and as
    many lengths; anything else is the [ValueError] of [np.reshape]. *)
Theorem cos_sin_theta_shapes (vector : list (R * R)) (r_vector : list R) :
  (Nat.Even (length vector) ∧ length r_vector = length vector →
   ∃ cos_the sin_the r_prod,
     cos_sin_theta vector r_vector = Ok (cos_the, sin_the, r_prod)
     ∧ length cos_the = (length vector / 2)%nat
     ∧ length sin_the = (length vector / 2)%nat
     ∧ length r_prod = (length vector / 2)%nat)
  ∧ (¬ (Nat.Even (length vector) ∧ length r_vector = length vector) →
     cos_sin_theta vector r_vector = Raise ValueError).
Proof.
  split.
  - intros [Hv Hr].
    destruct (cos_sin_theta_exists vector r_vector (length vector / 2))
      as (c & s & p & H).
    + destruct Hv as [m Hm]. rewrite Hm, div_double. done.
    + destruct Hv as [m Hm]. rewrite Hr, Hm, div_double. done.
    + exists c, s, p. split; [done|].
      destruct (cos_sin_theta_lengths _ _ _ _ _ H) as (k & Lk & _ & ? & ? & ?).
      rewrite Lk, div_double. done.
  - intros Hn. unfold cos_sin_theta. cbv zeta. rewrite reshape2_half.
    destruct (Nat.even (length vector)) eqn:E; [|done].
    cbn [mbind result_bind]. apply Nat.even_spec in E.
    unfold Np.reshape2.
    destruct (Nat.eqb_spec (length r_vector) (2 * (length vector / 2)))
      as [He|]; [|done].
    exfalso. apply Hn. split; [done|]. destruct E as [m Hm].
    rewrite He, Hm, div_double. done.
Qed.

Lemma cos_sin_theta_shapes_witness :
  (∃ cos_the sin_the r_prod,
     cos_sin_theta [(3, 4); (4, 3)] [5; 5] = Ok (cos_the, sin_the, r_prod)
     ∧ length cos_the = 1%nat ∧ length sin_the = 1%nat
     ∧ length r_prod = 1%nat)
  ∧ cos_sin_theta [(3, 4); (4, 3); (1, 0)] [5; 5; 1] = Raise ValueError.
Proof.
  split.
  - apply (proj1 (cos_sin_theta_shapes [(3, 4); (4, 3)] [5; 5])).
    split; [by exists 1%nat|done].
  - apply (proj2 (cos_sin_theta_shapes [(3, 4); (4, 3); (1, 0)] [5; 5; 1])).
    intros [[m Hm] _]. cbn in Hm. lia.
Defined.

Lemma chunk2_swap_pairs {A} (l : list A) :
  Np.chunk2 (swap_pairs l) = (λ p : A * A, (p.2, p.1)) <$> Np.chunk2 l.
Proof.
  induction l as [| |a b l IH] using list_ind2; try done.
  cbn [swap_pairs Np.chunk2 fmap list_fmap]. by rewrite IH.
Qed.

Lemma length_swap_pairs {A} (l : list A) : length (swap_pairs l) = length l.
Proof.
  induction l as [| |a b l IH] using list_ind2; try done.
  cbn [swap_pairs length]. by rewrite IH.
Qed.

(** X2: Exchanging the two bond vectors of every angle keeps the cosines and
    the products of the lengths and changes the sign of every sine. *)
Theorem cos_sin_theta_swap vector r_vector cos_the sin_the r_prod :
  cos_sin_theta vector r_vector = Ok (cos_the, sin_the, r_prod) →
  cos_sin_theta (swap_pairs vector) (swap_pairs r_vector)
  = Ok (cos_the, Ropp <$> sin_the, r_prod).
Proof.
  unfold cos_sin_theta. cbv zeta. rewrite !length_swap_pairs.
  intros (tv & Htv & H)%bind_ok.
  apply bind_ok in H as (rp & Hrp & [= <- <- <-]).
  apply reshape2_ok in Htv as [Lv ->]. apply reshape2_ok in Hrp as [Lr ->].
  unfold Np.reshape2. rewrite !length_swap_pairs.
  rewrite Lv at 1. rewrite Nat.eqb_refl. cbn [mbind result_bind].
  rewrite Lr at 1. rewrite Nat.eqb_refl. cbn [mbind result_bind].
  rewrite !chunk2_swap_pairs.
  assert (Ll : length (Np.chunk2 vector) = length (Np.chunk2 r_vector))
    by (rewrite !length_chunk2, Lr, div_double; done).
  revert Ll. generalize (Np.chunk2 vector) (Np.chunk2 r_vector).
  intros ps. induction ps as [|[a b] ps IH]; intros [|[ra rb] rs] Ll;
    try done.
  cbn [fmap list_fmap zip_with fst snd] in *.
  injection Ll as Ll. specialize (IH rs Ll).
  injection IH as IH1 IH2 IH3.
  f_equal. f_equal; [f_equal|]; f_equal; try done.
  - f_equal; lra.
  - unfold Rdiv. replace (rb * ra) with (ra * rb) by lra. lra.
  - lra.
Qed.

Lemma unit_pair_bounds (a b : R * R) :
  norm a ≠ 0 → norm b ≠ 0 →
  -1 <= (a.1 * b.1 + a.2 * b.2) / (norm a * norm b) <= 1
  ∧ -1 <= (a.1 * b.2 - a.2 * b.1) / (norm a * norm b) <= 1.
Proof.
  intros Ha Hb. pose proof (unit_pair a b Ha Hb) as H.
  set (c := (a.1 * b.1 + a.2 * b.2) / (norm a * norm b)) in *.
  set (s := (a.1 * b.2 - a.2 * b.1) / (norm a * norm b)) in *.
  split; split; nra.
Qed.

(** X3: In exact arithmetic, with the lengths of the vectors as [r_vector]
    and no vector of length zero, every cosine and every sine lies between
    -1 and 1, so that the terms [cos_the + 1] of the angle energy add up to
    a number between zero and twice the number of angles.  The binary64
    results may pass these bounds by a rounding error. *)
Theorem cos_sin_theta_bounded (vector : list (R * R)) cos_the sin_the r_prod :
  Forall (λ v, norm v ≠ 0) vector →
  cos_sin_theta vector (norm <$> vector) = Ok (cos_the, sin_the, r_prod) →
  Forall (λ c, -1 <= c <= 1) cos_the
  ∧ Forall (λ s, -1 <= s <= 1) sin_the
  ∧ 0 <= Np.sum ((λ c, c + 1) <$> cos_the) <= 2 * INR (length cos_the).
Proof.
  intros Hnz. unfold cos_sin_theta. cbv zeta.
  intros (tv & Htv & H)%bind_ok.
  apply bind_ok in H as (rp & Hrp & [= <- <- <-]).
  apply reshape2_ok in Htv as [Lv ->]. apply reshape2_ok in Hrp as [Lr ->].
  rewrite chunk2_map, <- !list_fmap_compose.
  rewrite !zip_with_fmap_l, !zip_with_fmap_r, !zip_with_diag.
  assert (Hp : Forall (λ p : (R * R) * (R * R), norm p.1 ≠ 0 ∧ norm p.2 ≠ 0)
                 (Np.chunk2 vector)).
  { apply Forall_forall. intros p [H1 H2]%elem_of_chunk2.
    rewrite Forall_forall in Hnz. auto. }
  clear Lv Lr Hnz. induction Hp as [|[a b] ps [Ha Hb] Hps IH].
  - cbn. repeat split; try constructor; lra.
  - destruct IH as (IH1 & IH2 & IH3).
    destruct (unit_pair_bounds a b Ha Hb) as [Hc Hs]. cbn [fst snd] in *.
    cbn [fmap list_fmap length Np.sum foldr compose fst snd] in *.
    split; [by constructor|]. split; [by constructor|].
    rewrite S_INR. unfold Np.sum in IH3. lra.
Qed.

Lemma cos_sin_theta_bounded_witness :
  ∃ cos_the sin_the r_prod,
    cos_sin_theta [(3, 4); (4, 3)] (norm <$> [(3, 4); (4, 3)])
    = Ok (cos_the, sin_the, r_prod)
    ∧ Forall (λ c, -1 <= c <= 1) cos_the
    ∧ Forall (λ s, -1 <= s <= 1) sin_the
    ∧ 0 <= Np.sum ((λ c, c + 1) <$> cos_the) <= 2 * INR (length cos_the).
Proof.
  do 3 eexists. split; [reflexivity|].
  eapply (cos_sin_theta_bounded [(3, 4); (4, 3)]).
  - repeat constructor; cbn [fst snd]; rewrite ?norm_3_4, ?norm_4_3; lra.
  - reflexivity.
Defined.

Lemma cos_sin_theta_swap_witness :
  cos_sin_theta (swap_pairs [(3, 4); (4, 3)]) (swap_pairs [5; 5])
  = Ok ([(3 * 4 + 4 * 3) / (5 * 5)],
        Ropp <$> [(3 * 3 - 4 * 4) / (5 * 5)], [5 * 5]).
Proof.
  apply (cos_sin_theta_swap [(3, 4); (4, 3)] [5; 5]). reflexivity.
Defined.

(** ** More on [calc_energy_forces] *)

Lemma mapM_ext {A B} (f g : A → result B) l :
  (∀ x, f x = g x) → mapM f l = mapM g l.
Proof.
  intros H. induction l as [|x l IH]; [done|].
  cbn [mapM]. by rewrite H, IH.
Qed.

Lemma getitem_fmap {A B} (f : A → B) (l : list A) i :
  Np.getitem (f <$> l) i = f <$> Np.getitem l i.
Proof.
  unfold Np.getitem. rewrite list_lookup_fmap. by destruct (l !! i).
Qed.

Lemma take_fmap {A B} (f : A → B) (l : list A) idx :
  Np.take (f <$> l) idx = fmap (M := list) f <$> Np.take l idx.
Proof.
  unfold Np.take. induction idx as [|i idx IH]; [done|].
  cbn [mapM]. rewrite getitem_fmap, IH.
  destruct (Np.getitem l i); [|done]. cbn.
  by destruct (mapM (Np.getitem l) idx).
Qed.

Lemma pair_displacement_translate pos cell t ij :
  Ut.pair_displacement ((λ p, vadd p t) <$> pos) cell ij
  = Ut.pair_displacement pos cell ij.
Proof.
  unfold Ut.pair_displacement. rewrite !getitem_fmap.
  destruct (Np.getitem pos ij.1) as [pi|]; [|done].
  destruct (Np.getitem pos ij.2) as [pj|]; [|done].
  cbn. do 2 f_equal; f_equal; lra.
Qed.

Lemma get_distances_mpi_translate pos cell t g :
  Ut.get_distances_mpi ((λ p, vadd p t) <$> pos) g cell
  = Ut.get_distances_mpi pos g cell.
Proof.
  unfold Ut.get_distances_mpi. f_equal.
  apply mapM_ext. intros row. apply mapM_ext. intros ij.
  apply pair_displacement_translate.
Qed.

Lemma zip_with_vsub_translate t (a b : list (R * R)) :
  Np.zip_with vsub ((λ p, vadd p t) <$> a) ((λ p, vadd p t) <$> b)
  = Np.zip_with vsub a b.
Proof.
  assert (E : ∀ x y, vsub (vadd x t) (vadd y t) = vsub x y).
  { intros x y. unfold vsub, vadd. cbn. f_equal; lra. }
  unfold Np.zip_with. rewrite !length_fmap.
  destruct (length a =? length b)%nat.
  - f_equal. rewrite zip_with_fmap_l, zip_with_fmap_r.
    by apply zip_with_ext.
  - destruct a as [|x [|x' a]], b as [|y [|y' b]]; cbn [fmap list_fmap];
      try done; f_equal; rewrite ?E; try done.
    all: do 2 f_equal; rewrite <- list_fmap_compose;
      apply list_fmap_ext; intros ? z _; apply E.
Qed.

Lemma angle_vectors_translate prm pos cell t abi :
  angle_vectors prm ((λ p, vadd p t) <$> pos) cell abi
  = angle_vectors prm pos cell abi.
Proof.
  unfold angle_vectors.
  destruct (Np.getitem abi 0) as [i0|]; [|done]. cbn [mbind result_bind].
  rewrite take_fmap. destruct (Np.take pos i0) as [p0|]; [|done].
  cbn [fmap result_fmap mbind result_bind].
  destruct (Np.getitem abi 1) as [i1|]; [|done]. cbn [mbind result_bind].
  rewrite take_fmap. destruct (Np.take pos i1) as [p1|]; [|done].
  cbn [fmap result_fmap mbind result_bind].
  by rewrite zip_with_vsub_translate.
Qed.

(** X4: In exact arithmetic, moving every bead by the same vector changes
    neither the energy nor the forces nor the virial tensor: only
    differences of positions enter [calc_energy_forces]. *)
Theorem calc_energy_forces_translation pot_vdw force_vdw prm pos cell_dim t
  pos_indices bond_indices frc_indices angle_indices angle_bond_indices
  vdw_coeff virial_indicies :
  calc_energy_forces pot_vdw force_vdw prm ((λ p, vadd p t) <$> pos)
    cell_dim pos_indices bond_indices frc_indices angle_indices
    angle_bond_indices vdw_coeff virial_indicies
  = calc_energy_forces pot_vdw force_vdw prm pos cell_dim pos_indices
      bond_indices frc_indices angle_indices angle_bond_indices vdw_coeff
      virial_indicies.
Proof.
  unfold calc_energy_forces. cbv zeta.
  rewrite get_distances_mpi_translate, length_fmap.
  destruct (Ut.get_distances_mpi pos pos_indices cell_dim) as [pd|]; [|done].
  cbn [mbind result_bind]. unfold bonded_blocks, angle_block.
  by rewrite length_fmap, angle_vectors_translate.
Qed.

Lemma broadcast_to_length {A} n (v v' : list A) :
  Np.broadcast_to n v = Ok v' → length v' = n.
Proof.
  unfold Np.broadcast_to. destruct (Nat.eqb_spec (length v) n) as [<-|_].
  - by intros [= <-].
  - destruct v as [|x [|]]; try done. intros [= <-].
    by rewrite length_replicate.
Qed.

Lemma izip_with_length {A B} (f : A → B → A) a b c :
  Np.izip_with f a b = Ok c → length c = length a.
Proof.
  unfold Np.izip_with. intros (b' & Hb & [= <-])%bind_ok.
  apply broadcast_to_length in Hb. rewrite length_zip_with. lia.
Qed.

Lemma bond_block_length prm n pd r bi fi a a' :
  length (f_beads_x a) = n → length (f_beads_y a) = n →
  bond_block prm n pd r bi fi a = Ok a' →
  length (f_beads_x a') = n ∧ length (f_beads_y a') = n.
Proof.
  intros Lx Ly. unfold bond_block. intros (br & _ & H)%bind_ok.
  cbv zeta in H. apply bind_ok in H as (d0 & _ & H).
  apply bind_ok in H as (t0 & Ht0 & H). apply bind_ok in H as (d1 & _ & H).
  apply bind_ok in H as (t1 & Ht1 & [= <-]). cbn [f_beads_x f_beads_y].
  apply (iadd_at2_shape n n) in Ht0 as [L0 _]; [|apply shape_zeros2].
  apply (iadd_at2_shape n n) in Ht1 as [L1 _]; [|apply shape_zeros2].
  rewrite !length_zip_with, !length_sum_axis1. lia.
Qed.

Lemma run_stmts_length (P : acc → Prop) stmts st st' e :
  Forall (λ s, ∀ a a', P a → s a = Ok a' → P a') stmts →
  P st → run_stmts stmts st = (st', e) → P st'.
Proof.
  intros Hs. revert st. induction Hs as [|s stmts Hs _ IH]; intros st HP.
  - cbn. by intros [= <- _].
  - cbn [run_stmts]. destruct (s st) as [st1|e1] eqn:E.
    + apply IH. by eapply Hs.
    + by intros [= <- _].
Qed.

Lemma iadd_x_length n idx v a a' :
  length (f_beads_x a) = n ∧ length (f_beads_y a) = n →
  iadd_x idx v a = Ok a' →
  length (f_beads_x a') = n ∧ length (f_beads_y a') = n.
Proof.
  intros [Lx Ly]. unfold iadd_x. intros (fx & Hfx & [= <-])%bind_ok.
  apply iop_at_length in Hfx. cbn. split; congruence.
Qed.

Lemma iadd_y_length n idx v a a' :
  length (f_beads_x a) = n ∧ length (f_beads_y a) = n →
  iadd_y idx v a = Ok a' →
  length (f_beads_x a') = n ∧ length (f_beads_y a') = n.
Proof.
  intros [Lx Ly]. unfold iadd_y. intros (fy & Hfy & [= <-])%bind_ok.
  apply iop_at_length in Hfy. cbn. split; congruence.
Qed.

Lemma angle_block_length prm pos cell ai abi n st st' e :
  length (f_beads_x st) = n → length (f_beads_y st) = n →
  angle_block prm pos cell ai abi st = (st', e) →
  length (f_beads_x st') = n ∧ length (f_beads_y st') = n.
Proof.
  intros Lx Ly. unfold angle_block.
  destruct (angle_vectors prm pos cell abi) as [v|]; [|by intros [= <- _]].
  cbv zeta.
  destruct (cos_sin_theta v (norm <$> v)) as [[[c s] p]|];
    [|by intros [= <- _]].
  destruct (angle_forces prm v (norm <$> v) s p) as [[fij fk]|];
    [|by intros [= <- _]].
  destruct (Np.take fij (Np.arange2 0 _)) as [f_ij|];
    [|by intros [= <- _]].
  destruct (Np.take fij (Np.arange2 1 _)) as [f_jk|];
    [|by intros [= <- _]].
  intros Hrun.
  refine (run_stmts_length
            (λ a, length (f_beads_x a) = n ∧ length (f_beads_y a) = n)
            _ _ _ _ _ _ Hrun); [|by split].
  repeat (apply Forall_cons_2;
          [intros a a'; first [apply iadd_x_length | apply iadd_y_length]|]).
  apply Forall_nil_2.
Qed.

Lemma bonded_blocks_length prm pos cell pd r bi fi ai abi st st' :
  length (f_beads_x st) = length pos → length (f_beads_y st) = length pos →
  bonded_blocks prm pos cell pd r bi fi ai abi st = Ok st' →
  length (f_beads_x st') = length pos ∧ length (f_beads_y st') = length pos.
Proof.
  intros Lx Ly. unfold bonded_blocks.
  destruct (0 <? length bi)%nat; [|by intros [= <-]].
  intros (st1 & H1 & H)%bind_ok.
  apply bond_block_length in H1 as [L1x L1y]; [|done..].
  destruct (angle_block prm pos cell ai abi st1) as [st2 e] eqn:E.
  apply (angle_block_length _ _ _ _ _ (length pos)) in E; [|done..].
  destruct e as [[|]|]; by simplify_eq.
Qed.

(** X5: Whenever [calc_energy_forces] returns, the force array has one row for
    each bead of [pos]. *)
Theorem calc_energy_forces_frc_shape pot_vdw force_vdw prm pos cell_dim
  pos_indices bond_indices frc_indices angle_indices angle_bond_indices
  vdw_coeff virial_indicies pot_energy frc_beads virial_tensor :
  calc_energy_forces pot_vdw force_vdw prm pos cell_dim pos_indices
    bond_indices frc_indices angle_indices angle_bond_indices vdw_coeff
    virial_indicies = Ok (pot_energy, frc_beads, virial_tensor) →
  length frc_beads = length pos.
Proof.
  unfold calc_energy_forces. cbv zeta. intros (pd & _ & H)%bind_ok.
  apply bind_ok in H as (st1 & H1 & H).
  apply bonded_blocks_length in H1 as [L1x L1y];
    [|apply length_zeros..].
  apply bind_ok in H as ([st2 vt] & H2 & [= _ <- _]).
  unfold nonbond_block in H2. apply bind_ok in H2 as (pot & _ & H2).
  cbv zeta in H2. apply bind_ok in H2 as (frc & _ & H2).
  apply bind_ok in H2 as (t0 & _ & H2). apply bind_ok in H2 as (v00 & _ & H2).
  apply bind_ok in H2 as (v01 & _ & H2). apply bind_ok in H2 as (t1 & _ & H2).
  apply bind_ok in H2 as (v10 & _ & H2). apply bind_ok in H2 as (v11 & _ & H2).
  apply bind_ok in H2 as (fx & Hfx & H2).
  apply bind_ok in H2 as (fy & Hfy & [= <- _]).
  apply izip_with_length in Hfx, Hfy. cbn [f_beads_x f_beads_y].
  rewrite length_zip. lia.
Qed.

Lemma calc_energy_forces_frc_shape_witness :
  ∃ e f v,
    calc_energy_forces Ut.lj_pot_vdw Ut.lj_force_vdw prm_two_beads
      [(0, 0); (1, 0)] (10, 10) grid_two_beads [] [] [] []
      [[0; 0]; [0; 0]] [] = Ok (e, f, v)
    ∧ length f = 2%nat.
Proof.
  do 3 eexists. split.
  - np_eval. reflexivity.
  - eapply (calc_energy_forces_frc_shape Ut.lj_pot_vdw Ut.lj_force_vdw
              prm_two_beads [(0, 0); (1, 0)] (10, 10) grid_two_beads
              [] [] [] [] [[0; 0]; [0; 0]] []).
    np_eval. reflexivity.
Defined.

(** *** What the [try ... except IndexError] hides and what it lets out *)

Lemma take_raises {A} (a : list A) idx :
  Exists (λ i, (length a <= i)%nat) idx → Np.take a idx = Raise IndexError.
Proof.
  unfold Np.take. induction 1 as [i idx Hi|i idx _ IH]; cbn [mapM].
  - unfold Np.getitem. by rewrite (lookup_ge_None_2 a i Hi).
  - rewrite IH. unfold Np.getitem. by destruct (a !! i).
Qed.

Lemma take2_raises {A} (m : list (list A)) idx :
  Exists (λ ij : nat * nat, (length m <= ij.1)%nat) idx →
  Np.take2 m idx = Raise IndexError.
Proof.
  unfold Np.take2. induction 1 as [ij idx Hi|ij idx _ IH]; cbn [mapM].
  - unfold Np.getitem2, Np.getitem. by rewrite (lookup_ge_None_2 m _ Hi).
  - rewrite IH. unfold Np.getitem2, Np.getitem.
    destruct (m !! ij.1) as [row|]; [|done]. cbn [mbind result_bind].
    by destruct (row !! ij.2).
Qed.

(** X6: An angle whose first bead is not a bead of the system is not reported:
    the [IndexError] of the first scatter ends the [try] body after the
    energy of all angles has been added and before any angle force has. *)
Theorem angle_index_error_swallowed prm pos cell_dim pair_dist pair_r2
  bond_indices frc_indices angle_indices a0 a1 st st1 vector cos_the
  sin_the r_prod :
  bond_indices ≠ [] →
  bond_block prm (length pos) pair_dist pair_r2 bond_indices frc_indices st
  = Ok st1 →
  angle_vectors prm pos cell_dim [a0; a1] = Ok vector →
  cos_sin_theta vector (norm <$> vector) = Ok (cos_the, sin_the, r_prod) →
  Exists (λ t : nat * nat * nat, (length (f_beads_x st1) <= t.1.1)%nat)
         angle_indices →
  bonded_blocks prm pos cell_dim pair_dist pair_r2 bond_indices frc_indices
    angle_indices [a0; a1] st
  = Ok {| pot_energy :=
            pot_energy st1
            + angle_k0 prm * Np.sum ((λ c, c + 1) <$> cos_the);
          f_beads_x := f_beads_x st1; f_beads_y := f_beads_y st1 |}.
Proof.
  intros Hb H1 Hv Hc Hi. unfold bonded_blocks.
  destruct bond_indices as [|b0 bi]; [done|].
  cbn [length Nat.ltb Nat.leb]. rewrite H1. cbn [mbind result_bind].
  unfold angle_block. rewrite Hv. cbv zeta. rewrite Hc.
  destruct (cos_sin_theta_lengths _ _ _ _ _ Hc) as (k & Lv & Lr & _ & Ls & Lp).
  destruct (angle_forces_exists prm vector (norm <$> vector) sin_the r_prod k)
    as (fij & fk & -> & Lfij & Lfk); [done..|].
  rewrite Lv, div2_double_S, div2_double.
  destruct (take_exists fij (Np.arange2 0 k)) as (e1 & -> & _).
  { rewrite Lfij. apply arange2_range; lia. }
  destruct (take_exists fij (Np.arange2 1 k)) as (o1 & -> & _).
  { rewrite Lfij. apply arange2_range; lia. }
  cbn [run_stmts]. unfold iadd_x at 1. unfold Np.iadd_at, Np.iop_at.
  cbn [f_beads_x]. rewrite take_raises; [done|].
  by apply Exists_fmap.
Qed.

(** X7: A shape error in the angle arrays is not hidden: with an odd number of
    bond vectors the [ValueError] of the reshape in [cos_sin_theta] leaves
    the [try] and the function. *)
Theorem angle_shape_error_raised prm pos cell_dim pair_dist pair_r2
  bond_indices frc_indices angle_indices angle_bond_indices st st1 vector :
  bond_indices ≠ [] →
  bond_block prm (length pos) pair_dist pair_r2 bond_indices frc_indices st
  = Ok st1 →
  angle_vectors prm pos cell_dim angle_bond_indices = Ok vector →
  Nat.Odd (length vector) →
  bonded_blocks prm pos cell_dim pair_dist pair_r2 bond_indices frc_indices
    angle_indices angle_bond_indices st = Raise ValueError.
Proof.
  intros Hb H1 Hv Ho. unfold bonded_blocks.
  destruct bond_indices as [|b0 bi]; [done|].
  cbn [length Nat.ltb Nat.leb]. rewrite H1. cbn [mbind result_bind].
  unfold angle_block. rewrite Hv. cbv zeta.
  unfold cos_sin_theta. cbv zeta. rewrite reshape2_half.
  apply Nat.odd_spec in Ho. rewrite <- Nat.negb_even in Ho.
  apply negb_true_iff in Ho. by rewrite Ho.
Qed.

(** X8: A bond that names a row beyond the rows of the pair arrays raises
    [IndexError]: the bonded block is outside the [try]. *)
Theorem bond_index_error_raised pot_vdw force_vdw prm pos cell_dim
  pos_indices bond_indices frc_indices angle_indices angle_bond_indices
  vdw_coeff virial_indicies pair_dist :
  Ut.get_distances_mpi pos pos_indices cell_dim = Ok pair_dist →
  Exists (λ ij : nat * nat, (length pos_indices <= ij.1)%nat) bond_indices →
  calc_energy_forces pot_vdw force_vdw prm pos cell_dim pos_indices
    bond_indices frc_indices angle_indices angle_bond_indices vdw_coeff
    virial_indicies = Raise IndexError.
Proof.
  intros Hpd Hb. unfold calc_energy_forces. cbv zeta. rewrite Hpd.
  cbn [mbind result_bind]. unfold bonded_blocks.
  destruct bond_indices as [|b0 bi]; [by inversion Hb|].
  cbn [length Nat.ltb Nat.leb]. unfold bond_block.
  set (r2 := zip_with _ pair_dist.1 pair_dist.2).
  rewrite (take2_raises r2); [reflexivity|].
  eapply Exists_impl; [exact Hb|]. intros ij Hij. cbn beta.
  unfold r2. rewrite length_zip_with.
  unfold Ut.get_distances_mpi in Hpd.
  apply bind_ok in Hpd as (d & Hd & [= <-]). apply mapM_ok_length in Hd.
  cbn [fst snd]. rewrite !length_fmap. cbn beta in Hij. lia.
Qed.

(** *** No pair inside the cutoff *)

Lemma nonzero_from_zeros b row :
  Forall (λ x, x = 0) row → Np.nonzero_from b row = [].
Proof.
  intros H. revert b.
  induction H as [|x row Hx _ IH]; intros b; cbn [Np.nonzero_from]; [done|].
  rewrite (Rnonzero_false x Hx). apply IH.
Qed.

Lemma nonzero2_from_zeros a m :
  Forall (Forall (λ x, x = 0)) m → Np.nonzero2_from a m = [].
Proof.
  intros H. revert a.
  induction H as [|row m Hrow _ IH]; intros a; cbn [Np.nonzero2_from];
    [done|].
  rewrite nonzero_from_zeros by done. cbn [fmap list_fmap app]. apply IH.
Qed.

Lemma cutoff_pairs_none prm pair_r2 :
  Forall (Forall (λ x, x = 0 ∨ rc prm ^ 2 <= x)) pair_r2 →
  cutoff_pairs prm pair_r2 = [].
Proof.
  intros H. unfold cutoff_pairs, Np.nonzero2. apply nonzero2_from_zeros.
  rewrite masked_r2_fmap. apply Forall_fmap.
  eapply Forall_impl; [exact H|]. intros row Hrow. cbn beta.
  apply Forall_fmap. eapply Forall_impl; [exact Hrow|].
  intros x [->|Hx]; unfold compose; [lra|].
  unfold Ut.check_cutoff. rewrite Rltb_false by done. lra.
Qed.

Lemma fmap_zero_zeros2 k n (d : list (list R)) :
  shape k n d →
  fmap (M := list) (fmap (M := list) (λ _, 0)) d = Np.zeros2 k n.
Proof.
  intros [<- Hd]. unfold Np.zeros2, Np.zeros.
  induction Hd as [|row d Hrow _ IH]; [done|].
  cbn [fmap list_fmap length replicate]. f_equal; [|exact IH].
  subst n. clear. induction row as [|x row IH]; [done|].
  cbn [fmap list_fmap length replicate]. by f_equal.
Qed.

Lemma zeros2_all_zero k n : Forall (Forall (λ x, x = 0)) (Np.zeros2 k n).
Proof.
  unfold Np.zeros2, Np.zeros. apply Forall_replicate, Forall_replicate.
  done.
Qed.

Lemma mul2_zero_l z d :
  Forall (Forall (λ x, x = 0)) z → Forall (Forall (λ x, x = 0)) (Np.mul2 z d).
Proof.
  unfold Np.mul2. intros H. revert d.
  induction H as [|row z Hrow _ IH]; intros [|drow d]; cbn [zip_with];
    try constructor; [|apply IH].
  clear IH. revert drow.
  induction Hrow as [|x row -> _ IH]; intros [|y drow]; cbn [zip_with];
    constructor; [lra|apply IH].
Qed.

Lemma take2_Forall (P : R → Prop) m idx vals :
  Forall (Forall P) m → Np.take2 m idx = Ok vals → Forall P vals.
Proof.
  intros Hm. unfold Np.take2. intros H%mapM_ok.
  induction H as [|ij y idx vals Hy _ IH]; constructor; [|done].
  unfold Np.getitem2 in Hy. apply bind_ok in Hy as (row & Hrow & Hy).
  apply getitem_ok in Hrow, Hy.
  eapply Forall_lookup_1; [|exact Hy]. eapply Forall_lookup_1; done.
Qed.

Lemma sum_all_zero vals : Forall (λ x, x = 0) vals → Np.sum vals = 0.
Proof.
  unfold Np.sum. induction 1 as [|x vals -> _ IH]; cbn [foldr]; lra.
Qed.

Lemma virial_entry_zero k n d1 d2 v :
  shape k n d1 → shape k n d2 → Forall (in_shape k n) v →
  virial_entry (Np.zeros2 k n) d1 d2 v = Ok 0.
Proof.
  intros S1 S2 Hv.
  destruct (virial_entry_total k n (Np.zeros2 k n) d1 d2 v) as [x Hx];
    [apply shape_zeros2|done..|].
  rewrite Hx. f_equal. unfold virial_entry in Hx.
  apply fmap_result_ok in Hx as (vals & Hvals & ->).
  apply sum_all_zero. eapply take2_Forall; [|exact Hvals].
  apply mul2_zero_l, mul2_zero_l, zeros2_all_zero.
Qed.

Lemma sum_axis0_zeros2 k n : Np.sum_axis0 n (Np.zeros2 k n) = Np.zeros n.
Proof.
  unfold Np.zeros2. destruct k as [|k]; [done|].
  cbn [replicate Np.sum_axis0]. induction k as [|k IH]; [done|].
  cbn [replicate foldl]. by rewrite vplus_zeros_zeros.
Qed.

(** X9: When every pair of the slice is at distance zero or at least [rc]
    apart, the non-bonded block adds nothing: the energy and the forces
    stay as they are and the virial tensor is zero. *)
Theorem no_pair_within_cutoff pot_vdw force_vdw prm k n pair_dist pair_r2
  vdw_coeff virial_indicies st :
  shape k n pair_dist.1 → shape k n pair_dist.2 →
  Forall (in_shape k n) virial_indicies →
  length (f_beads_x st) = n → length (f_beads_y st) = n →
  Forall (Forall (λ x, x = 0 ∨ rc prm ^ 2 <= x)) pair_r2 →
  ∃ st',
    nonbond_block pot_vdw force_vdw prm pair_dist pair_r2 vdw_coeff
      virial_indicies st = Ok (st', tensor_zero)
    ∧ pot_energy st' = pot_energy st
    ∧ f_beads_x st' = f_beads_x st
    ∧ f_beads_y st' = f_beads_y st.
Proof.
  intros S0 S1 Hv Lx Ly Hr.
  pose proof (cutoff_pairs_none prm pair_r2 Hr) as Hc.
  unfold nonbond_block, nonbond_pot, nonbond_frc, nonbond_temp.
  rewrite !Hc. cbv zeta.
  cbn [Np.take2 mapM mret result_ret mbind result_bind zip_with Np.sum
       foldr].
  unfold Np.iadd_at2, Np.izip_with, Np.broadcast_to.
  cbn [Np.take2 mapM mret result_ret mbind result_bind zip_with length
       Nat.eqb Np.setitems2 zip foldl].
  rewrite (fmap_zero_zeros2 k n pair_dist.1 S0).
  rewrite (fmap_zero_zeros2 k n pair_dist.2 S1).
  rewrite !(virial_entry_zero k n) by done. cbn [mbind result_bind].
  rewrite Lx, Ly, sum_axis0_zeros2, !length_zeros, !Nat.eqb_refl.
  cbn [mbind result_bind]. eexists. split; [reflexivity|].
  cbn [pot_energy f_beads_x f_beads_y].
  rewrite !vplus_zeros_r by done. split; [lra|done].
Qed.

(** ** More on the integrators *)

Lemma wrap_shift_inside c p : 0 <= p < c → wrap_shift c p = 0.
Proof.
  intros Hp. unfold wrap_shift.
  assert (Hc : 0 < c) by lra.
  set (x := (p + c) / c).
  assert (Hx : x * c = p + c) by (unfold x; field; lra).
  assert (H1 : 1 <= x < 2) by (split; nra).
  rewrite (int_eq_nonneg 1 x) by lra.
  replace (1 - 1)%Z with 0%Z by lia. lra.
Qed.

(** X10: In exact arithmetic, a bead that is inside the cell is left where
    it is by the periodic wrap.  In binary64 the sum
    [pos + cell] of a component within a rounding error of the box length
    rounds to twice the box length, and the wrap moves the bead. *)
Theorem periodic_wrap_inside prm pos cell_dim :
  length pos = n_bead prm →
  Forall (in_cell cell_dim) pos →
  periodic_wrap prm pos cell_dim = Ok pos.
Proof.
  intros Hn Hin. rewrite periodic_wrap_total by done. f_equal.
  rewrite <- (list_fmap_id pos) at 2. apply list_fmap_ext.
  intros i [px py] Hp. eapply Forall_lookup_1 in Hin as [H1 H2]; [|exact Hp].
  cbn [fst snd] in *. rewrite !wrap_shift_inside by done.
  unfold Datatypes.id. f_equal; lra.
Qed.

Lemma periodic_wrap_inside_witness :
  periodic_wrap prm_one_bead [(1, 1)] (2, 2) = Ok [(1, 1)].
Proof.
  apply (periodic_wrap_inside prm_one_bead [(1, 1)] (2, 2)).
  - reflexivity.
  - repeat constructor; cbn; lra.
Defined.

(** X11: The shapes the periodic wrap accepts: [pos] has [n_bead] rows, or
    [n_bead] is one; anything else is the [ValueError] of a broadcast. *)
Theorem periodic_wrap_shapes prm pos cell_dim :
  (length pos = n_bead prm ∨ n_bead prm = 1%nat →
   ∃ pos', periodic_wrap prm pos cell_dim = Ok pos'
           ∧ length pos' = length pos)
  ∧ (length pos ≠ n_bead prm → n_bead prm ≠ 1%nat →
     periodic_wrap prm pos cell_dim = Raise ValueError).
Proof.
  split.
  - intros [Hn|H1].
    + rewrite periodic_wrap_total by done. eexists. split; [done|].
      by rewrite length_fmap.
    + unfold periodic_wrap, Np.zip_with. rewrite H1, length_replicate.
      cbn [replicate].
      destruct (Nat.eqb_spec (length pos) 1) as [E|E].
      * cbn [mbind result_bind].
        rewrite izip_with_eq_len by (rewrite length_zip_with; cbn; lia).
        eexists. split; [done|]. rewrite !length_zip_with. cbn. lia.
      * destruct pos as [|p [|q pos]]; cbn [mbind result_bind];
          rewrite izip_with_eq_len by (by rewrite length_fmap);
          (eexists; split; [done|]);
          rewrite length_zip_with, length_fmap; lia.
  - intros Hn H1. unfold periodic_wrap, Np.zip_with.
    rewrite length_replicate.
    destruct (Nat.eqb_spec (length pos) (n_bead prm)) as [E|_]; [done|].
    destruct (n_bead prm) as [|[|m]] eqn:En; [| done |].
    + cbn [replicate]. by destruct pos as [|p [|q pos]].
    + cbn [replicate]. by destruct pos as [|p [|q pos]].
Qed.

Lemma periodic_wrap_shapes_witness :
  (∃ pos', periodic_wrap prm_one_bead [(1, 1); (3, 1)] (2, 2) = Ok pos'
           ∧ length pos' = 2%nat)
  ∧ periodic_wrap prm_two_beads [(1, 1); (3, 1); (0, 0)] (2, 2)
    = Raise ValueError.
Proof.
  split.
  - apply (proj1 (periodic_wrap_shapes prm_one_bead [(1, 1); (3, 1)] (2, 2))).
    by right.
  - apply (proj2 (periodic_wrap_shapes prm_two_beads
                    [(1, 1); (3, 1); (0, 0)] (2, 2))); cbn; lia.
Defined.

Lemma zip_with_noise_free prm (beta1 beta2 vel : list (R * R)) :
  sigma prm = 0 → length beta1 = length beta2 →
  Np.zip_with
    (λ b v : R * R, (sigma prm * b.1 - gamma prm * v.1,
                     sigma prm * b.2 - gamma prm * v.2)) beta1 vel
  = Np.zip_with
      (λ b v : R * R, (sigma prm * b.1 - gamma prm * v.1,
                       sigma prm * b.2 - gamma prm * v.2)) beta2 vel.
Proof.
  intros Hs Hl. rewrite Hs.
  assert (E : ∀ b b' v : R * R,
            (0 * b.1 - gamma prm * v.1, 0 * b.2 - gamma prm * v.2)
            = (0 * b'.1 - gamma prm * v.1, 0 * b'.2 - gamma prm * v.2)).
  { intros. f_equal; lra. }
  unfold Np.zip_with. rewrite <- Hl.
  destruct (length beta1 =? length vel)%nat.
  - f_equal. clear -Hl E. revert beta2 vel Hl.
    induction beta1 as [|b beta1 IH]; intros [|b' beta2] [|v vel] Hl;
      try done.
    cbn [zip_with]. rewrite (E b b' v). f_equal. apply IH. by injection Hl.
  - destruct vel as [|v [|v' vel]].
    + by destruct beta1 as [|b [|]], beta2 as [|b' [|]].
    + assert (F : (λ x : R * R,
                     (0 * x.1 - gamma prm * v.1, 0 * x.2 - gamma prm * v.2))
                  <$> beta1
                  = (λ x : R * R,
                       (0 * x.1 - gamma prm * v.1,
                        0 * x.2 - gamma prm * v.2)) <$> beta2).
      { clear -Hl E. revert beta2 Hl.
        induction beta1 as [|b beta1 IH]; intros [|b' beta2] Hl; try done.
        cbn [fmap list_fmap]. rewrite (E b b' v). f_equal. apply IH.
        by injection Hl. }
      destruct beta1 as [|b [|b1 beta1]], beta2 as [|b' [|b1' beta2]];
        try done; by rewrite F.
    + destruct beta1 as [|b [|]], beta2 as [|b' [|]]; try done.
      f_equal. apply list_fmap_ext. intros _ v0 _. apply E.
Qed.

(** X12: With [sigma] zero the thermostat adds no noise: the step does not
    depend on the Gaussian draw. *)
Theorem velocity_verlet_alg_noise_free pot_vdw force_vdw kin_energy
  get_distances prm beta1 beta2 pos vel frc virial_tensor tp dt sqrt_dt
  cell_dim NPT :
  sigma prm = 0 → length beta1 = length beta2 →
  velocity_verlet_alg pot_vdw force_vdw kin_energy get_distances prm beta1
    pos vel frc virial_tensor tp dt sqrt_dt cell_dim NPT
  = velocity_verlet_alg pot_vdw force_vdw kin_energy get_distances prm beta2
      pos vel frc virial_tensor tp dt sqrt_dt cell_dim NPT.
Proof.
  intros Hs Hl. unfold velocity_verlet_alg, kinematic_update, kick_drift.
  destruct (Np.izip_with vadd vel _) as [vel1|]; [|done].
  cbn [mbind result_bind]. cbv zeta.
  by rewrite (zip_with_noise_free prm beta1 beta2 vel1 Hs Hl).
Qed.

Lemma velocity_verlet_alg_noise_free_witness :
  velocity_verlet_alg Ut.lj_pot_vdw Ut.lj_force_vdw kin_energy_demo
    get_distances_demo prm_one_bead [(1, -1)] [(1, 1)] [(0, 0)] [(0, 0)]
    tensor_zero no_topology 1 1 (2, 2) false
  = velocity_verlet_alg Ut.lj_pot_vdw Ut.lj_force_vdw kin_energy_demo
      get_distances_demo prm_one_bead [(5, 7)] [(1, 1)] [(0, 0)] [(0, 0)]
      tensor_zero no_topology 1 1 (2, 2) false.
Proof.
  apply (velocity_verlet_alg_noise_free Ut.lj_pot_vdw Ut.lj_force_vdw
           kin_energy_demo get_distances_demo prm_one_bead [(1, -1)]
           [(5, 7)]); reflexivity.
Defined.

Lemma kick_drift_length kin_energy prm beta pos vel frc vt dt cell NPT
  pos1 vel1 cell1 :
  kick_drift kin_energy prm beta pos vel frc vt dt cell NPT
  = Ok (pos1, vel1, cell1) →
  length pos1 = length pos ∧ length vel1 = length vel
  ∧ (NPT = false → cell1 = cell).
Proof.
  unfold kick_drift. intros (v1 & Hv1 & H)%bind_ok. cbv zeta in H.
  apply bind_ok in H as (dv & _ & H). apply bind_ok in H as (step & _ & H).
  apply bind_ok in H as (p1 & Hp1 & H). apply bind_ok in H as (v2 & Hv2 & H).
  apply izip_with_length in Hv1, Hp1, Hv2.
  destruct NPT; injection H as <- <- <-.
  - rewrite length_fmap. repeat split; [congruence..|done].
  - repeat split; congruence.
Qed.

Lemma periodic_wrap_length prm pos cell pos' :
  periodic_wrap prm pos cell = Ok pos' → length pos' = length pos.
Proof.
  unfold periodic_wrap. intros (shift & _ & H)%bind_ok.
  by apply izip_with_length in H.
Qed.

Lemma kinematic_update_length kin_energy prm beta pos vel frc vt dt cell
  NPT pos1 vel1 cell1 :
  kinematic_update kin_energy prm beta pos vel frc vt dt cell NPT
  = Ok (pos1, vel1, cell1) →
  length pos1 = length pos ∧ length vel1 = length vel
  ∧ (NPT = false → cell1 = cell).
Proof.
  unfold kinematic_update. intros ([[p v] c] & Hk & H)%bind_ok.
  apply bind_ok in H as (p' & Hw & [= <- <- <-]).
  apply kick_drift_length in Hk as (Lp & Lv & Hc).
  apply periodic_wrap_length in Hw. repeat split; [congruence..|done].
Qed.

Lemma nonbond_block_length pot_vdw force_vdw prm pd r c v st st' vt :
  nonbond_block pot_vdw force_vdw prm pd r c v st = Ok (st', vt) →
  length (f_beads_x st') = length (f_beads_x st)
  ∧ length (f_beads_y st') = length (f_beads_y st).
Proof.
  unfold nonbond_block. intros (pot & _ & H2)%bind_ok.
  cbv zeta in H2. apply bind_ok in H2 as (frc & _ & H2).
  apply bind_ok in H2 as (t0 & _ & H2). apply bind_ok in H2 as (v00 & _ & H2).
  apply bind_ok in H2 as (v01 & _ & H2). apply bind_ok in H2 as (t1 & _ & H2).
  apply bind_ok in H2 as (v10 & _ & H2). apply bind_ok in H2 as (v11 & _ & H2).
  apply bind_ok in H2 as (fx & Hfx & H2).
  apply bind_ok in H2 as (fy & Hfy & [= <- _]).
  apply izip_with_length in Hfx, Hfy. done.
Qed.

Lemma calc_on_length pot_vdw force_vdw prm pos cell tp e f vt :
  calc_on pot_vdw force_vdw prm pos cell tp = Ok (e, f, vt) →
  length f = length pos.
Proof.
  unfold calc_on, calc_energy_forces. cbv zeta. intros (pd & _ & H)%bind_ok.
  apply bind_ok in H as (st1 & H1 & H).
  apply bonded_blocks_length in H1 as [L1x L1y];
    [|apply length_zeros..].
  apply bind_ok in H as ([st2 vt'] & H2 & [= _ <- _]).
  apply nonbond_block_length in H2 as [L2x L2y].
  rewrite length_zip. lia.
Qed.

(** X13: A step that returns keeps the shapes: as many positions, velocities
    and forces as it was given positions and velocities; and without
    [NPT] the cell is returned as it was passed. *)
Theorem velocity_verlet_alg_shapes pot_vdw force_vdw kin_energy
  get_distances prm beta pos vel frc virial_tensor tp dt sqrt_dt cell_dim
  NPT pos' vel' frc' cell' pot_energy virial' r2 :
  velocity_verlet_alg pot_vdw force_vdw kin_energy get_distances prm beta
    pos vel frc virial_tensor tp dt sqrt_dt cell_dim NPT
  = Ok (pos', vel', frc', cell', pot_energy, virial', r2) →
  length pos' = length pos ∧ length vel' = length vel
  ∧ length frc' = length pos
  ∧ (NPT = false → cell' = cell_dim).
Proof.
  unfold velocity_verlet_alg. intros ([[p v] c] & Hk & H)%bind_ok.
  cbv zeta in H. apply bind_ok in H as ([[e f] vt] & Hc & H).
  injection H as <- <- <- <- <- <- <-.
  apply kinematic_update_length in Hk as (Lp & Lv & Hcell).
  apply calc_on_length in Hc. repeat split; [congruence..|done].
Qed.

Lemma velocity_verlet_alg_shapes_witness :
  ∃ pos' vel' frc' cell' e vt r2,
    velocity_verlet_alg Ut.lj_pot_vdw Ut.lj_force_vdw kin_energy_demo
      get_distances_demo prm_one_bead [(0, 0)] [(1, 1)] [(0, 0)] [(0, 0)]
      tensor_zero no_topology 1 1 (2, 2) false
    = Ok (pos', vel', frc', cell', e, vt, r2)
    ∧ length pos' = 1%nat ∧ length vel' = 1%nat ∧ length frc' = 1%nat
    ∧ cell' = (2, 2).
Proof.
  do 7 eexists. split.
  - np_eval. reflexivity.
  - destruct (velocity_verlet_alg_shapes Ut.lj_pot_vdw Ut.lj_force_vdw
                kin_energy_demo get_distances_demo prm_one_bead [(0, 0)]
                [(1, 1)] [(0, 0)] [(0, 0)] tensor_zero no_topology 1 1
                (2, 2) false _ _ _ _ _ _ _ ltac:(np_eval; reflexivity))
      as (H1 & H2 & H3 & H4).
    exact (conj H1 (conj H2 (conj H3 (H4 eq_refl)))).
Defined.

(** ** More on the reduction of [velocity_verlet_alg_mpi] *)

Lemma lookup_zip_seq {A} (l : list A) i a x :
  zip (seq 0 (length l)) l !! i = Some (a, x) → a = i ∧ l !! i = Some x.
Proof.
  intros H. apply lookup_zip_with_Some in H as (a' & x' & [= -> ->] & Ha & Hx).
  apply lookup_seq in Ha as [-> _]. done.
Qed.

(** X14: What the reduction hands to the ranks: every rank gets the same summed
    force array and the same summed virial tensor; rank 0 gets the sum of
    the energies and every other rank gets [None]; positions, velocities
    and cell are those of the rank's own kinematic update. *)
Theorem reduction_on_every_rank pot_vdw force_vdw kin_energy prm beta ranks
  dt sqrt_dt NPT outs :
  velocity_verlet_alg_mpi pot_vdw force_vdw kin_energy prm beta ranks dt
    sqrt_dt NPT = Ok outs →
  ∃ locals,
    mapM (local_step pot_vdw force_vdw kin_energy prm beta dt NPT) ranks
    = Ok locals
    ∧ length outs = length ranks
    ∧ ∀ i o, outs !! i = Some o →
        allreduce_frc ((λ l, l.2.1.2) <$> locals) = Ok (out_frc o)
        ∧ out_virial o = allreduce_tensor ((λ l, l.2.2) <$> locals)
        ∧ out_pot_energy o
          = (if (i =? 0)%nat
             then Some (Np.sum ((λ l, l.2.1.1) <$> locals)) else None)
        ∧ ∃ mine, locals !! i = Some mine
                  ∧ out_pos o = mine.1.1.1 ∧ out_vel o = mine.1.1.2
                  ∧ out_cell_dim o = mine.1.2.
Proof.
  unfold velocity_verlet_alg_mpi. intros (locals & Hl & Ho)%bind_ok.
  pose proof (mapM_ok_length _ _ _ Hl) as Ll.
  pose proof (mapM_ok_length _ _ _ Ho) as Lo.
  rewrite length_zip, length_seq in Lo.
  apply mapM_ok in Ho.
  exists locals. split; [done|]. split; [lia|].
  intros i o Hi.
  destruct (Forall2_lookup_r _ _ _ _ _ Ho Hi) as ([a mine] & Hz & Hr).
  apply lookup_zip_seq in Hz as [-> Hm]. cbn [fst snd] in Hr.
  unfold reduce_on in Hr. apply bind_ok in Hr as (frc & Ef & [= <-]).
  cbn [out_frc out_virial out_pot_energy out_pos out_vel out_cell_dim].
  split; [done|]. split; [done|]. split.
  - unfold comm_gather. by destruct (i =? 0)%nat.
  - by exists mine.
Qed.

Lemma reduction_on_every_rank_witness :
  ∃ outs (locals : list (list (R * R) * list (R * R) * (R * R)
                         * (R * list (R * R) * tensor))),
    velocity_verlet_alg_mpi Ut.lj_pot_vdw Ut.lj_force_vdw kin_energy_demo
      prm_one_bead [(0, 0)] [rank_at_rest; rank_at_rest] 1 1 false = Ok outs
    ∧ length outs = 2%nat
    ∧ ∀ i o, outs !! i = Some o →
        allreduce_frc ((λ l, l.2.1.2) <$> locals) = Ok (out_frc o)
        ∧ out_pot_energy o
          = (if (i =? 0)%nat
             then Some (Np.sum ((λ l, l.2.1.1) <$> locals)) else None).
Proof.
  eexists.
  destruct (reduction_on_every_rank Ut.lj_pot_vdw Ut.lj_force_vdw
              kin_energy_demo prm_one_bead [(0, 0)]
              [rank_at_rest; rank_at_rest] 1 1 false _
              ltac:(np_eval; reflexivity)) as (locals & _ & Hlen & H).
  exists locals. split; [np_eval; reflexivity|]. split; [exact Hlen|].
  intros i o Hi. destruct (H i o Hi) as (H1 & _ & H3 & _). by split.
Defined.

Lemma tensor_add_zero_r (t : tensor) : tensor_add t tensor_zero = t.
Proof.
  destruct t as [[a b] [c d]]. unfold tensor_add, tensor_zero. cbn.
  do 2 f_equal; lra.
Qed.

(** X15: A communicator of one rank computes what the serial step computes. *)
Theorem mpi_single_rank pot_vdw force_vdw kin_energy get_distances prm beta
  s dt sqrt_dt NPT pos vel frc cell pot_energy virial r2 :
  velocity_verlet_alg pot_vdw force_vdw kin_energy get_distances prm beta
    (rk_pos s) (rk_vel s) (rk_frc s) (rk_virial s) (rk_topology s) dt
    sqrt_dt (rk_cell_dim s) NPT
  = Ok (pos, vel, frc, cell, pot_energy, virial, r2) →
  velocity_verlet_alg_mpi pot_vdw force_vdw kin_energy prm beta [s] dt
    sqrt_dt NPT
  = Ok [{| out_pos := pos; out_vel := vel; out_frc := frc;
           out_cell_dim := cell; out_pot_energy := Some pot_energy;
           out_virial := virial |}].
Proof.
  unfold velocity_verlet_alg. intros ([[p v] c] & Hk & H)%bind_ok.
  cbv zeta in H. apply bind_ok in H as ([[e f] vt] & Hc & H).
  injection H as <- <- <- <- <- <- _.
  unfold velocity_verlet_alg_mpi. cbn [mapM]. unfold local_step at 1.
  rewrite Hk. cbn [mbind result_bind]. rewrite Hc.
  cbn [mbind result_bind mret result_ret mapM length seq zip zip_with].
  unfold reduce_on, comm_gather.
  cbn [fst snd fmap list_fmap option_fmap option_map allreduce_frc
       allreduce_tensor foldr Nat.eqb mbind result_bind mret result_ret].
  rewrite tensor_add_zero_r. do 3 f_equal.
  unfold Np.sum. cbn [foldr]. f_equal. lra.
Qed.

Lemma mpi_single_rank_witness :
  ∃ o,
    velocity_verlet_alg_mpi Ut.lj_pot_vdw Ut.lj_force_vdw kin_energy_demo
      prm_one_bead [(0, 0)] [rank_at_rest] 1 1 false = Ok [o].
Proof.
  eexists.
  eapply (mpi_single_rank Ut.lj_pot_vdw Ut.lj_force_vdw kin_energy_demo
            get_distances_demo prm_one_bead [(0, 0)] rank_at_rest 1 1 false).
  np_eval. reflexivity.
Defined.

(** *** The parallel step over slices and the serial step over the whole *)

Lemma calc_join_all pot_vdw force_vdw prm pos cell slices :
  (n_dim prm <= 2)%nat →
  Forall (wf_slice (length pos)) slices →
  scatter_once (join_all slices) →
  ∃ results,
    Forall2 (λ tp r, calc_on pot_vdw force_vdw prm pos cell tp = Ok r)
            slices results
    ∧ calc_on pot_vdw force_vdw prm pos cell (join_all slices)
      = Ok (Np.sum ((λ r, r.1.1) <$> results),
            frc_sum (length pos) ((λ r, r.1.2) <$> results),
            tensor_sum ((λ r, r.2) <$> results)).
Proof.
  intros Hn HW. induction HW as [|s rest Hs Hrest IH]; intros HS.
  - exists []. split; [constructor|]. apply calc_no_topology.
  - cbn [join_all foldr] in HS |- *.
    pose proof (scatter_once_join_r _ _ HS) as HSr.
    destruct (IH HSr) as (results & Hm & Hc).
    destruct (calc_join pot_vdw force_vdw prm pos cell s
                (foldr join no_topology rest) Hn Hs
                (wf_join_all _ _ Hrest HSr) HS)
      as (r1 & r2 & H1 & H2 & HJ).
    change (foldr join no_topology rest) with (join_all rest) in *.
    rewrite Hc in H2. injection H2 as <-.
    exists (r1 :: results). split; [by constructor|]. by rewrite HJ.
Qed.

Lemma length_frc_sum n fs :
  Forall (λ f : list (R * R), length f = n) fs → length (frc_sum n fs) = n.
Proof.
  unfold frc_sum. induction 1 as [|f fs Hf _ IH]; cbn [foldr].
  - apply length_replicate.
  - rewrite length_zip_with. lia.
Qed.

Lemma vadd_zeros_r n (f : list (R * R)) :
  length f = n → zip_with vadd f (replicate n (0, 0)) = f.
Proof.
  intros <-. induction f as [|[a b] f IH]; [done|].
  cbn [length replicate zip_with]. rewrite IH. f_equal.
  unfold vadd. cbn. f_equal; lra.
Qed.

Lemma allreduce_frc_sum n fs :
  fs ≠ [] → Forall (λ f : list (R * R), length f = n) fs →
  allreduce_frc fs = Ok (frc_sum n fs).
Proof.
  intros Hne Hf. induction Hf as [|f fs Hf Hfs IH]; [done|].
  destruct fs as [|g fs].
  - cbn. by rewrite vadd_zeros_r.
  - change (allreduce_frc (f :: g :: fs))
      with (s ← allreduce_frc (g :: fs); Np.zip_with vadd f s).
    rewrite IH by done. cbn [mbind result_bind].
    rewrite zip_with_eq_len; [done|].
    by rewrite length_frc_sum.
Qed.

(** X16: In exact arithmetic, where the order of the additions of a sum
    does not change it: when every rank holds the same positions,
    velocities, forces, virial tensor and cell and the ranks' index
    structures are well-formed slices without repeated scatter targets,
    every rank returns the positions, velocities, cell, forces
    and virial tensor of the serial step over the slices joined, and rank 0
    returns its energy. *)
Theorem mpi_step_is_serial_step pot_vdw force_vdw kin_energy get_distances
  prm beta pos vel frc virial_tensor cell_dim slices dt sqrt_dt NPT
  pos' vel' frc' cell' pot_energy virial' r2 :
  (n_dim prm <= 2)%nat →
  slices ≠ [] →
  Forall (wf_slice (length pos)) slices →
  scatter_once (join_all slices) →
  velocity_verlet_alg pot_vdw force_vdw kin_energy get_distances prm beta
    pos vel frc virial_tensor (join_all slices) dt sqrt_dt cell_dim NPT
  = Ok (pos', vel', frc', cell', pot_energy, virial', r2) →
  ∃ outs,
    velocity_verlet_alg_mpi pot_vdw force_vdw kin_energy prm beta
      ((λ tp, {| rk_pos := pos; rk_vel := vel; rk_frc := frc;
                 rk_virial := virial_tensor; rk_topology := tp;
                 rk_cell_dim := cell_dim |}) <$> slices)
      dt sqrt_dt NPT = Ok outs
    ∧ length outs = length slices
    ∧ ∀ i o, outs !! i = Some o →
        out_pos o = pos' ∧ out_vel o = vel' ∧ out_frc o = frc'
        ∧ out_cell_dim o = cell' ∧ out_virial o = virial'
        ∧ out_pot_energy o
          = (if (i =? 0)%nat then Some pot_energy else None).
Proof.
  intros Hn Hne HW HS. unfold velocity_verlet_alg.
  intros ([[p v] c] & Hk & H)%bind_ok. cbv zeta in H.
  apply bind_ok in H as ([[e f] vt] & Hc & H).
  injection H as <- <- <- <- <- <- _.
  pose proof (kinematic_update_length _ _ _ _ _ _ _ _ _ _ _ _ _ Hk)
    as (Lp & _ & _).
  rewrite <- Lp in HW.
  destruct (calc_join_all pot_vdw force_vdw prm p c slices Hn HW HS)
    as (results & Hres & HJ).
  rewrite HJ in Hc. injection Hc as <- <- <-.
  set (tag := λ r : R * list (R * R) * tensor, (p, v, c, r)).
  set (mk := λ tp, {| rk_pos := pos; rk_vel := vel; rk_frc := frc;
                      rk_virial := virial_tensor; rk_topology := tp;
                      rk_cell_dim := cell_dim |}).
  assert (Hloc : mapM (local_step pot_vdw force_vdw kin_energy prm beta dt
                         NPT) (mk <$> slices) = Ok (tag <$> results)).
  { apply mapM_ok, Forall2_fmap. eapply Forall2_impl; [exact Hres|].
    intros tp r Hr. unfold local_step, mk. cbn [rk_pos rk_vel rk_frc
      rk_virial rk_topology rk_cell_dim]. rewrite Hk.
    cbn [mbind result_bind]. by rewrite Hr. }
  assert (Lr : length results = length slices)
    by (symmetry; by eapply Forall2_length).
  assert (Hfl : Forall (λ f : list (R * R), length f = length p)
                  ((λ r, r.1.2) <$> results)).
  { apply Forall_fmap. apply Forall_forall. intros [[e f] vt] Hin.
    apply list_elem_of_lookup in Hin as [i Hi].
    destruct (Forall2_lookup_r _ _ _ _ _ Hres Hi) as (tp & _ & Hr).
    by apply calc_on_length in Hr. }
  assert (Hfrc : allreduce_frc ((λ l, l.2.1.2) <$> (tag <$> results))
                 = Ok (frc_sum (length p) ((λ r, r.1.2) <$> results))).
  { rewrite <- list_fmap_compose. apply allreduce_frc_sum; [|done].
    destruct results; [|done]. destruct slices; done. }
  unfold velocity_verlet_alg_mpi. fold mk. rewrite Hloc.
  cbn [mbind result_bind].
  set (out := λ im : nat * (list (R * R) * list (R * R) * (R * R)
                           * (R * list (R * R) * tensor)),
         {| out_pos := p; out_vel := v;
            out_frc := frc_sum (length p) ((λ r, r.1.2) <$> results);
            out_cell_dim := c;
            out_pot_energy :=
              if (im.1 =? 0)%nat
              then Some (Np.sum ((λ r, r.1.1) <$> results)) else None;
            out_virial := tensor_sum ((λ r, r.2) <$> results) |}).
  exists (out <$> zip (seq 0 (length (tag <$> results))) (tag <$> results)).
  split.
  - apply mapM_fmap. apply Forall_forall. intros [i mine] Hin.
    apply list_elem_of_lookup in Hin as [j Hj].
    apply lookup_zip_seq in Hj as [-> Hj].
    rewrite list_lookup_fmap in Hj.
    destruct (results !! j) as [r|]; [|done]. injection Hj as <-.
    unfold reduce_on. rewrite Hfrc. cbn [mbind result_bind fst snd].
    unfold out, comm_gather, allreduce_tensor, tensor_sum, tag.
    cbn [fst snd]. rewrite <- !list_fmap_compose.
    by destruct (j =? 0)%nat.
  - split; [by rewrite length_fmap, length_zip, length_seq, length_fmap,
              Nat.min_id|].
    intros i o Hi. rewrite list_lookup_fmap in Hi.
    destruct (zip _ _ !! i) as [[a mine]|] eqn:Hz; [|done].
    injection Hi as <-. apply lookup_zip_seq in Hz as [-> _].
    unfold out. cbn [out_pos out_vel out_frc out_cell_dim out_virial
                     out_pot_energy fst]. done.
Qed.

Lemma wf_slice_one_bead : wf_slice 1 slice_one_bead.
Proof.
  split;
    cbn [slice_one_bead pos_indices bond_indices frc_indices angle_indices
         angle_bond_indices vdw_coeff virial_indicies length].
  all: try (repeat constructor; unfold in_shape; cbn; lia).
  all: try by repeat constructor.
  exists [], []. by repeat split.
Qed.

Lemma mpi_step_is_serial_step_witness :
  ∃ outs,
    velocity_verlet_alg_mpi Ut.lj_pot_vdw Ut.lj_force_vdw kin_energy_demo
      prm_one_bead [(0, 0)]
      ((λ tp, {| rk_pos := [(1, 1)]; rk_vel := [(0, 0)];
                 rk_frc := [(0, 0)]; rk_virial := tensor_zero;
                 rk_topology := tp; rk_cell_dim := (2, 2) |})
         <$> [slice_one_bead; no_topology])
      1 1 false = Ok outs
    ∧ length outs = 2%nat.
Proof.
  edestruct (mpi_step_is_serial_step Ut.lj_pot_vdw Ut.lj_force_vdw
               kin_energy_demo get_distances_demo prm_one_bead [(0, 0)]
               [(1, 1)] [(0, 0)] [(0, 0)] tensor_zero (2, 2)
               [slice_one_bead; no_topology] 1 1 false)
    as (outs & H1 & H2 & _).
  - cbn. lia.
  - done.
  - apply Forall_cons_2; [|apply Forall_cons_2; [|apply Forall_nil_2]].
    + apply wf_slice_one_bead.
    + apply wf_no_topology.
  - repeat split; cbn; by apply (bool_decide_unpack _).
  - np_eval. reflexivity.
  - exists outs. by split.
Defined.

Lemma angle_index_error_swallowed_witness :
  ∃ st1 cos_the,
    bonded_blocks prm_corner pos_corner cell_corner
      ([[0; -1; -1]], [[0; 0; -1]]) [[0; 1; 2]] [(0, 1)]%nat [(0, 1)]%nat
      [(7, 1, 2)]%nat [[1; 1]; [0; 2]]%nat
      {| pot_energy := 0; f_beads_x := [0; 0; 0]; f_beads_y := [0; 0; 0] |}
    = Ok {| pot_energy :=
              pot_energy st1
              + angle_k0 prm_corner * Np.sum ((λ c, c + 1) <$> cos_the);
            f_beads_x := f_beads_x st1; f_beads_y := f_beads_y st1 |}.
Proof.
  do 2 eexists.
  eapply (angle_index_error_swallowed prm_corner pos_corner cell_corner
            ([[0; -1; -1]], [[0; 0; -1]]) [[0; 1; 2]] [(0, 1)]%nat
            [(0, 1)]%nat [(7, 1, 2)]%nat [1; 1]%nat [0; 2]%nat).
  - done.
  - np_eval. reflexivity.
  - np_eval. reflexivity.
  - reflexivity.
  - apply Exists_cons_hd. cbn. lia.
Defined.

Lemma angle_shape_error_raised_witness :
  bonded_blocks prm_corner pos_corner cell_corner
    ([[0; -1; -1]], [[0; 0; -1]]) [[0; 1; 2]] [(0, 1)]%nat [(0, 1)]%nat
    [(0, 1, 2)]%nat [[1]; [0]]%nat
    {| pot_energy := 0; f_beads_x := [0; 0; 0]; f_beads_y := [0; 0; 0] |}
  = Raise ValueError.
Proof.
  eapply (angle_shape_error_raised prm_corner pos_corner cell_corner
            ([[0; -1; -1]], [[0; 0; -1]]) [[0; 1; 2]] [(0, 1)]%nat
            [(0, 1)]%nat [(0, 1, 2)]%nat [[1]; [0]]%nat).
  - done.
  - np_eval. reflexivity.
  - np_eval. reflexivity.
  - exists 0%nat. reflexivity.
Defined.

Lemma bond_index_error_raised_witness :
  calc_energy_forces Ut.lj_pot_vdw Ut.lj_force_vdw prm_corner pos_corner
    cell_corner [[(0, 0); (0, 1); (0, 2)]]%nat [(5, 1)]%nat [(0, 1)]%nat
    [] [[]; []] [[0; 0; 0]] [] = Raise IndexError.
Proof.
  eapply (bond_index_error_raised Ut.lj_pot_vdw Ut.lj_force_vdw prm_corner
            pos_corner cell_corner [[(0, 0); (0, 1); (0, 2)]]%nat
            [(5, 1)]%nat).
  - np_eval. reflexivity.
  - apply Exists_cons_hd. cbn. lia.
Defined.

Lemma no_pair_within_cutoff_witness :
  ∃ st',
    nonbond_block Ut.lj_pot_vdw Ut.lj_force_vdw prm_one_bead
      ([[0; 2]], [[0; 0]]) [[0; 4]] [[0; 1]] [(0, 1)]%nat
      {| pot_energy := 3; f_beads_x := [1; 2]; f_beads_y := [0; 0] |}
    = Ok (st', tensor_zero)
    ∧ pot_energy st' = 3
    ∧ f_beads_x st' = [1; 2]
    ∧ f_beads_y st' = [0; 0].
Proof.
  apply (no_pair_within_cutoff Ut.lj_pot_vdw Ut.lj_force_vdw prm_one_bead
           1 2 ([[0; 2]], [[0; 0]]) [[0; 4]] [[0; 1]] [(0, 1)]%nat
           {| pot_energy := 3; f_beads_x := [1; 2]; f_beads_y := [0; 0] |}).
  - split; [reflexivity|repeat constructor].
  - split; [reflexivity|repeat constructor].
  - repeat constructor; cbn; lia.
  - reflexivity.
  - reflexivity.
  - apply Forall_cons_2; [|apply Forall_nil_2].
    apply Forall_cons_2; [by left|].
    apply Forall_cons_2; [right; cbn; lra|]. apply Forall_nil_2.
Defined.

(** ** [main.py] *)

Lemma argv_modules_members argv argv' :
  (∀ x, x ∈ argv ↔ x ∈ argv') →
  Main.argv_modules argv = Main.argv_modules argv'.
Proof. intros H. unfold Main.argv_modules. by apply list_filter_iff. Qed.

Lemma when_iff (P Q : Prop) `{Decision P, Decision Q} c :
  (P ↔ Q) → Main.when P c = Main.when Q c.
Proof. intros H1. unfold Main.when. by apply decide_ext. Qed.

(** X17: Only which words occur on the command line matters, not their order
    or their number, as long as neither [-input] nor [-name] is among
    them: the modules always run in the order simulation, analysis, editor,
    learning, speed, experimental. *)
Theorem main_argv_order argv argv' current_dir typed listing :
  (∀ x, x ∈ argv ↔ x ∈ argv') →
  "-input"%string ∉ argv → "-name"%string ∉ argv →
  Main.main argv current_dir typed listing
  = Main.main argv' current_dir typed listing.
Proof.
  intros H Hi Hn.
  assert (Hi' : "-input"%string ∉ argv') by (by rewrite <- H).
  assert (Hn' : "-name"%string ∉ argv') by (by rewrite <- H).
  unfold Main.main, Main.input_file, Main.experimental.
  rewrite (argv_modules_members argv argv' H).
  rewrite !(decide_False (P := "-input"%string ∈ _)) by done.
  rewrite !(decide_False (P := "-name"%string ∈ _)) by done.
  by rewrite (decide_ext ("-all"%string ∈ argv) ("-all"%string ∈ argv')).
Qed.

Lemma main_argv_order_witness :
  Main.main ["main.py"; "analysis"; "simulation"]%string "/home"%string [] []
  = Main.main ["main.py"; "simulation"; "analysis"; "simulation"]%string
      "/home"%string [] [].
Proof.
  apply (main_argv_order ["main.py"; "analysis"; "simulation"]%string
           ["main.py"; "simulation"; "analysis"; "simulation"]%string).
  - intros x. rewrite !elem_of_cons, !elem_of_nil. tauto.
  - by apply (bool_decide_unpack _).
  - by apply (bool_decide_unpack _).
Defined.

Lemma index_app_first x pre post :
  x ∉ pre → Main.index x (pre ++ x :: post) = Ok (length pre).
Proof.
  induction pre as [|y pre IH]; intros Hx; cbn [Main.index app length].
  - by rewrite decide_True.
  - apply not_elem_of_cons in Hx as [Hy Hx].
    rewrite decide_False by done. by rewrite IH.
Qed.

(** X18: A command line that ends with [-input] stops with an [IndexError]
    after the logo and, at most, the prompt: no module is run. *)
Theorem main_input_without_value pre current_dir typed listing :
  "-input"%string ∉ pre →
  ∃ calls,
    Main.main (pre ++ ["-input"%string]) current_dir typed listing
    = (calls, Some IndexError)
    ∧ Forall (λ c, c = Main.logo ∨ c = Main.input_modules) calls.
Proof.
  intros Hp. unfold Main.main, Main.input_file, Main.argument_of.
  rewrite decide_True by (apply elem_of_app; right; left).
  rewrite index_app_first by done. cbn [mbind result_bind].
  unfold Np.getitem. rewrite lookup_ge_None_2 by (rewrite length_app; cbn; lia).
  cbn [mbind result_bind]. eexists. split; [done|].
  destruct (length _ =? 0)%nat;
    repeat (apply Forall_cons_2; [auto|]); apply Forall_nil_2.
Qed.

Lemma main_input_without_value_witness :
  ∃ calls,
    Main.main (["main.py"; "simulation"]%string ++ ["-input"%string])
      "/home"%string [] [] = (calls, Some IndexError)
    ∧ Forall (λ c, c = Main.logo ∨ c = Main.input_modules) calls.
Proof.
  apply (main_input_without_value ["main.py"; "simulation"]%string).
  by apply (bool_decide_unpack _).
Defined.

(** X19: The word that follows [-input] is also read as a module name: a file
    called [simulation] makes the simulation run, on that file. *)
Theorem main_input_value_is_scanned pre post current_dir typed listing :
  "-input"%string ∉ pre →
  Main.simulation current_dir (Some (current_dir +:+ "/" +:+ "simulation"))
  ∈ (Main.main (pre ++ ["-input"; "simulation"]%string ++ post) current_dir
       typed listing).1.
Proof.
  intros Hp. unfold Main.main, Main.input_file, Main.argument_of.
  set (argv := pre ++ _).
  assert (Hs : "simulation"%string ∈ argv).
  { apply elem_of_app. right. right. left. }
  assert (Hm : "simulation"%string ∈ Main.argv_modules argv).
  { apply list_elem_of_filter. split; [done|]. left. }
  destruct (Main.argv_modules argv) as [|m ms] eqn:E; [by inversion Hm|].
  cbn [length Nat.eqb].
  rewrite decide_True by (apply elem_of_app; right; left).
  unfold argv at 1 2. cbn [app]. rewrite index_app_first by done.
  cbn [mbind result_bind]. unfold Np.getitem.
  rewrite lookup_app_r by lia.
  replace (length pre + 1 - length pre)%nat with 1%nat by lia.
  cbn [lookup list_lookup mbind result_bind].
  destruct (decide ("experimental"%string ∈ m :: ms));
    [destruct (Main.experimental _ _ _) as [calls ex]|];
    cbn [fst]; unfold Main.when at 1;
    rewrite (decide_True (P := "simulation"%string ∈ m :: ms)) by done;
    cbn [app]; right; left.
Qed.

Lemma main_input_value_is_scanned_witness :
  Main.simulation "/home" (Some ("/home" +:+ "/" +:+ "simulation"))
  ∈ (Main.main (["main.py"; "analysis"]%string
                ++ ["-input"; "simulation"]%string ++ [])
       "/home"%string [] []).1.
Proof.
  apply (main_input_value_is_scanned ["main.py"; "analysis"]%string []).
  by apply (bool_decide_unpack _).
Defined.

Lemma when_no_prompt (P : Prop) `{Decision P} c :
  c ≠ Main.input_modules → Main.input_modules ∉ Main.when P c.
Proof.
  intros Hc. unfold Main.when. destruct (decide P).
  - intros E%list_elem_of_singleton. congruence.
  - apply not_elem_of_nil.
Qed.

Lemma experimental_no_prompt current_dir argv listing :
  Main.input_modules ∉ (Main.experimental current_dir argv listing).1.
Proof.
  unfold Main.experimental. destruct (decide _) as [_|_]; cbn [fst].
  - by intros (f & ? & _)%list_elem_of_fmap.
  - destruct (decide _) as [_|_]; [|apply not_elem_of_nil].
    destruct (Main.argument_of _ _); cbn [fst]; [|apply not_elem_of_nil].
    by intros ?%list_elem_of_singleton.
Qed.

(** X20: The prompt is for command lines that name no module: otherwise the
    script does not ask, and what would be typed has no effect. *)
Theorem main_prompt argv current_dir typed typed' listing :
  (Main.argv_modules argv ≠ [] →
   Main.main argv current_dir typed listing
   = Main.main argv current_dir typed' listing
   ∧ ∃ calls e, Main.main argv current_dir typed listing
                = (Main.logo :: calls, e)
                ∧ Main.input_modules ∉ calls)
  ∧ (Main.argv_modules argv = [] →
     ∃ calls e, Main.main argv current_dir typed listing
                = (Main.logo :: Main.input_modules :: calls, e)).
Proof.
  split.
  - intros Hne. unfold Main.main.
    destruct (Main.argv_modules argv) as [|m ms] eqn:E; [done|].
    cbn [length Nat.eqb]. split; [done|].
    destruct (Main.input_file current_dir argv) as [f|e].
    + pose proof (experimental_no_prompt current_dir argv listing) as Hx.
      destruct (decide ("experimental"%string ∈ m :: ms));
        [destruct (Main.experimental _ _ _) as [calls ex]|];
        cbn [app fst] in *; do 2 eexists; (split; [reflexivity|]);
        rewrite ?not_elem_of_app; repeat split;
        try (by apply when_no_prompt); done.
    + do 2 eexists. split; [reflexivity|]. apply not_elem_of_nil.
  - intros E. unfold Main.main. rewrite E. cbn [length Nat.eqb].
    destruct (Main.input_file current_dir argv) as [f|e].
    + destruct (decide ("experimental"%string ∈ typed)) as [Hin|Hin].
      * destruct (Main.experimental _ _ _) as [calls ex]. cbn [app].
        by do 2 eexists.
      * cbn [app]. by do 2 eexists.
    + by do 2 eexists.
Qed.

Lemma main_prompt_witness :
  Main.main ["main.py"; "editor"]%string "/home"%string
    ["analysis"]%string []
  = Main.main ["main.py"; "editor"]%string "/home"%string
      ["learning"]%string []
  ∧ ∃ calls e, Main.main ["main.py"]%string "/home"%string
                 ["analysis"]%string []
               = (Main.logo :: Main.input_modules :: calls, e).
Proof.
  split.
  - apply (proj1 (main_prompt ["main.py"; "editor"]%string "/home"%string
                    ["analysis"]%string ["learning"]%string [])).
    done.
  - apply (proj2 (main_prompt ["main.py"]%string "/home"%string
                    ["analysis"]%string [] [])). reflexivity.
Defined.

Lemma list_ascii_of_string_app (a b : string) :
  String.list_ascii_of_string (a +:+ b)
  = String.list_ascii_of_string a ++ String.list_ascii_of_string b.
Proof.
  induction a as [|c a IH]; [done|].
  change (String c a +:+ b) with (String c (a +:+ b)).
  cbn [String.list_ascii_of_string app]. by rewrite IH.
Qed.

Lemma endswith_spec (s suffix : string) :
  Main.endswith s suffix ↔ ∃ stem, s = stem +:+ suffix.
Proof.
  unfold Main.endswith. split.
  - intros [k Hk]. exists (String.string_of_list_ascii k).
    rewrite <- (String.string_of_list_ascii_of_string s), Hk.
    rewrite <- (String.string_of_list_ascii_of_string suffix) at 2.
    clear. induction k as [|c k IH]; [done|].
    cbn [String.string_of_list_ascii app]. rewrite IH. done.
  - intros [stem ->]. exists (String.list_ascii_of_string stem).
    apply list_ascii_of_string_app.
Qed.

(** X21: With [-all] the experimental module is run on every entry of the
    directory listing whose name ends in [.tif], in the order of the
    listing, and [-name] is not looked at. *)
Theorem main_experimental_all argv current_dir typed listing :
  "experimental"%string ∈ argv → "-all"%string ∈ argv →
  "-input"%string ∉ argv →
  ∃ before images,
    Main.main argv current_dir typed listing
    = (before ++ (Main.experimental_image current_dir <$> images), None)
    ∧ Forall (λ c, ∀ d f, c ≠ Main.experimental_image d f) before
    ∧ images `sublist_of` listing
    ∧ ∀ f, f ∈ images ↔ f ∈ listing ∧ ∃ stem, f = stem +:+ ".tif".
Proof.
  intros He Ha Hi. unfold Main.main, Main.input_file, Main.experimental.
  assert (Hm : "experimental"%string ∈ Main.argv_modules argv).
  { apply list_elem_of_filter. split; [done|]. do 5 right. left. }
  destruct (Main.argv_modules argv) as [|m ms] eqn:E; [by inversion Hm|].
  cbn [length Nat.eqb].
  rewrite (decide_False (P := "-input"%string ∈ argv)) by done.
  rewrite (decide_True (P := "experimental"%string ∈ m :: ms)) by done.
  rewrite (decide_True (P := "-all"%string ∈ argv)) by done.
  do 2 eexists. split; [reflexivity|]. split; [|split].
  - unfold Main.when.
    repeat (apply Forall_app; split);
      repeat match goal with
             | |- context [decide ?P] => destruct (decide P)
             end;
      repeat (apply Forall_cons_2; [done|]); apply Forall_nil_2.
  - apply sublist_filter.
  - intros f. rewrite list_elem_of_filter, endswith_spec. tauto.
Qed.

Lemma main_experimental_all_witness :
  ∃ before images,
    Main.main ["main.py"; "experimental"; "-all"; "-name"]%string
      "/home"%string [] ["a.tif"; "notes.txt"; "b.tif"]%string
    = (before ++ (Main.experimental_image "/home" <$> images), None)
    ∧ Forall (λ c, ∀ d f, c ≠ Main.experimental_image d f) before
    ∧ images `sublist_of` ["a.tif"; "notes.txt"; "b.tif"]%string
    ∧ ∀ f, f ∈ images
           ↔ f ∈ ["a.tif"; "notes.txt"; "b.tif"]%string
             ∧ ∃ stem, f = stem +:+ ".tif".
Proof.
  apply (main_experimental_all
           ["main.py"; "experimental"; "-all"; "-name"]%string);
    by apply (bool_decide_unpack _).
Defined.
